(** * MT-LLM: the LLAMA decoder of [mtllm/models/llama.py]

    A shallow embedding of the decoder's construction arithmetic, of the
    LoRA-adapted attention projections, of the prefix assembly and the
    incremental key/value cache of [LLAMA.forward_generate], and of the
    beam-search reordering hook, followed by the properties of the design
    document that can be stated over them.

    Conventions.
    - Python integers are [Z]; [//] and [%] are [Z.div] and [Z.modulo]
      (both floor, as in Python); [int(a / b)] on integers is [Z.quot]
      (truncation of the exact quotient, which is what the float division
      followed by [int()] gives below 2^53).
    - An exception is a value of [Error]; a computation that may raise
      returns a [Result].
    - A tensor whose leading axes are (batch, sequence) is the list of its
      batch rows, each row the list of its sequence positions.  The
      activations at one position (a vector of floats) are kept abstract:
      the numeric kernels (linear maps, RMS norm, softmax) are fields of
      the model record. *)

From Stdlib Require Import ZArith QArith Qround List Lia Bool.
From stdpp Require Import base gmap strings list fin_maps.
Import ListNotations.

Local Open Scope Z_scope.

(* ===================================================================== *)
(** * Part I: definitions                                                 *)
(* ===================================================================== *)

(** ** Exceptions *)

Inductive Error : Set :=
| ZeroDivisionError
| RuntimeError
| ValueError
| IndexError
| AssertionError
| TypeError
| KeyError
| AttributeError
| NotImplementedError.

Inductive Result (A : Type) : Type :=
| Ok (a : A)
| Err (e : Error).

Arguments Ok {A} a.
Arguments Err {A} e.

Definition rbind {A B : Type} (r : Result A) (k : A -> Result B) : Result B :=
  match r with
  | Ok a => k a
  | Err e => Err e
  end.

Notation "'do' x '<~' r ';' k" := (rbind r (fun x => k))
  (at level 10, x pattern, r at level 100, k at level 200).

Definition is_Ok {A : Type} (r : Result A) : Prop := exists a, r = Ok a.
Definition is_Err {A : Type} (r : Result A) : Prop := exists e, r = Err e.

(** [for x in xs: acc = body(x, acc)], stopping at the first exception. *)
Fixpoint rfold {A S : Type} (body : A -> S -> Result S) (xs : list A) (s : S)
  : Result S :=
  match xs with
  | [] => Ok s
  | x :: xs' => do s' <~ body x s; rfold body xs' s'
  end.

(** [[f(x) for x in xs]], stopping at the first exception. *)
Fixpoint rmap {A B : Type} (f : A -> Result B) (xs : list A) : Result (list B) :=
  match xs with
  | [] => Ok []
  | x :: xs' => do y <~ f x; do ys <~ rmap f xs'; Ok (y :: ys)
  end.

(** ** Python integer arithmetic *)

(** [a // b] *)
Definition floordiv (a b : Z) : Result Z :=
  if b =? 0 then Err ZeroDivisionError else Ok (a / b).

(** [int(a / b)] for integers [a], [b]: float division, then truncation. *)
Definition int_truediv (a b : Z) : Result Z :=
  if b =? 0 then Err ZeroDivisionError else Ok (Z.quot a b).

(** ** Model configuration and construction *)

Module Config.

(** [@dataclass ModelArgs] *)
Record ModelArgs := {
  dim : Z;
  n_layers : Z;
  n_heads : Z;
  vocab_size : Z;
  multiple_of : Z;
  norm_eps : Q;
  max_seq_len : Z;
  gradient_checkpointing : bool;
  use_lora : bool;
  lora_r : Z;
  lora_alpha : Z;
  lora_dropout : Q;
  flash_attention : bool;
  use_xformers : bool;
  enable_fsdp : bool
}.

(** The defaults of the dataclass. *)
Definition default_args : ModelArgs := {|
  dim := 4096; n_layers := 32; n_heads := 32; vocab_size := 32000;
  multiple_of := 256; norm_eps := 1 # 1000000; max_seq_len := 1024;
  gradient_checkpointing := false;
  use_lora := true; lora_r := 8; lora_alpha := 32; lora_dropout := 1 # 10;
  flash_attention := false; use_xformers := false; enable_fsdp := false
|}.

(** The shape of a freshly allocated tensor.  The tensor library refuses a
    negative extent. *)
Definition alloc (shape : list Z) : Result (list Z) :=
  if forallb (fun d => 0 <=? d) shape then Ok shape else Err RuntimeError.

(** [Linear(in_features, out_features, bias=False)]: the weight has shape
    (out_features, in_features). *)
Record LinearP := { in_features : Z; out_features : Z }.

Definition Linear (i o : Z) : Result LinearP :=
  do _ <~ alloc [o; i]; Ok {| in_features := i; out_features := o |}.

(** The low-rank factors of one adapted projection. *)
Record LoraP := { lora_A_shape : list Z; lora_B_shape : list Z }.

Definition new_lora (args : ModelArgs) : Result LoraP :=
  do a <~ alloc [dim args; lora_r args];
  do b <~ alloc [lora_r args; dim args];
  Ok {| lora_A_shape := a; lora_B_shape := b |}.

(** What [Attention_LoRA.__init__] and [Attention.__init__] build. *)
Record AttentionP := {
  n_local_heads : Z;
  head_dim : Z;
  wq : LinearP; wk : LinearP; wv : LinearP; wo : LinearP;
  lora : option (LoraP * LoraP * LoraP * LoraP);
  scaling : Q;
  dropout_p : option Q;
  attn_flash : bool
}.

(** [Attention_LoRA.__init__] *)
Definition Attention_LoRA_init (args : ModelArgs) : Result AttentionP :=
  let nh := n_heads args in
  do hd <~ floordiv (dim args) nh;
  do q <~ Linear (dim args) (nh * hd);
  do k <~ Linear (dim args) (nh * hd);
  do v <~ Linear (dim args) (nh * hd);
  do o <~ Linear (nh * hd) (dim args);
  do lq <~ new_lora args;
  do lk <~ new_lora args;
  do lv <~ new_lora args;
  do lo <~ new_lora args;
  (* self.scaling = args.lora_alpha / args.lora_r *)
  do sc <~ (if lora_r args =? 0 then Err ZeroDivisionError
            else Ok (inject_Z (lora_alpha args) / inject_Z (lora_r args))%Q);
  (* nn.Dropout(p) refuses p outside [0, 1] *)
  do dp <~ (if Qlt_le_dec 0 (lora_dropout args)
            then (if Qlt_le_dec 1 (lora_dropout args) then Err ValueError
                  else Ok (Some (lora_dropout args)))
            else Ok None);
  Ok {| n_local_heads := nh; head_dim := hd;
        wq := q; wk := k; wv := v; wo := o;
        lora := Some (lq, lk, lv, lo); scaling := sc; dropout_p := dp;
        attn_flash := false |}.

(** [Attention.__init__] *)
Definition Attention_init (args : ModelArgs) : Result AttentionP :=
  let nh := n_heads args in
  do hd <~ floordiv (dim args) nh;
  do q <~ Linear (dim args) (nh * hd);
  do k <~ Linear (dim args) (nh * hd);
  do v <~ Linear (dim args) (nh * hd);
  do o <~ Linear (nh * hd) (dim args);
  Ok {| n_local_heads := nh; head_dim := hd;
        wq := q; wk := k; wv := v; wo := o;
        lora := None; scaling := 0; dropout_p := None;
        attn_flash := flash_attention args |}.

(** What [FeedForward.__init__] builds. *)
Record FeedForwardP := { w1 : LinearP; w2 : LinearP; w3 : LinearP }.

(** The two assignments to [hidden_dim] at the head of
    [FeedForward.__init__]. *)
Definition ffn_hidden_dim (hidden_dim multiple_of : Z) : Result Z :=
  do h <~ int_truediv (2 * hidden_dim) 3;
  do q <~ floordiv (h + multiple_of - 1) multiple_of;
  Ok (multiple_of * q).

(** [FeedForward.__init__] *)
Definition FeedForward_init (dim hidden_dim multiple_of : Z)
  : Result FeedForwardP :=
  do h <~ ffn_hidden_dim hidden_dim multiple_of;
  do a <~ Linear dim h;
  do b <~ Linear h dim;
  do c <~ Linear dim h;
  Ok {| w1 := a; w2 := b; w3 := c |}.

(** [RMSNorm.__init__]: the weight is [torch.ones(dim)]. *)
Definition RMSNorm_init (d : Z) : Result (list Z) := alloc [d].

(** What [TransformerBlock.__init__] builds.  Wrapping the feed-forward
    block for sharded execution ([enable_fsdp]) leaves every shape as it
    is and belongs to the deployment layer; it is not modelled. *)
Record TransformerBlockP := {
  blk_layer_id : Z;
  blk_n_heads : Z;
  blk_dim : Z;
  blk_head_dim : Z;
  attention : AttentionP;
  feed_forward : FeedForwardP;
  attention_norm : list Z;
  ffn_norm : list Z
}.

(** [TransformerBlock.__init__] *)
Definition TransformerBlock_init (layer_id : Z) (args : ModelArgs)
  : Result TransformerBlockP :=
  do hd <~ floordiv (dim args) (n_heads args);
  do att <~ (if use_lora args then Attention_LoRA_init args
             else Attention_init args);
  do ff <~ FeedForward_init (dim args) (4 * dim args) (multiple_of args);
  do an <~ RMSNorm_init (dim args);
  do fn <~ RMSNorm_init (dim args);
  Ok {| blk_layer_id := layer_id; blk_n_heads := n_heads args;
        blk_dim := dim args; blk_head_dim := hd;
        attention := att; feed_forward := ff;
        attention_norm := an; ffn_norm := fn |}.

(** [precompute_freqs_cis(dim, end)]: the shape of the table, one row per
    position and one column per pair of head channels. *)
Definition precompute_freqs_cis (d e : Z) : Result (list Z) :=
  do _ <~ alloc [d];
  do _ <~ alloc [e];
  Ok [e; d / 2].

(** What [LLAMA.__init__] builds. *)
Record LLAMAP := {
  params : ModelArgs;
  tok_embeddings : list Z;
  layers : list TransformerBlockP;
  norm : list Z;
  output : LinearP;
  freqs_cis : list Z
}.

(** [range(n)] *)
Definition range (n : Z) : list Z := map Z.of_nat (seq 0 (Z.to_nat n)).

(** [LLAMA.__init__] *)
Definition LLAMA_init (args : ModelArgs) : Result LLAMAP :=
  do emb <~ alloc [vocab_size args; dim args];
  do ls <~ rmap (fun layer_id => TransformerBlock_init layer_id args)
                (range (n_layers args));
  do nm <~ RMSNorm_init (dim args);
  do out <~ Linear (dim args) (vocab_size args);
  do hd <~ floordiv (dim args) (n_heads args);
  do fc <~ precompute_freqs_cis hd (max_seq_len args * 2);
  Ok {| params := args; tok_embeddings := emb; layers := ls;
        norm := nm; output := out; freqs_cis := fc |}.

(** The hidden width of the feed-forward block as the design document
    words it: multiple_of x ceil((2/3 x 4 x dim) / multiple_of). *)
Definition documented_hidden_width (dim multiple_of : Z) : Z :=
  multiple_of *
  Qceiling (((2 # 3) * inject_Z (4 * dim)) / inject_Z multiple_of)%Q.

(** What the attention constructors read off the configuration. *)
Definition floor_heads (args : ModelArgs) (att : AttentionP) : Prop :=
  n_local_heads att = n_heads args /\
  head_dim att = dim args / n_heads args /\
  out_features (wq att) = n_heads args * (dim args / n_heads args) /\
  out_features (wk att) = n_heads args * (dim args / n_heads args) /\
  out_features (wv att) = n_heads args * (dim args / n_heads args) /\
  in_features (wo att) = n_heads args * (dim args / n_heads args).

(** A configuration of width 10 with 4 heads and the defaults elsewhere,
    two layers deep. *)
Definition args_10_4 : ModelArgs := {|
  dim := 10; n_layers := 2; n_heads := 4; vocab_size := 32000;
  multiple_of := 256; norm_eps := 1 # 1000000; max_seq_len := 1024;
  gradient_checkpointing := false;
  use_lora := true; lora_r := 8; lora_alpha := 32; lora_dropout := 1 # 10;
  flash_attention := false; use_xformers := false; enable_fsdp := false
|}.

End Config.

(** ** Tensors as nested lists *)

(** [t.shape[1]] of a tensor with at least one batch row.  (The extent of
    the sequence axis of a tensor with no batch row cannot be read off the
    list and is taken to be 0; the statements below are about batches of
    at least one row.) *)
Definition shape1 {X : Type} (t : list (list X)) : nat :=
  match t with
  | [] => O
  | row :: _ => length row
  end.

(** A tensor of shape (b, n, ...). *)
Definition rect {X : Type} (b n : nat) (t : list (list X)) : Prop :=
  length t = b /\ Forall (fun row => length row = n) t.

(** Python's clamping of one slice bound against a length. *)
Definition slice_bound (len i : Z) : Z :=
  if i <? 0 then Z.max 0 (len + i) else Z.min i len.

(** [l[start:stop]] *)
Definition py_slice {X : Type} (l : list X) (start stop : Z) : list X :=
  let len := Z.of_nat (length l) in
  let s := slice_bound len start in
  let e := slice_bound len stop in
  firstn (Z.to_nat (e - s)) (skipn (Z.to_nat s) l).

(** [l[start:]] *)
Definition py_slice_from {X : Type} (l : list X) (start : Z) : list X :=
  skipn (Z.to_nat (slice_bound (Z.of_nat (length l)) start)) l.

(** [torch.cat(ts, dim=1)]: the batch extents must agree. *)
Fixpoint cat_dim1 {X : Type} (ts : list (list (list X))) : Result (list (list X)) :=
  match ts with
  | [] => Err RuntimeError
  | [t] => Ok t
  | t :: ts' =>
      do r <~ cat_dim1 ts';
      if Nat.eqb (length t) (length r) then Ok (zip_with app t r)
      else Err RuntimeError
  end.

(** [n] consecutive chunks of [k] items. *)
Fixpoint chunks {X : Type} (n k : nat) (flat : list X) : list (list X) :=
  match n with
  | O => []
  | S n' => firstn k flat :: chunks n' k (skipn k flat)
  end.

(** [t.view(bsz, -1, n_local_heads, head_dim)] on a contiguous tensor of
    shape (b0, len, n_local_heads, head_dim) with positive head count and
    head width: the (b0 x len) positions are regrouped, in row-major
    order, into [bsz] rows; this needs [bsz] to be positive and to divide
    their number. *)
Definition view_bsz {X : Type} (bsz : nat) (t : list (list X))
  : Result (list (list X)) :=
  let flat := concat t in
  if Nat.eqb bsz 0 then Err RuntimeError
  else if Nat.eqb (length flat mod bsz) 0
       then Ok (chunks bsz (length flat / bsz)%nat flat)
       else Err RuntimeError.

(** [torch.triu(torch.full((1, 1, n, n), -inf), diagonal=d)]: entry (i, j)
    is [-inf] ([true]) when [j - i >= d] and [0] ([false]) otherwise. *)
Definition triu_neg_inf (n : nat) (d : Z) : list (list bool) :=
  map (fun i => map (fun j => d <=? Z.of_nat j - Z.of_nat i) (seq 0 n)) (seq 0 n).

(** ** Dictionaries updated in place *)

Section Traverse.
Context {K : Type} `{Countable K} {A : Type}.

(** The loop "for k in m: d[k] = g(m[k])", stopping at the first
    exception; both loops of the reordering hook have this form, with
    [d] the dictionary [m] itself.  (The outcome does not depend on the
    order in which the keys are visited.) *)
Definition update_all (g : A -> Result A) (d0 m : gmap K A) : Result (gmap K A) :=
  map_fold (fun k v acc => do d' <~ acc; do v' <~ g v; Ok (<[k := v']> d'))
           (Ok d0) m.

(** What a fallible update makes of a value when it succeeds. *)
Definition total (g : A -> Result A) (v : A) : A :=
  match g v with
  | Ok v' => v'
  | Err _ => v
  end.

End Traverse.

(** ** The decoder: prefix assembly, attention with its cache, the stack

    What is modelled exactly: which tokens are embedded, how the prefix is
    assembled, which positions of the rotary table are looked up, the
    mask, the contents and shapes of the per-layer caches, the order of
    the layers, and the exceptions raised by the embedding lookup, by
    concatenation, by [view], by the assertion of [reshape_for_broadcast],
    by the addition of the mask and by the use of a missing state.

    What is assumed: the floating-point kernels are total functions on the
    activations of one position; that is, the weights have the widths the
    constructor gives them for a head count that divides the model width
    and an even, positive head width, so that no projection, reshape into
    heads or pairing into complex numbers fails.  The fused attention
    kernel is an opaque function of the rows it is given. *)

Module Decoder.

(** Activations (batch x sequence), token ids, one layer's cache
    dictionary, and the per-session dictionary of layer caches. *)
Abbreviation Tensor V := (list (list V)).
Abbreviation Tokens := (list (list Z)).
Abbreviation LayerCache V := (gmap string (option (list (list V)))).
Abbreviation IncState V := (gmap nat (gmap string (option (list (list V))))).

Section Model.
Context {V F L : Type}.

(** Which attention class [TransformerBlock.__init__] picked. *)
Inductive AttentionKind : Set := LoRA | Plain.

(** One transformer layer.  The numeric kernels act on the activations of
    one position: the four attention projections (with their adapters when
    the layer is LoRA), the rotation of one position by one row of the
    rotary table, masked-softmax attention of one query over the keys and
    values (the mask row marks the keys hidden from the query), the RMS
    norms, the gated feed-forward map and the residual addition. *)
Record TransformerBlock := {
  kind : AttentionKind;
  flash_attention : bool;
  wq : V -> V; wk : V -> V; wv : V -> V; wo : V -> V;
  rotate : F -> V -> V;
  softmax_attend : V -> list V -> list V -> option (list bool) -> V;
  memory_efficient_attention :
    option (list V -> list V -> list V -> option (list (list bool)) -> list V);
  attention_norm : V -> V;
  ffn_norm : V -> V;
  feed_forward : V -> V;
  residual : V -> V -> V
}.

(** The decoder stack. *)
Record LLAMA := {
  tok_embeddings : list V;
  layers : list TransformerBlock;
  norm : V -> V;
  output : V -> L;
  freqs_cis : list F
}.

(** [Embedding.forward]: a row of the table per id; an id outside the
    table is an error. *)
Definition embed_id (table : list V) (id : Z) : Result V :=
  if id <? 0 then Err IndexError
  else match table !! Z.to_nat id with
       | Some v => Ok v
       | None => Err IndexError
       end.

Definition embedding (table : list V) (tokens : Tokens) : Result (Tensor V) :=
  rmap (rmap (embed_id table)) tokens.

(** What the head of [forward_generate] hands to the layer loop. *)
Record Assembled := {
  a_h : Tensor V;
  a_start_pos : Z;
  a_seqlen : nat;
  a_freqs_cis : list F;
  a_mask : option (list (list bool))
}.

(** [forward_generate], from its first line to the construction of the
    mask.  [audio_out], when it is not [None], is given by its
    ["encoder_out"] tensor. *)
Definition assemble (m : LLAMA) (prev_output_tokens : Tokens) (start_pos : Z)
    (audio_out : option (Tensor V)) (left_prompts : option Tokens)
  : Result Assembled :=
  do hs <~
    match audio_out with
    | Some encoder_out =>
        if start_pos =? 0 then
          do left_h <~
            match left_prompts with
            | Some lp => do e <~ embedding (tok_embeddings m) lp; Ok (Some e)
            | None => Ok None
            end;
          do h <~ embedding (tok_embeddings m) prev_output_tokens;
          do h' <~
            match left_h with
            | Some lh => cat_dim1 [lh; encoder_out; h]
            | None => cat_dim1 [encoder_out; h]
            end;
          Ok (h', start_pos)
        else
          let toks := map (fun row => py_slice_from row (-1)) prev_output_tokens in
          let sp :=
            match left_prompts with
            | Some lp =>
                start_pos + Z.of_nat (shape1 lp) + Z.of_nat (shape1 encoder_out)
            | None => start_pos + Z.of_nat (shape1 encoder_out)
            end in
          do h <~ embedding (tok_embeddings m) toks;
          Ok (h, sp)
    | None =>
        if start_pos =? 0 then
          do h <~ embedding (tok_embeddings m) prev_output_tokens;
          Ok (h, start_pos)
        else
          let toks := map (fun row => py_slice_from row (-1)) prev_output_tokens in
          do h <~ embedding (tok_embeddings m) toks;
          Ok (h, start_pos)
    end;
  let h := fst hs in
  let sp := snd hs in
  let seqlen := shape1 h in
  let freqs := py_slice (freqs_cis m) sp (sp + Z.of_nat seqlen) in
  let mask :=
    if Nat.ltb 1 seqlen then Some (triu_neg_inf seqlen (sp + 1)) else None in
  Ok {| a_h := h; a_start_pos := sp; a_seqlen := seqlen;
        a_freqs_cis := freqs; a_mask := mask |}.

(** [apply_rotary_emb], with the assertion of [reshape_for_broadcast] that
    the table slice has one row per position of the chunk. *)
Definition apply_rotary_emb (blk : TransformerBlock)
    (xq xk : Tensor V) (freqs : list F) : Result (Tensor V * Tensor V) :=
  if Nat.eqb (length freqs) (shape1 xq)
  then Ok (map (zip_with (rotate blk) freqs) xq,
           map (zip_with (rotate blk) freqs) xk)
  else Err AssertionError.

(** [incremental_state[name].view(bsz, -1, n_local_heads, head_dim)] *)
Definition cached (d : LayerCache V) (name : string) (bsz : nat)
  : Result (Tensor V) :=
  match d !! name with
  | None => Err KeyError
  | Some None => Err AttributeError
  | Some (Some t) => view_bsz bsz t
  end.

(** The cache block shared, line for line, by [Attention_LoRA.forward] and
    [Attention.forward]: the cached keys and values, when there are any,
    go in front of the new ones along the sequence axis and the result is
    stored back. *)
Definition extend_cache (bsz : nat) (xk xv : Tensor V)
    (incremental_state : option (LayerCache V))
  : Result (Tensor V * Tensor V * option (LayerCache V)) :=
  match incremental_state with
  | None => Ok (xk, xv, None)
  | Some d =>
      do kv <~
        match d !! "prev_key" with
        | Some _ =>
            do prev_key <~ cached d "prev_key" bsz;
            do prev_value <~ cached d "prev_value" bsz;
            do k <~ cat_dim1 [prev_key; xk];
            do v <~ cat_dim1 [prev_value; xv];
            Ok (k, v)
        | None => Ok (xk, xv)
        end;
      do k' <~ view_bsz bsz (fst kv);
      do v' <~ view_bsz bsz (snd kv);
      Ok (fst kv, snd kv,
          Some (<["prev_value" := Some v']> (<["prev_key" := Some k']> d)))
  end.

(** Scores, mask, softmax and the product with the values.  Adding the
    (1, 1, seqlen, seqlen) mask that [forward_generate] builds for a chunk
    of more than one position to the (bsz, heads, seqlen, keys) scores
    needs as many keys as the chunk has positions. *)
Definition scaled_dot_product (blk : TransformerBlock)
    (xq keys values : Tensor V) (mask : option (list (list bool)))
  : Result (Tensor V) :=
  do _ <~
    match mask with
    | Some mk =>
        if Nat.eqb (shape1 keys) (length mk) then Ok tt else Err RuntimeError
    | None => Ok tt
    end;
  Ok (zip_with
        (fun qs kv =>
           imap (fun i q =>
                   softmax_attend blk q (fst kv) (snd kv)
                     (match mask with Some mk => mk !! i | None => None end))
                qs)
        xq (zip keys values)).

(** [Attention_LoRA.forward] *)
Definition Attention_LoRA_forward (blk : TransformerBlock) (x : Tensor V)
    (start_pos : Z) (freqs : list F) (mask : option (list (list bool)))
    (incremental_state : option (LayerCache V))
  : Result (Tensor V * option (LayerCache V)) :=
  let bsz := length x in
  let xq := map (map (wq blk)) x in
  let xk := map (map (wk blk)) x in
  let xv := map (map (wv blk)) x in
  do qk <~ apply_rotary_emb blk xq xk freqs;
  do kvs <~ extend_cache bsz (snd qk) xv incremental_state;
  do out <~ scaled_dot_product blk (fst qk) (fst (fst kvs)) (snd (fst kvs)) mask;
  Ok (map (map (wo blk)) out, snd kvs).

(** [Attention.forward] *)
Definition Attention_forward (blk : TransformerBlock) (x : Tensor V)
    (start_pos : Z) (freqs : list F) (mask : option (list (list bool)))
    (incremental_state : option (LayerCache V))
  : Result (Tensor V * option (LayerCache V)) :=
  let bsz := length x in
  let xq := map (map (wq blk)) x in
  let xk := map (map (wk blk)) x in
  let xv := map (map (wv blk)) x in
  do qk <~ apply_rotary_emb blk xq xk freqs;
  do kvs <~ extend_cache bsz (snd qk) xv incremental_state;
  if flash_attention blk then
    match memory_efficient_attention blk with
    | None => Err TypeError
    | Some fused =>
        let attn :=
          zip_with (fun qs kv => fused qs (fst kv) (snd kv) mask)
                   (fst qk) (zip (fst (fst kvs)) (snd (fst kvs))) in
        Ok (map (map (wo blk)) attn, snd kvs)
    end
  else
    do out <~ scaled_dot_product blk (fst qk) (fst (fst kvs)) (snd (fst kvs)) mask;
    Ok (map (map (wo blk)) out, snd kvs).

(** [TransformerBlock.forward].  The call passes [layer_id=] by keyword;
    [Attention_LoRA.forward] has that parameter, [Attention.forward] does
    not, so with the plain attention class the call itself raises. *)
Definition TransformerBlock_forward (blk : TransformerBlock) (x : Tensor V)
    (start_pos : Z) (freqs : list F) (mask : option (list (list bool)))
    (incremental_state : LayerCache V)
  : Result (Tensor V * LayerCache V) :=
  match kind blk with
  | Plain => Err TypeError
  | LoRA =>
      do a <~ Attention_LoRA_forward blk (map (map (attention_norm blk)) x)
                start_pos freqs mask (Some incremental_state);
      let h := zip_with (zip_with (residual blk)) x (fst a) in
      let ffn_output := map (map (fun v => feed_forward blk (ffn_norm blk v))) h in
      let out := zip_with (zip_with (residual blk)) h ffn_output in
      Ok (out, default incremental_state (snd a))
  end.

(** The loop [for i in range(self.n_layers)] of [forward_generate], from
    layer [i] on.  [i not in incremental_state] raises when the state is
    [None]; the layer's dictionary is created on first use and updated in
    place by the layer. *)
Fixpoint run_layers (ls : list TransformerBlock) (i : nat) (h : Tensor V)
    (start_pos : Z) (freqs : list F) (mask : option (list (list bool)))
    (incremental_state : option (IncState V))
  : Result (Tensor V * option (IncState V)) :=
  match ls with
  | [] => Ok (h, incremental_state)
  | blk :: ls' =>
      match incremental_state with
      | None => Err TypeError
      | Some st =>
          let st1 := match st !! i with
                     | Some _ => st
                     | None => <[i := ∅]> st
                     end in
          do r <~ TransformerBlock_forward blk h start_pos freqs mask
                    (default ∅ (st1 !! i));
          run_layers ls' (S i) (fst r) start_pos freqs mask
                     (Some (<[i := snd r]> st1))
      end
  end.

(** [LLAMA.forward_generate]: the logits and the state the call leaves
    behind.  (The state left behind by a call that raises is not
    tracked.) *)
Definition forward_generate (m : LLAMA) (prev_output_tokens : Tokens)
    (start_pos : Z) (audio_out : option (Tensor V))
    (left_prompts : option Tokens) (incremental_state : option (IncState V))
  : Result (list (list L) * option (IncState V)) :=
  do a <~ assemble m prev_output_tokens start_pos audio_out left_prompts;
  do r <~ run_layers (layers m) 0 (a_h a) (a_start_pos a) (a_freqs_cis a)
            (a_mask a) incremental_state;
  Ok (map (map (fun v => output m (norm m v))) (fst r), snd r).

(** [LLAMA] defines no [forward]: calling the module reaches the default
    of [nn.Module], which raises. *)
Definition LLAMA_forward (m : LLAMA) (examples : Tokens)
    (audio_out : option (Tensor V)) (left_prompts : option Tokens)
  : Result (list (list L)) :=
  Err NotImplementedError.

(** [LLaMADecoder.forward] *)
Definition LLaMADecoder_forward (m : LLAMA) (prev_output_tokens : Tokens)
    (audio_out : option (Tensor V)) (left_prompts : option Tokens)
  : Result (list (list L) * option unit) :=
  do out <~ LLAMA_forward m prev_output_tokens audio_out left_prompts;
  Ok (out, None).

(** [LLaMADecoder.forward_generate] *)
Definition LLaMADecoder_forward_generate (m : LLAMA)
    (prev_output_tokens : Tokens) (start_pos : Z)
    (audio_out : option (Tensor V)) (left_prompts : option Tokens)
    (incremental_state : option (IncState V))
  : Result (list (list L) * option (IncState V)) :=
  forward_generate m prev_output_tokens start_pos audio_out left_prompts
                   incremental_state.

(** One call of a generation session. *)
Record Call := {
  c_tokens : Tokens;
  c_start_pos : Z;
  c_audio_out : option (Tensor V);
  c_left_prompts : option Tokens
}.

(** A session: the calls in order, on one shared state. *)
Definition session_step (m : LLAMA) (c : Call) (st : option (IncState V))
  : Result (option (IncState V)) :=
  do r <~ forward_generate m (c_tokens c) (c_start_pos c) (c_audio_out c)
            (c_left_prompts c) st;
  Ok (snd r).

Definition run_session (m : LLAMA) (calls : list Call)
    (st : option (IncState V)) : Result (option (IncState V)) :=
  rfold (session_step m) calls st.

(** The length of the sequence assembled by a priming call. *)
Definition prefix_length (c : Call) : nat :=
  match c_audio_out c with
  | Some encoder_out =>
      match c_left_prompts c with
      | Some lp => shape1 lp + shape1 encoder_out + shape1 (c_tokens c)
      | None => shape1 encoder_out + shape1 (c_tokens c)
      end
  | None => shape1 (c_tokens c)
  end.

(** The position of the rotary lookup of a streaming call as the design
    document words it: the caller's position plus the left-prompt length
    plus the audio length, each 0 when absent. *)
Definition documented_position (start_pos : Z)
    (audio_out : option (Tensor V)) (left_prompts : option Tokens) : Z :=
  start_pos
  + match left_prompts with Some lp => Z.of_nat (shape1 lp) | None => 0 end
  + match audio_out with Some e => Z.of_nat (shape1 e) | None => 0 end.

(** [index_select(0, new_order)] on the batch axis: every index must name
    a row. *)
Definition index_select0 (t : Tensor V) (new_order : list Z)
  : Result (Tensor V) :=
  rmap (fun i => if i <? 0 then Err IndexError
                 else match t !! Z.to_nat i with
                      | Some row => Ok row
                      | None => Err IndexError
                      end) new_order.

(** The body of the inner loop of [reorder_incremental_state_scripting]
    for one entry. *)
Definition reorder_entry (new_order : list Z) (v : option (Tensor V))
  : Result (option (Tensor V)) :=
  match v with
  | None => Ok None
  | Some t => do t' <~ index_select0 t new_order; Ok (Some t')
  end.

(** The inner loop: [for param_name in incremental_state[key]]. *)
Definition reorder_layer (new_order : list Z) (d : LayerCache V)
  : Result (LayerCache V) :=
  update_all (reorder_entry new_order) d d.

(** [LLAMA.reorder_incremental_state_scripting]: the state after the
    call.  (The state left behind by a call that raises is not tracked.) *)
Definition reorder_incremental_state_scripting
    (incremental_state : IncState V) (new_order : list Z)
  : Result (IncState V) :=
  update_all (reorder_layer new_order) incremental_state incremental_state.

(** The identity permutation of a batch of [b] rows. *)
Definition identity_order (b : nat) : list Z := map Z.of_nat (seq 0 b).

(** *** Shapes and invariants of a session *)

Implicit Types (m : LLAMA) (d : LayerCache V) (st : IncState V) (t : Tensor V).

(** The position a streaming call really uses: the audio length and,
    when there is audio, the left-prompt length are added to the caller's
    position; without audio nothing is added, left prompt or not. *)
Definition advanced_position (start_pos : Z) (audio_out : option (Tensor V))
    (left_prompts : option Tokens) : Z :=
  match audio_out with
  | Some encoder_out =>
      match left_prompts with
      | Some lp =>
          start_pos + Z.of_nat (shape1 lp) + Z.of_nat (shape1 encoder_out)
      | None => start_pos + Z.of_nat (shape1 encoder_out)
      end
  | None => start_pos
  end.

(** Whether the mask can be added to scores over [n] keys. *)
Definition mask_fits (mask : option (list (list bool))) (n : nat) : bool :=
  match mask with
  | Some mk => Nat.eqb n (length mk)
  | None => true
  end.

(** The layer's dictionary holds keys and values of shape (b, n, ...). *)
Definition cache_is (b n : nat) d : Prop :=
  exists k v, d !! "prev_key" = Some (Some k) /\ d !! "prev_value" = Some (Some v) /\
              rect b n k /\ rect b n v.

(** The same, or nothing cached yet. *)
Definition layer_cached (b n : nat) d : Prop :=
  (d !! "prev_key" = None /\ n = 0%nat) \/ cache_is b n d.

(** Row by row, the first tensor is an initial segment of the second. *)
Definition row_prefix (k k' : Tensor V) : Prop :=
  Forall2 (fun row row' => row `prefix_of` row') k k'.

(** Whatever keys and values the first dictionary caches, the second
    caches them with more positions appended. *)
Definition cache_extends d d' : Prop :=
  forall k v, d !! "prev_key" = Some (Some k) -> d !! "prev_value" = Some (Some v) ->
    exists k' v', d' !! "prev_key" = Some (Some k') /\
                  d' !! "prev_value" = Some (Some v') /\
                  row_prefix k k' /\ row_prefix v v'.

(** Every layer of the model holds [n] cached positions. *)
Definition all_cached m (b n : nat) st : Prop :=
  forall j, (j < length (layers m))%nat ->
            exists d, st !! j = Some d /\ cache_is b n d.

(** The same, or a fresh session. *)
Definition all_cached_or_fresh m (b n : nat) st : Prop :=
  forall j, (j < length (layers m))%nat ->
            layer_cached b n (default ∅ (st !! j)).

(** Layer by layer, the second state caches what the first caches, with
    more positions appended. *)
Definition state_extends m st st' : Prop :=
  forall j, (j < length (layers m))%nat ->
            exists d', st' !! j = Some d' /\ cache_extends (default ∅ (st !! j)) d'.

(** The inputs of a priming call have one batch extent. *)
Definition priming_shaped (b : nat) (c : Call) : Prop :=
  (exists n, rect b n (c_tokens c)) /\
  (forall e, c_audio_out c = Some e -> exists n, rect b n e) /\
  (forall lp, c_left_prompts c = Some lp -> exists n, rect b n lp).

(** A streaming call: a position other than 0 and a non-empty history for
    each of the [b] rows. *)
Definition streaming_shaped (b : nat) (c : Call) : Prop :=
  c_start_pos c <> 0 /\ exists n, (0 < n)%nat /\ rect b n (c_tokens c).

(** Every id names a row of the embedding table. *)
Definition tokens_valid m (tokens : Tokens) : Prop :=
  Forall (Forall (fun id => 0 <= id < Z.of_nat (length (tok_embeddings m)))) tokens.

(** A priming call the model can serve: position 0, inputs of one batch
    extent, ids inside the vocabulary, and a prefix no longer than the
    rotary table. *)
Definition priming_admissible m (b : nat) (c : Call) : Prop :=
  c_start_pos c = 0 /\ priming_shaped b c /\
  tokens_valid m (c_tokens c) /\
  (forall lp, c_left_prompts c = Some lp -> tokens_valid m lp) /\
  (prefix_length c <= length (freqs_cis m))%nat.

(** A streaming call the model can serve: ids inside the vocabulary and an
    advanced position inside the rotary table. *)
Definition streaming_admissible m (b : nat) (c : Call) : Prop :=
  streaming_shaped b c /\ tokens_valid m (c_tokens c) /\
  0 <= advanced_position (c_start_pos c) (c_audio_out c) (c_left_prompts c)
    < Z.of_nat (length (freqs_cis m)).

(** Every tensor of the state has [b] batch rows. *)
Definition batch_is (b : nat) st : Prop :=
  forall key d name t,
    st !! key = Some d -> d !! name = Some (Some t) -> length t = b.

End Model.

Arguments TransformerBlock V F : clear implicits.
Arguments LLAMA V F L : clear implicits.
Arguments Assembled V F : clear implicits.
Arguments Call V : clear implicits.

(** *** A small instance *)

(** A small model over the integers: ten token ids, [n] LoRA layers whose
    kernels are sums, and a rotary table of [len] rows. *)
Definition toy_block : TransformerBlock Z Z := {|
  kind := LoRA;
  flash_attention := false;
  wq := fun v => v; wk := fun v => v + 1; wv := fun v => v + 2; wo := fun v => v;
  rotate := fun f v => f + v;
  softmax_attend := fun q ks vs _ => q + foldr Z.add 0 vs;
  memory_efficient_attention := None;
  attention_norm := fun v => v;
  ffn_norm := fun v => v;
  feed_forward := fun v => 2 * v;
  residual := Z.add
|}.

Definition toy_model (n len : nat) : LLAMA Z Z Z := {|
  tok_embeddings := map (fun i => 100 + Z.of_nat i) (seq 0 10);
  layers := repeat toy_block n;
  norm := fun v => v;
  output := fun v => v;
  freqs_cis := map Z.of_nat (seq 0 len)
|}.

(** A session on the small model: audio of length 4 and the text [5, 6],
    then two streaming calls. *)
Definition toy_prime : Call Z :=
  {| c_tokens := [[5; 6]]; c_start_pos := 0;
     c_audio_out := Some [[1; 2; 3; 4]]; c_left_prompts := None |}.

Definition toy_streams : list (Call Z) :=
  [ {| c_tokens := [[5; 6; 7]]; c_start_pos := 2;
       c_audio_out := Some [[1; 2; 3; 4]]; c_left_prompts := None |};
    {| c_tokens := [[5; 6; 7; 8]]; c_start_pos := 3;
       c_audio_out := Some [[1; 2; 3; 4]]; c_left_prompts := None |} ].

(** A state with one layer of two batch rows whose value entry is
    [None]. *)
Definition toy_state : IncState Z :=
  {[ 0%nat := <["prev_key" := Some [[10; 11]; [20; 21]]]> {[ "prev_value" := None ]} ]}.

End Decoder.

(** ** The LoRA-adapted projections of [Attention_LoRA] *)

Module LoRA.

Abbreviation Matrix R := (list (list R)).
Abbreviation Tensor3 R := (list (list (list R))).

Section Projection.
(** The scalars, with the zero, the sum and the product of the tensor
    library. *)
Context {R : Type} (rzero : R) (radd rmul : R -> R -> R).

(** A matrix of shape (n, k). *)
Definition is_matrix (n k : nat) (M : Matrix R) : Prop := rect n k M.

(** A tensor of shape (b, s, k) for some b and s. *)
Definition has_width (k : nat) (x : Tensor3 R) : Prop :=
  Forall (Forall (fun row => length row = k)) x.

Definition same_shape (x y : Tensor3 R) : Prop :=
  Forall2 (Forall2 (fun u v : list R => length u = length v)) x y.

Definition dot (u v : list R) : R := foldr radd rzero (zip_with rmul u v).

Definition column (j : nat) (B : Matrix R) : list R :=
  map (fun row => nth j row rzero) B.

(** [X @ B] for a 2-D [X]: the rows of [X] must be as long as [B] has
    rows. *)
Definition matmul2 (X B : Matrix R) : Result (Matrix R) :=
  if forallb (fun row => Nat.eqb (length row) (length B)) X
  then Ok (map (fun row => map (fun j => dot row (column j B))
                               (seq 0 (shape1 B))) X)
  else Err RuntimeError.

(** [x @ B] for a 3-D [x], one product per batch row. *)
Definition matmul (x : Tensor3 R) (B : Matrix R) : Result (Tensor3 R) :=
  rmap (fun X => matmul2 X B) x.

(** [Linear.forward]: [x @ W.T] for a weight [W] of shape
    (out_features, in_features). *)
Definition linear (W : Matrix R) (x : Tensor3 R) : Result (Tensor3 R) :=
  rmap (fun X =>
          if forallb (fun row => Nat.eqb (length row) (shape1 W)) X
          then Ok (map (fun row => map (dot row) W) X)
          else Err RuntimeError) x.

(** [t * scaling] *)
Definition scale (t : Tensor3 R) (c : R) : Tensor3 R :=
  map (map (map (fun a => rmul a c))) t.

(** Pairing two lists of the same length. *)
Fixpoint zip_exact {A B C : Type} (f : A -> B -> Result C)
    (u : list A) (v : list B) : Result (list C) :=
  match u, v with
  | [], [] => Ok []
  | a :: u', b :: v' =>
      do c <~ f a b; do r <~ zip_exact f u' v'; Ok (c :: r)
  | _, _ => Err RuntimeError
  end.

(** [s + t] for tensors of one shape.  (Broadcasting an extent of 1 is not
    modelled; the two operands of the adapter sum have the extents of the
    batch, of the chunk and of the projection.) *)
Definition add (s t : Tensor3 R) : Result (Tensor3 R) :=
  zip_exact (zip_exact (zip_exact (fun a b => Ok (radd a b)))) s t.

(** The weights of [Attention_LoRA] that the projections read.
    [lora_dropout] stands for one draw of the dropout mask (the identity
    when the module is in evaluation mode or the rate is 0). *)
Record Attention_LoRA := {
  wq : Matrix R; wk : Matrix R; wv : Matrix R; wo : Matrix R;
  wq_lora_A : Matrix R; wq_lora_B : Matrix R;
  wk_lora_A : Matrix R; wk_lora_B : Matrix R;
  wv_lora_A : Matrix R; wv_lora_B : Matrix R;
  wo_lora_A : Matrix R; wo_lora_B : Matrix R;
  scaling : R;
  lora_dropout : Tensor3 R -> Tensor3 R
}.

(** [nn.init.zeros_] *)
Definition zeros_ (M : Matrix R) : Matrix R := map (map (fun _ => rzero)) M.

(** [Attention_LoRA.reset_parameters]; [kaiming_uniform_] stands for the
    draw of the random initialiser. *)
Definition reset_parameters (kaiming_uniform_ : Matrix R -> Matrix R)
    (att : Attention_LoRA) : Attention_LoRA :=
  {| wq := wq att; wk := wk att; wv := wv att; wo := wo att;
     wq_lora_A := kaiming_uniform_ (wq_lora_A att);
     wk_lora_A := kaiming_uniform_ (wk_lora_A att);
     wv_lora_A := kaiming_uniform_ (wv_lora_A att);
     wo_lora_A := kaiming_uniform_ (wo_lora_A att);
     wq_lora_B := zeros_ (wq_lora_B att);
     wk_lora_B := zeros_ (wk_lora_B att);
     wv_lora_B := zeros_ (wv_lora_B att);
     wo_lora_B := zeros_ (wo_lora_B att);
     scaling := scaling att;
     lora_dropout := lora_dropout att |}.

(** [W(x) + (self.lora_dropout(x) @ A @ B) * self.scaling] *)
Definition adapted (att : Attention_LoRA) (W A B : Matrix R) (x : Tensor3 R)
  : Result (Tensor3 R) :=
  do base <~ linear W x;
  do xa <~ matmul (lora_dropout att x) A;
  do xab <~ matmul xa B;
  add base (scale xab (scaling att)).

(** The adapter as the design document words it:
    forward(x, base_output) = base_output + dropout(x) . A . B . gain. *)
Definition documented_adapter (att : Attention_LoRA) (A B : Matrix R)
    (x base_output : Tensor3 R) : Result (Tensor3 R) :=
  do xa <~ matmul (lora_dropout att x) A;
  do xab <~ matmul xa B;
  add base_output (scale xab (scaling att)).

(** The four projections of [Attention_LoRA.forward]: [xq], [xk], [xv] of
    the layer input and the return value of the attention output. *)
Definition project_q (att : Attention_LoRA) (x : Tensor3 R) :=
  adapted att (wq att) (wq_lora_A att) (wq_lora_B att) x.
Definition project_k (att : Attention_LoRA) (x : Tensor3 R) :=
  adapted att (wk att) (wk_lora_A att) (wk_lora_B att) x.
Definition project_v (att : Attention_LoRA) (x : Tensor3 R) :=
  adapted att (wv att) (wv_lora_A att) (wv_lora_B att) x.
Definition project_o (att : Attention_LoRA) (output : Tensor3 R) :=
  adapted att (wo att) (wo_lora_A att) (wo_lora_B att) output.

(** The shapes [Attention_LoRA.__init__] gives the weights when the head
    count divides the width [d]: every base weight is (d, d), every [A] is
    (d, r) and every [B] is (r, d). *)
Definition well_shaped (d r : nat) (att : Attention_LoRA) : Prop :=
  is_matrix d d (wq att) /\ is_matrix d d (wk att) /\
  is_matrix d d (wv att) /\ is_matrix d d (wo att) /\
  is_matrix d r (wq_lora_A att) /\ is_matrix r d (wq_lora_B att) /\
  is_matrix d r (wk_lora_A att) /\ is_matrix r d (wk_lora_B att) /\
  is_matrix d r (wv_lora_A att) /\ is_matrix r d (wv_lora_B att) /\
  is_matrix d r (wo_lora_A att) /\ is_matrix r d (wo_lora_B att).

End Projection.

Arguments Attention_LoRA R : clear implicits.

(** An instance over the integers: width 2, rank 1, non-zero factors
    before the reset. *)
Definition att_Z : Attention_LoRA Z := {|
  wq := [[1; 2]; [3; 4]]; wk := [[0; 1]; [1; 0]];
  wv := [[2; 0]; [0; 2]]; wo := [[1; 1]; [1; -1]];
  wq_lora_A := [[1]; [1]]; wq_lora_B := [[5; 6]];
  wk_lora_A := [[2]; [3]]; wk_lora_B := [[7; 8]];
  wv_lora_A := [[1]; [0]]; wv_lora_B := [[9; 1]];
  wo_lora_A := [[4]; [5]]; wo_lora_B := [[2; 3]];
  scaling := 4;
  lora_dropout := fun t => t
|}.

End LoRA.

(** ** The rotary embedding, at the level of shapes

    [apply_rotary_emb] and [reshape_for_broadcast] decide from the shapes
    of their arguments alone whether they return and what shapes they
    return.  A shape is the list of its extents. *)

Module RotaryShape.

(** [t.numel()] *)
Definition numel (shape : list nat) : nat := foldr Nat.mul 1%nat shape.

(** [x.shape[:-1]] *)
Definition all_but_last (shape : list nat) : list nat :=
  take (length shape - 1) shape.

(** [x.shape[-1]]; the caller has checked that there is one. *)
Definition last_extent (shape : list nat) : nat := List.last shape 0%nat.

(** [torch.view_as_complex] of [x.float()] reshaped to its shape without
    the last extent, followed by [-1, 2]: the last axis is split into pairs.  The extent written [-1] is inferred;
    that needs the other extents to have a positive product that divides
    the number of elements. *)
Definition complex_shape (shape : list nat) : Result (list nat) :=
  let n := numel shape in
  let newsize := (numel (all_but_last shape) * 2)%nat in
  if Nat.eqb n newsize || (Nat.ltb 0 newsize && Nat.eqb (n mod newsize) 0)
  then if Nat.eqb newsize 0 then Err RuntimeError
       else Ok (all_but_last shape ++ [(n / newsize)%nat])
  else Err RuntimeError.

(** [reshape_for_broadcast(freqs_cis, x)] *)
Definition reshape_for_broadcast (freqs_cis x : list nat) : Result (list nat) :=
  let ndim := length x in
  if negb (Nat.ltb 1 ndim) then Err AssertionError
  else if negb (bool_decide (freqs_cis = [nth 1 x 0%nat; last_extent x]))
  then Err AssertionError
  else
    let shape :=
      imap (fun i d => if Nat.eqb i 1 || Nat.eqb i (ndim - 1) then d else 1%nat) x in
    (* the view of freqs_cis with that shape *)
    if Nat.eqb (numel freqs_cis) (numel shape) then Ok shape
    else Err RuntimeError.

(** Broadcasting of two shapes, last axes first. *)
Fixpoint broadcast_rev (a b : list nat) : Result (list nat) :=
  match a, b with
  | [], _ => Ok b
  | _, [] => Ok a
  | x :: a', y :: b' =>
      do d <~ (if Nat.eqb x y then Ok x
               else if Nat.eqb x 1 then Ok y
               else if Nat.eqb y 1 then Ok x
               else Err RuntimeError);
      do r <~ broadcast_rev a' b';
      Ok (d :: r)
  end.

(** The shape of [s * t]. *)
Definition broadcast (a b : list nat) : Result (list nat) :=
  do r <~ broadcast_rev (rev a) (rev b); Ok (rev r).

(** [torch.view_as_real(t).flatten(3)]: a trailing axis of extent 2 is
    added and the axes from the fourth on are merged; there must be a
    fourth. *)
Definition real_flatten3 (shape : list nat) : Result (list nat) :=
  let real := shape ++ [2%nat] in
  if Nat.ltb 3 (length real) then Ok (take 3 real ++ [numel (drop 3 real)])
  else Err IndexError.

(** [apply_rotary_emb(xq, xk, freqs_cis)]: the shapes of the two
    results. *)
Definition apply_rotary_emb (xq xk freqs_cis : list nat)
  : Result (list nat * list nat) :=
  do xq_ <~ complex_shape xq;
  do xk_ <~ complex_shape xk;
  do f <~ reshape_for_broadcast freqs_cis xq_;
  do q <~ broadcast xq_ f;
  do xq_out <~ real_flatten3 q;
  do k <~ broadcast xk_ f;
  do xk_out <~ real_flatten3 k;
  Ok (xq_out, xk_out).

End RotaryShape.

(** ** Orders of rows, composed *)

(** The order that selects, from the rows picked by [first], the rows
    named by [second]. *)
Definition compose_order (first second : list Z) : list Z :=
  map (fun i => nth (Z.to_nat i) first 0) second.

(** ** Caches as [view] reads them *)

Section Views.
Context {V : Type}.

(** Two entries of a layer's dictionary that
    [view(bsz, -1, n_local_heads, head_dim)] cannot tell apart: the same
    positions in the same row-major order, whatever the batch extent. *)
Definition same_positions (e e' : option (option (list (list V)))) : Prop :=
  match e, e' with
  | Some (Some t), Some (Some t') => concat t = concat t'
  | Some None, Some None => True
  | None, None => True
  | _, _ => False
  end.

(** Two dictionaries that differ at most in how the cached positions are
    split into rows. *)
Definition same_cache (d d' : gmap string (option (list (list V)))) : Prop :=
  same_positions (d !! "prev_key") (d' !! "prev_key") /\
  same_positions (d !! "prev_value") (d' !! "prev_value") /\
  forall name : string, name <> "prev_key" -> name <> "prev_value" ->
    d !! name = d' !! name.

(** A tensor as [view(bsz, -1, ...)] returns it. *)
Definition regroup (bsz : nat) (t : list (list V)) : list (list V) :=
  chunks bsz (length (concat t) / bsz)%nat (concat t).

Definition regroup_layer (bsz : nat) (d : gmap string (option (list (list V))))
  : gmap string (option (list (list V))) :=
  alter (fmap (regroup bsz)) "prev_value" (alter (fmap (regroup bsz)) "prev_key" d).

(** The state with the caches of the first [n_layers] layers regrouped. *)
Definition regroup_state (n_layers bsz : nat)
    (st : gmap nat (gmap string (option (list (list V)))))
  : gmap nat (gmap string (option (list (list V)))) :=
  map_imap (fun j d => Some (if Nat.ltb j n_layers then regroup_layer bsz d else d)) st.

End Views.

(** ** A small model built with the plain attention class *)

Definition plain_block : Decoder.TransformerBlock Z Z := {|
  Decoder.kind := Decoder.Plain;
  Decoder.flash_attention := false;
  Decoder.wq := fun v => v; Decoder.wk := fun v => v + 1;
  Decoder.wv := fun v => v + 2; Decoder.wo := fun v => v;
  Decoder.rotate := fun f v => f + v;
  Decoder.softmax_attend := fun q ks vs _ => q + foldr Z.add 0 vs;
  Decoder.memory_efficient_attention := None;
  Decoder.attention_norm := fun v => v;
  Decoder.ffn_norm := fun v => v;
  Decoder.feed_forward := fun v => 2 * v;
  Decoder.residual := Z.add
|}.

Definition plain_model : Decoder.LLAMA Z Z Z := {|
  Decoder.tok_embeddings := map (fun i => 100 + Z.of_nat i) (seq 0 10);
  Decoder.layers := [plain_block];
  Decoder.norm := fun v => v;
  Decoder.output := fun v => v;
  Decoder.freqs_cis := map Z.of_nat (seq 0 8)
|}.

(** ** An adapter whose gain is 0 *)

(** Width 2, rank 1, non-zero factors, [lora_alpha = 0]. *)
Definition att_Z_no_gain : LoRA.Attention_LoRA Z := {|
  LoRA.wq := [[1; 2]; [3; 4]]; LoRA.wk := [[0; 1]; [1; 0]];
  LoRA.wv := [[2; 0]; [0; 2]]; LoRA.wo := [[1; 1]; [1; -1]];
  LoRA.wq_lora_A := [[1]; [1]]; LoRA.wq_lora_B := [[5; 6]];
  LoRA.wk_lora_A := [[2]; [3]]; LoRA.wk_lora_B := [[7; 8]];
  LoRA.wv_lora_A := [[1]; [0]]; LoRA.wv_lora_B := [[9; 1]];
  LoRA.wo_lora_A := [[4]; [5]]; LoRA.wo_lora_B := [[2; 3]];
  LoRA.scaling := 0;
  LoRA.lora_dropout := fun t => t
|}.

(** ** The decoder's own configuration *)

(** The configuration [LLaMADecoder.__init__] passes to [LLAMA]: its five
    arguments, and the defaults of the dataclass elsewhere. *)
Definition LLaMADecoder_args (use_lora : bool) (lora_r lora_alpha : Z)
    (enable_fsdp use_xformers : bool) : Config.ModelArgs := {|
  Config.dim := 4096; Config.n_layers := 32; Config.n_heads := 32;
  Config.vocab_size := 32000; Config.multiple_of := 256;
  Config.norm_eps := 1 # 1000000; Config.max_seq_len := 1024;
  Config.gradient_checkpointing := false;
  Config.use_lora := use_lora; Config.lora_r := lora_r;
  Config.lora_alpha := lora_alpha; Config.lora_dropout := 1 # 10;
  Config.flash_attention := false; Config.use_xformers := use_xformers;
  Config.enable_fsdp := enable_fsdp
|}.

(** [LLaMADecoder.__init__]: the model it builds.  (Wrapping the blocks
    for activation checkpointing changes no shape and belongs to the
    deployment layer; it is not modelled.) *)
Definition LLaMADecoder_init (use_lora : bool) (lora_r lora_alpha : Z)
    (enable_fsdp use_xformers : bool) : Result Config.LLAMAP :=
  Config.LLAMA_init
    (LLaMADecoder_args use_lora lora_r lora_alpha enable_fsdp use_xformers).

(* ===================================================================== *)
(** * Part II: properties                                                 *)
(* ===================================================================== *)

(** ** Results and loops *)

Lemma rbind_Ok {A B : Type} (r : Result A) (k : A -> Result B) (b : B) :
  rbind r k = Ok b -> exists a, r = Ok a /\ k a = Ok b.
Proof. destruct r as [a|e]; simpl; [eauto | discriminate]. Qed.

Lemma rmap_total {A B : Type} (f : A -> Result B) (g : A -> B) (xs : list A) :
  (forall x, In x xs -> f x = Ok (g x)) -> rmap f xs = Ok (map g xs).
Proof.
  induction xs as [|x xs IH]; intros Hf; simpl; [reflexivity|].
  rewrite Hf by (left; reflexivity). simpl.
  rewrite IH by (intros y Hy; apply Hf; right; exact Hy).
  reflexivity.
Qed.

Lemma rmap_length {A B : Type} (f : A -> Result B) (xs : list A) (ys : list B) :
  rmap f xs = Ok ys -> length ys = length xs.
Proof.
  revert ys. induction xs as [|x xs IH]; intros ys; simpl.
  - intros [= <-]. reflexivity.
  - intros H. apply rbind_Ok in H as (y & _ & H).
    apply rbind_Ok in H as (ys' & Hys & [= <-]).
    simpl. f_equal. apply IH. exact Hys.
Qed.

Lemma rmap_Forall2 {A B : Type} (f : A -> Result B) (xs : list A) (ys : list B) :
  rmap f xs = Ok ys -> Forall2 (fun x y => f x = Ok y) xs ys.
Proof.
  revert ys. induction xs as [|x xs IH]; intros ys; simpl.
  - intros [= <-]. constructor.
  - intros H. apply rbind_Ok in H as (y & Hy & H).
    apply rbind_Ok in H as (ys' & Hys & [= <-]).
    constructor; [exact Hy | apply IH; exact Hys].
Qed.

(** ** Construction *)

Module ConfigFacts.
Import Config.

Lemma alloc_nonneg (shape : list Z) :
  Forall (fun d => 0 <= d) shape -> alloc shape = Ok shape.
Proof.
  intros H. unfold alloc.
  replace (forallb (fun d => 0 <=? d) shape) with true; [reflexivity|].
  symmetry. apply forallb_forall. intros d Hd.
  rewrite Forall_forall in H. apply Z.leb_le, H, list_elem_of_In, Hd.
Qed.

Lemma Linear_nonneg (i o : Z) :
  0 <= i -> 0 <= o -> Linear i o = Ok {| in_features := i; out_features := o |}.
Proof.
  intros Hi Ho. unfold Linear. rewrite alloc_nonneg; [reflexivity|].
  repeat constructor; assumption.
Qed.

Lemma floordiv_nonzero (a b : Z) : b <> 0 -> floordiv a b = Ok (a / b).
Proof.
  intros Hb. unfold floordiv. destruct (Z.eqb_spec b 0); [contradiction | reflexivity].
Qed.

Lemma ceil_div_pos (a m : Z) : 0 < m -> - ((- a) / m) = (a + m - 1) / m.
Proof. intros Hm. Z.div_mod_to_equations. nia. Qed.

Lemma Qceiling_inject_div (a m : Z) :
  0 < m -> Qceiling (inject_Z a / inject_Z m) = (a + m - 1) / m.
Proof.
  intros Hm. rewrite <- ceil_div_pos by lia.
  destruct m as [|p|p]; try lia.
  unfold Qceiling, Qfloor, Qdiv, Qmult, Qinv, Qopp, inject_Z. simpl.
  rewrite Z.mul_1_r. reflexivity.
Qed.

Lemma Qfloor_two_thirds (h : Z) : Qfloor ((2 # 3) * inject_Z h) = (2 * h) / 3.
Proof. unfold Qfloor, Qmult, inject_Z. simpl. reflexivity. Qed.

Lemma Qceiling_two_thirds_div (h m : Z) :
  0 < m ->
  Qceiling (((2 # 3) * inject_Z h) / inject_Z m) = (2 * h + 3 * m - 1) / (3 * m).
Proof.
  intros Hm. rewrite <- ceil_div_pos by lia.
  destruct m as [|p|p]; try lia.
  unfold Qceiling, Qfloor, Qdiv, Qmult, Qinv, Qopp, inject_Z. simpl.
  rewrite Z.mul_1_r. reflexivity.
Qed.

(** With a rounding factor that is a multiple of 8 the truncation before
    the rounding up cannot be seen. *)
Lemma truncation_invisible (d m : Z) :
  0 <= d -> 0 < m -> (8 | m) ->
  ((2 * (4 * d)) / 3 + m - 1) / m = (2 * (4 * d) + 3 * m - 1) / (3 * m).
Proof. intros Hd Hm [k Hk]. Z.div_mod_to_equations. nia. Qed.

Lemma ffn_hidden_dim_value (d m : Z) :
  0 <= d -> 0 < m ->
  ffn_hidden_dim (4 * d) m = Ok (m * (((2 * (4 * d)) / 3 + m - 1) / m)).
Proof.
  intros Hd Hm. unfold ffn_hidden_dim, int_truediv. simpl.
  rewrite Z.quot_div_nonneg by lia.
  rewrite floordiv_nonzero by lia. reflexivity.
Qed.

Lemma ffn_hidden_dim_nonneg (d m : Z) :
  0 <= d -> 0 < m -> 0 <= m * (((2 * (4 * d)) / 3 + m - 1) / m).
Proof.
  intros Hd Hm. apply Z.mul_nonneg_nonneg; [lia|].
  apply Z.div_pos; [|lia].
  assert (0 <= (2 * (4 * d)) / 3) by (apply Z.div_pos; lia). lia.
Qed.

Lemma FeedForward_init_value (d m : Z) :
  0 <= d -> 0 < m ->
  let width := m * (((2 * (4 * d)) / 3 + m - 1) / m) in
  FeedForward_init d (4 * d) m
  = Ok {| w1 := {| in_features := d; out_features := width |};
          w2 := {| in_features := width; out_features := d |};
          w3 := {| in_features := d; out_features := width |} |}.
Proof.
  intros Hd Hm width.
  pose proof (ffn_hidden_dim_nonneg d m Hd Hm) as Hw.
  unfold FeedForward_init. rewrite ffn_hidden_dim_value by assumption.
  cbn [rbind]. rewrite !Linear_nonneg by assumption. reflexivity.
Qed.




Lemma new_lora_nonneg (args : ModelArgs) :
  0 <= dim args -> 0 <= lora_r args ->
  new_lora args =
  Ok {| lora_A_shape := [dim args; lora_r args];
        lora_B_shape := [lora_r args; dim args] |}.
Proof.
  intros Hd Hr. unfold new_lora.
  rewrite !alloc_nonneg by (repeat constructor; assumption). reflexivity.
Qed.

Lemma Attention_init_floor (args : ModelArgs) :
  0 < n_heads args -> 0 <= dim args ->
  exists att, Attention_init args = Ok att /\ floor_heads args att.
Proof.
  intros Hn Hd.
  assert (0 <= dim args / n_heads args) by (apply Z.div_pos; lia).
  assert (0 <= n_heads args * (dim args / n_heads args)) by nia.
  unfold Attention_init. rewrite floordiv_nonzero by lia. cbn [rbind].
  rewrite !Linear_nonneg by assumption. cbn [rbind].
  eexists. split; [reflexivity|]. repeat split.
Qed.

Lemma Attention_LoRA_init_floor (args : ModelArgs) :
  0 < n_heads args -> 0 <= dim args -> 0 < lora_r args ->
  (lora_dropout args <= 1)%Q ->
  exists att, Attention_LoRA_init args = Ok att /\ floor_heads args att.
Proof.
  intros Hn Hd Hr Hp.
  assert (0 <= dim args / n_heads args) by (apply Z.div_pos; lia).
  assert (0 <= n_heads args * (dim args / n_heads args)) by nia.
  unfold Attention_LoRA_init. rewrite floordiv_nonzero by lia. cbn [rbind].
  rewrite !Linear_nonneg by assumption. cbn [rbind].
  rewrite !new_lora_nonneg by lia. cbn [rbind].
  destruct (Z.eqb_spec (lora_r args) 0) as [E|_]; [lia|]. cbn [rbind].
  destruct (Qlt_le_dec 0 (lora_dropout args)) as [_|_].
  - destruct (Qlt_le_dec 1 (lora_dropout args)) as [Hlt|_].
    + exfalso. apply (Qlt_not_le _ _ Hlt). exact Hp.
    + cbn [rbind]. eexists. split; [reflexivity|]. repeat split.
  - cbn [rbind]. eexists. split; [reflexivity|]. repeat split.
Qed.

Lemma TransformerBlock_init_floor (layer_id : Z) (args : ModelArgs) :
  0 < n_heads args -> 0 <= dim args -> 0 < multiple_of args ->
  (use_lora args = true -> 0 < lora_r args /\ (lora_dropout args <= 1)%Q) ->
  exists blk, TransformerBlock_init layer_id args = Ok blk /\
    blk_head_dim blk = dim args / n_heads args /\
    floor_heads args (attention blk).
Proof.
  intros Hn Hd Hm Hl.
  assert (Hatt : exists att,
             (if use_lora args then Attention_LoRA_init args
              else Attention_init args) = Ok att /\ floor_heads args att).
  { destruct (use_lora args).
    - destruct Hl as [Hr Hp]; [reflexivity|].
      apply Attention_LoRA_init_floor; assumption.
    - apply Attention_init_floor; assumption. }
  destruct Hatt as (att & Hatt & Hfl).
  pose proof (FeedForward_init_value (dim args) (multiple_of args) Hd Hm) as Hff.
  cbv zeta in Hff.
  unfold TransformerBlock_init. rewrite floordiv_nonzero by lia. cbn [rbind].
  rewrite Hatt. cbn [rbind]. rewrite Hff. cbn [rbind].
  unfold RMSNorm_init. rewrite !alloc_nonneg by (repeat constructor; assumption).
  cbn [rbind]. eexists. split; [reflexivity|]. split; [reflexivity|]. exact Hfl.
Qed.

(** C5, as amended.  The constructors do not check that the head count
    divides the width: they take the floor, [head_dim = dim // n_heads].
    For every configuration with a positive head count (and extents,
    rounding factor and adapter rank that the allocations accept),
    [LLAMA.__init__] succeeds, builds one block per layer, and every
    block has [head_dim = floor(dim / n_heads)]; the projections are
    [n_heads * head_dim] wide, which is [dim] exactly when the head count
    divides the width - the case in which [head_dim = dim / heads] is
    exact. *)
Theorem construction_takes_floor (args : ModelArgs) :
  0 < n_heads args -> 0 <= dim args -> 0 <= vocab_size args ->
  0 < multiple_of args -> 0 <= max_seq_len args ->
  (use_lora args = true -> 0 < lora_r args /\ (lora_dropout args <= 1)%Q) ->
  exists m, LLAMA_init args = Ok m /\
    length (layers m) = Z.to_nat (n_layers args) /\
    Forall (fun blk => blk_head_dim blk = dim args / n_heads args /\
                       floor_heads args (attention blk)) (layers m) /\
    (n_heads args * (dim args / n_heads args) = dim args
     <-> dim args mod n_heads args = 0).
Proof.
  intros Hn Hd Hv Hm Hs Hl.
  assert (0 <= dim args / n_heads args) by (apply Z.div_pos; lia).
  unfold LLAMA_init.
  rewrite alloc_nonneg by (repeat constructor; assumption). cbn [rbind].
  destruct (rmap (fun layer_id => TransformerBlock_init layer_id args)
                 (range (n_layers args))) as [ls|e] eqn:Hls.
  2:{ exfalso. revert Hls. generalize (range (n_layers args)).
      intros xs. revert e. induction xs as [|x xs IH]; intros e; simpl.
      - discriminate.
      - destruct (TransformerBlock_init_floor x args Hn Hd Hm Hl) as (b & -> & _).
        cbn [rbind].
        destruct (rmap (fun layer_id => TransformerBlock_init layer_id args) xs)
          as [ys|e'] eqn:E; cbn [rbind]; [discriminate|].
        intros _. apply (IH e'). reflexivity. }
  cbn [rbind]. unfold RMSNorm_init.
  rewrite alloc_nonneg by (repeat constructor; assumption). cbn [rbind].
  rewrite Linear_nonneg by assumption. cbn [rbind].
  rewrite floordiv_nonzero by lia. cbn [rbind].
  unfold precompute_freqs_cis.
  rewrite !alloc_nonneg by (repeat constructor; lia). cbn [rbind].
  eexists. split; [reflexivity|]. cbn [layers].
  split; [|split].
  - apply rmap_length in Hls. rewrite Hls. unfold range.
    rewrite length_map, length_seq. reflexivity.
  - apply rmap_Forall2 in Hls. revert Hls. generalize (range (n_layers args)).
    intros xs Hxs. induction Hxs as [|x b xs bs Hb _ IH]; constructor; [|exact IH].
    destruct (TransformerBlock_init_floor x args Hn Hd Hm Hl) as (b' & Hb' & Hfl).
    rewrite Hb in Hb'. injection Hb' as <-. exact Hfl.
  - split; intros E.
    + rewrite <- E at 1. rewrite Z.mul_comm. apply Z.mod_mul. lia.
    + pose proof (Z.div_mod (dim args) (n_heads args)). lia.
Qed.

Lemma construction_takes_floor_witness :
  exists m, LLAMA_init args_10_4 = Ok m /\
    length (layers m) = Z.to_nat (n_layers args_10_4) /\
    Forall (fun blk => blk_head_dim blk = dim args_10_4 / n_heads args_10_4 /\
                       floor_heads args_10_4 (attention blk)) (layers m) /\
    (n_heads args_10_4 * (dim args_10_4 / n_heads args_10_4) = dim args_10_4
     <-> dim args_10_4 mod n_heads args_10_4 = 0).
Proof.
  apply (construction_takes_floor args_10_4); simpl; try lia.
  intros _. split; [lia|]. unfold Qle. simpl. lia.
Defined.

(** Width 10 is not divisible by 4 heads, and construction succeeds all the
    same, with heads of width 2. *)
Lemma construction_counterexample :
  dim args_10_4 mod n_heads args_10_4 <> 0 /\
  exists m, LLAMA_init args_10_4 = Ok m /\
    Forall (fun blk => head_dim (attention blk) = 2) (layers m).
Proof.
  split; [discriminate|].
  eexists. split; [vm_compute; reflexivity|].
  repeat constructor.
Qed.

End ConfigFacts.

(** ** The LoRA projections *)

Module LoRAFacts.
Import LoRA.

Section ZeroB.
Context {R : Type} (rzero : R) (radd rmul : R -> R -> R).
(** The three laws of exact arithmetic the argument uses.  (They hold for
    floating-point numbers that are finite; a product of zero with an
    infinity or a NaN is a NaN.) *)
Hypothesis radd_0_r : forall a, radd a rzero = a.
Hypothesis rmul_0_r : forall a, rmul a rzero = rzero.
Hypothesis rmul_0_l : forall a, rmul rzero a = rzero.

Lemma dot_zero_r (u z : list R) :
  Forall (fun a => a = rzero) z -> dot rzero radd rmul u z = rzero.
Proof.
  intros Hz. revert u. induction Hz as [|a z -> _ IH]; intros [|b u]; try reflexivity.
  unfold dot in *. simpl. rewrite rmul_0_r, IH. apply radd_0_r.
Qed.

Lemma column_zeros_ (j : nat) (B : Matrix R) :
  (j < shape1 B)%nat ->
  Forall (fun row => length row = shape1 B) B ->
  Forall (fun a => a = rzero) (column rzero j (zeros_ rzero B)).
Proof.
  intros Hj HB. unfold column, zeros_. rewrite map_map.
  apply Forall_forall. intros a Ha. apply list_elem_of_In in Ha.
  apply in_map_iff in Ha as (row & <- & Hrow).
  rewrite Forall_forall in HB. apply list_elem_of_In in Hrow.
  specialize (HB row Hrow).
  revert j Hj. rewrite <- HB. clear. induction row as [|b row IH]; intros j Hj; simpl in *.
  - lia.
  - destruct j; [reflexivity|]. apply IH. lia.
Qed.

Lemma length_zeros_ (B : Matrix R) : length (zeros_ rzero B) = length B.
Proof. unfold zeros_. apply length_map. Qed.

Lemma shape1_zeros_ (B : Matrix R) : shape1 (zeros_ rzero B) = shape1 B.
Proof. destruct B; simpl; [reflexivity | apply length_map]. Qed.

Lemma is_matrix_shape1 (n k : nat) (M : Matrix R) :
  (0 < n)%nat -> is_matrix n k M -> shape1 M = k.
Proof.
  intros Hn [Hlen Hrows]. destruct M as [|row M]; simpl in *; [lia|].
  inversion Hrows; assumption.
Qed.

Lemma forallb_width (k : nat) (X : Matrix R) :
  Forall (fun row => length row = k) X ->
  forallb (fun row => Nat.eqb (length row) k) X = true.
Proof.
  intros H. apply forallb_forall. intros row Hrow.
  rewrite Forall_forall in H. apply Nat.eqb_eq, H, list_elem_of_In, Hrow.
Qed.

Lemma linear_value (W : Matrix R) (x : Tensor3 R) :
  has_width (shape1 W) x ->
  linear rzero radd rmul W x
  = Ok (map (map (fun row => map (dot rzero radd rmul row) W)) x).
Proof.
  intros Hx. unfold linear. apply rmap_total. intros X HX.
  rewrite forallb_width; [reflexivity|].
  unfold has_width in Hx. rewrite Forall_forall in Hx.
  apply Hx, list_elem_of_In, HX.
Qed.

Lemma matmul_value (B : Matrix R) (x : Tensor3 R) :
  has_width (length B) x ->
  matmul rzero radd rmul x B
  = Ok (map (map (fun row => map (fun j => dot rzero radd rmul row (column rzero j B))
                                 (seq 0 (shape1 B)))) x).
Proof.
  intros Hx. unfold matmul, matmul2. apply rmap_total. intros X HX.
  rewrite forallb_width; [reflexivity|].
  unfold has_width in Hx. rewrite Forall_forall in Hx.
  apply Hx, list_elem_of_In, HX.
Qed.

Lemma has_width_map (k : nat) (g : list R -> list R) (x : Tensor3 R) :
  (forall row, length (g row) = k) -> has_width k (map (map g) x).
Proof.
  intros Hg. unfold has_width. apply Forall_forall. intros X HX.
  apply list_elem_of_In, in_map_iff in HX as (X0 & <- & _).
  apply Forall_forall. intros row Hrow.
  apply list_elem_of_In, in_map_iff in Hrow as (r0 & <- & _). apply Hg.
Qed.

Lemma has_width_same_shape (k : nat) (x y : Tensor3 R) :
  same_shape y x -> has_width k x -> has_width k y.
Proof.
  unfold same_shape, has_width. intros Hs. induction Hs as [|Y X y x HYX _ IH].
  - constructor.
  - intros Hx. inversion Hx as [|? ? HX Hx']; subst. constructor; [|apply IH; exact Hx'].
    clear -HYX HX. induction HYX as [|u v Y X Huv _ IH]; [constructor|].
    inversion HX; subst. constructor; [congruence | apply IH; assumption].
Qed.

(** Adding a tensor of zeros of the same shape changes nothing. *)
Lemma add_zeros (s t : Tensor3 R) :
  Forall2 (Forall2 (fun u v => length u = length v /\ Forall (fun a => a = rzero) v)) s t ->
  add radd s t = Ok s.
Proof.
  unfold add. intros H. induction H as [|S T s t HST _ IH]; [reflexivity|].
  cbn [zip_exact].
  assert (E : zip_exact (zip_exact (fun a b => Ok (radd a b))) S T = Ok S).
  { clear -HST radd_0_r. induction HST as [|u v S T [Hlen Hz] _ IH]; [reflexivity|].
    cbn [zip_exact].
    assert (E : zip_exact (fun a b => Ok (radd a b)) u v = Ok u).
    { clear -Hlen Hz radd_0_r. revert u Hlen.
      induction Hz as [|b v -> _ IH]; intros [|a u] Hlen; try discriminate; [reflexivity|].
      cbn [zip_exact rbind]. rewrite IH by (simpl in Hlen; lia).
      cbn [rbind]. rewrite radd_0_r. reflexivity. }
    rewrite E. cbn [rbind]. rewrite IH. reflexivity. }
  rewrite E. cbn [rbind]. rewrite IH. reflexivity.
Qed.

(** One adapted projection whose [B] factor has been zeroed. *)
Lemma adapted_zero_B (att : Attention_LoRA R) (d r : nat) (W A B : Matrix R)
    (x : Tensor3 R) :
  (0 < d)%nat -> (0 < r)%nat ->
  is_matrix d d W -> is_matrix d r A -> is_matrix r d B ->
  has_width d x -> same_shape (lora_dropout att x) x ->
  adapted rzero radd rmul att W A (zeros_ rzero B) x
  = linear rzero radd rmul W x /\
  is_Ok (linear rzero radd rmul W x).
Proof.
  intros Hd Hr HW HA HB Hx Hdrop.
  pose proof (is_matrix_shape1 d d W Hd HW) as HsW.
  pose proof (is_matrix_shape1 d r A Hd HA) as HsA.
  pose proof (is_matrix_shape1 r d B Hr HB) as HsB.
  destruct HA as [HlA _]. destruct HB as [HlB HrB].
  assert (Hbase := linear_value W x). rewrite HsW in Hbase. specialize (Hbase Hx).
  split; [|rewrite Hbase; eexists; reflexivity].
  unfold adapted. rewrite Hbase. cbn [rbind].
  rewrite matmul_value
    by (rewrite HlA; apply (has_width_same_shape d x); assumption).
  cbn [rbind].
  rewrite matmul_value
    by (rewrite length_zeros_, HlB; apply has_width_map; intros row;
        rewrite length_map, length_seq; exact HsA).
  cbn [rbind]. rewrite shape1_zeros_, HsB.
  apply add_zeros.
  unfold scale. rewrite !map_map.
  unfold same_shape in Hdrop.
  clear Hbase.
  assert (Hrow : forall (u v : list R),
             length (map (dot rzero radd rmul u) W)
             = length (map (fun a => rmul a (scaling att))
                 (map (fun j => dot rzero radd rmul v
                                  (column rzero j (zeros_ rzero B)))
                      (seq 0 d))) /\
             Forall (fun a => a = rzero)
               (map (fun a => rmul a (scaling att))
                 (map (fun j => dot rzero radd rmul v
                                  (column rzero j (zeros_ rzero B)))
                      (seq 0 d)))).
  { intros u v. split.
    - rewrite !length_map, length_seq. destruct HW as [-> _]. reflexivity.
    - apply Forall_forall. intros a Ha.
      apply list_elem_of_In in Ha. rewrite map_map in Ha.
      apply in_map_iff in Ha as (j & <- & Hj). apply in_seq in Hj.
      rewrite dot_zero_r; [apply rmul_0_l|].
      apply column_zeros_; rewrite HsB; [lia | exact HrB]. }
  unfold has_width in Hx.
  induction Hdrop as [|Y X y x' HYX _ IH]; [constructor|].
  apply Forall_cons in Hx as [HX Hx'].
  cbn [map]. constructor; [|apply IH; exact Hx'].
  clear -HYX Hrow.
  induction HYX as [|u v Y X _ _ IH]; [constructor|].
  cbn [map]. constructor; [apply Hrow | exact IH].
Qed.


End ZeroB.


End LoRAFacts.

(** ** The decoder *)

Module DecoderFacts.
Import Decoder.

(** A concrete tensor with one batch row has the shape its row has. *)
Ltac one_row :=
  split; [reflexivity | constructor; [reflexivity | constructor]].

Section Facts.
Context {V F L : Type}.
Implicit Types (m : LLAMA V F L) (blk : TransformerBlock V F).

(** *** Slices *)

Lemma length_last_token {X : Type} (row : list X) :
  length (py_slice_from row (-1)) = Nat.min 1 (length row).
Proof.
  unfold py_slice_from, slice_bound.
  change (-1 <? 0) with true. cbv iota. rewrite length_drop. lia.
Qed.

Lemma py_slice_one {X : Type} (l : list X) (p : Z) :
  0 <= p < Z.of_nat (length l) ->
  exists f, l !! Z.to_nat p = Some f /\ py_slice l p (p + 1) = [f].
Proof.
  intros Hp. unfold py_slice, slice_bound.
  destruct (Z.ltb_spec p 0); [lia|]. destruct (Z.ltb_spec (p + 1) 0); [lia|].
  replace (Z.to_nat (Z.min (p + 1) (Z.of_nat (length l)) - Z.min p (Z.of_nat (length l))))
    with 1%nat by lia.
  replace (Z.min p (Z.of_nat (length l))) with p by lia.
  destruct (lookup_lt_is_Some_2 l (Z.to_nat p)) as [f Hf]; [lia|].
  exists f. split; [exact Hf|].
  rewrite <- (take_drop_middle l (Z.to_nat p) f Hf) at 1.
  rewrite drop_app_length'; [reflexivity|].
  rewrite length_take. apply lookup_lt_Some in Hf. lia.
Qed.

Lemma py_slice_short {X : Type} (l : list X) (p : Z) (n : nat) :
  0 <= p -> (1 <= n)%nat -> Z.of_nat (length l) < p + Z.of_nat n ->
  (length (py_slice l p (p + Z.of_nat n)) < n)%nat.
Proof.
  intros Hp Hn Hlen. unfold py_slice, slice_bound.
  destruct (Z.ltb_spec p 0); [lia|].
  destruct (Z.ltb_spec (p + Z.of_nat n) 0); [lia|].
  rewrite length_take, length_drop. lia.
Qed.

Lemma py_slice_beyond {X : Type} (l : list X) (p q : Z) :
  Z.of_nat (length l) <= p -> py_slice l p q = [].
Proof.
  intros Hp. unfold py_slice, slice_bound.
  destruct (Z.ltb_spec p 0); [lia|].
  rewrite drop_ge by lia. apply take_nil.
Qed.

(** *** Embedding *)

Lemma embedding_shape (table : list V) (tokens : Tokens) (h : Tensor V) :
  embedding table tokens = Ok h ->
  Forall2 (fun row hrow => length hrow = length row) tokens h.
Proof.
  unfold embedding. intros H. apply rmap_Forall2 in H.
  induction H as [|row hrow tokens h Hrow _ IH]; constructor; [|exact IH].
  apply rmap_length in Hrow. exact Hrow.
Qed.

Lemma embedding_shape1 (table : list V) (tokens : Tokens) (h : Tensor V) :
  embedding table tokens = Ok h -> shape1 h = shape1 tokens.
Proof.
  intros H. apply embedding_shape in H. destruct H; simpl; congruence.
Qed.

Lemma embedding_rect (table : list V) (tokens : Tokens) (h : Tensor V) (b n : nat) :
  embedding table tokens = Ok h -> rect b n tokens -> rect b n h.
Proof.
  intros H [Hb Hn]. apply embedding_shape in H. split.
  - rewrite <- Hb. symmetry. eapply Forall2_length. exact H.
  - clear Hb. induction H as [|row hrow tokens h Hrow _ IH]; constructor.
    + apply Forall_cons in Hn as [Hr _]. congruence.
    + apply IH. apply Forall_cons in Hn as [_ Hn]. exact Hn.
Qed.

Lemma shape1_last_tokens (tokens : Tokens) :
  (shape1 (map (fun row => py_slice_from row (-1)) tokens) <= 1)%nat.
Proof.
  destruct tokens as [|row tokens]; simpl; [lia|].
  rewrite length_last_token. lia.
Qed.

Lemma rect_last_tokens (tokens : Tokens) (b n : nat) :
  (0 < n)%nat -> rect b n tokens ->
  rect b 1 (map (fun row => py_slice_from row (-1)) tokens).
Proof.
  intros Hn [Hb Hrows]. split; [rewrite length_map; exact Hb|].
  apply Forall_map. eapply Forall_impl; [exact Hrows|].
  intros row Hrow. cbv beta in *. rewrite length_last_token, Hrow. lia.
Qed.

Lemma rect_shape1 {X : Type} (b n : nat) (t : list (list X)) :
  (0 < b)%nat -> rect b n t -> shape1 t = n.
Proof.
  intros Hb [Hlen Hrows]. destruct t as [|row t]; simpl in *; [lia|].
  apply Forall_cons in Hrows as [Hr _]. exact Hr.
Qed.

(** *** The head of [forward_generate] *)

Lemma assemble_streaming m (tokens : Tokens) (start_pos : Z)
    (audio_out : option (Tensor V)) (left_prompts : option Tokens) :
  start_pos <> 0 ->
  assemble m tokens start_pos audio_out left_prompts
  = (do h <~ embedding (tok_embeddings m)
                (map (fun row => py_slice_from row (-1)) tokens);
     let p := advanced_position start_pos audio_out left_prompts in
     Ok {| a_h := h; a_start_pos := p; a_seqlen := shape1 h;
           a_freqs_cis := py_slice (freqs_cis m) p (p + Z.of_nat (shape1 h));
           a_mask := None |}).
Proof.
  intros Hsp. unfold assemble, advanced_position.
  destruct (Z.eqb_spec start_pos 0) as [E|_]; [contradiction|].
  assert (Hmask : forall h : Tensor V,
             embedding (tok_embeddings m)
               (map (fun row => py_slice_from row (-1)) tokens) = Ok h ->
             Nat.ltb 1 (shape1 h) = false).
  { intros h Hh. apply embedding_shape1 in Hh. rewrite Hh.
    apply Nat.ltb_ge. apply shape1_last_tokens. }
  destruct audio_out as [enc|]; [destruct left_prompts as [lp|]|];
    (destruct (embedding (tok_embeddings m)
                 (map (fun row => py_slice_from row (-1)) tokens)) as [h|e] eqn:Hh;
     [cbn [rbind fst snd]; rewrite (Hmask h eq_refl); reflexivity | reflexivity]).
Qed.

(** C2, as amended.  On every call with [start_pos > 0] only the last
    token of each row of the supplied history is embedded, no mask is
    built, and the rotary table is sliced from the caller's position
    advanced by the audio length plus the left-prompt length when an audio
    embedding is present, and from the caller's position itself when it is
    absent (a left prompt without audio adds nothing).  For a non-empty
    history the chunk is one position long, and the slice is exactly that
    one row of the table whenever the advanced position lies inside the
    table (past the end of the table the slice is empty). *)
Theorem streaming_call_position m (tokens : Tokens) (start_pos : Z)
    (audio_out : option (Tensor V)) (left_prompts : option Tokens) :
  0 < start_pos ->
  let p := advanced_position start_pos audio_out left_prompts in
  assemble m tokens start_pos audio_out left_prompts
  = (do h <~ embedding (tok_embeddings m)
                (map (fun row => py_slice_from row (-1)) tokens);
     Ok {| a_h := h; a_start_pos := p; a_seqlen := shape1 h;
           a_freqs_cis := py_slice (freqs_cis m) p (p + Z.of_nat (shape1 h));
           a_mask := None |}) /\
  forall (b n : nat) (a : Assembled V F),
    (0 < b)%nat -> (0 < n)%nat -> rect b n tokens ->
    assemble m tokens start_pos audio_out left_prompts = Ok a ->
    rect b 1 (a_h a) /\ a_seqlen a = 1%nat /\ a_start_pos a = p /\
    (p < Z.of_nat (length (freqs_cis m)) ->
     exists f, freqs_cis m !! Z.to_nat p = Some f /\ a_freqs_cis a = [f]) /\
    (Z.of_nat (length (freqs_cis m)) <= p -> a_freqs_cis a = []).
Proof.
  intros Hsp p. split; [apply assemble_streaming; lia|].
  intros b n a Hb Hn Hrect Ha.
  rewrite assemble_streaming in Ha by lia.
  apply rbind_Ok in Ha as (h & Hh & [= <-]). cbn [a_h a_seqlen a_start_pos a_freqs_cis].
  pose proof (embedding_rect _ _ _ b 1 Hh (rect_last_tokens tokens b n Hn Hrect)) as Hr.
  pose proof (rect_shape1 b 1 h Hb Hr) as Hs.
  repeat split; try apply Hr; try exact Hs.
  - intros Hp. rewrite Hs. apply py_slice_one.
    assert (0 <= p); [|lia].
    unfold p, advanced_position. destruct audio_out, left_prompts; lia.
  - intros Hp. apply py_slice_beyond. exact Hp.
Qed.

End Facts.

Lemma streaming_call_position_witness :
  0 < 2 /\
  exists a, assemble (toy_model 1 8) [[5; 6; 7]] 2 (Some [[1; 2; 3; 4]]) None = Ok a /\
    a_h a = [[107]] /\ a_seqlen a = 1%nat /\ a_start_pos a = 6 /\
    exists f, freqs_cis (toy_model 1 8) !! 6%nat = Some f /\ a_freqs_cis a = [f].
Proof.
  split; [lia|].
  destruct (streaming_call_position (toy_model 1 8) [[5; 6; 7]] 2
              (Some [[1; 2; 3; 4]]) None) as [Heq Hone]; [lia|].
  eexists. split; [rewrite Heq; reflexivity|].
  split; [reflexivity|].
  edestruct (Hone 1%nat 3%nat) as (_ & Hlen & Hpos & Hrow & _);
    [lia | lia | split; [reflexivity | repeat constructor]
     | rewrite Heq; reflexivity |].
  split; [exact Hlen|]. split; [exact Hpos|].
  apply Hrow. vm_compute. reflexivity.
Defined.

(** Without audio a left prompt of length 3 does not move the position:
    the call at caller position 1 looks up row 1, not row 1 + 3 + 0. *)
Lemma streaming_call_position_counterexample :
  exists a, assemble (toy_model 1 8) [[7]] 1 None (Some [[1; 2; 3]]) = Ok a /\
    a_start_pos a = 1 /\ a_freqs_cis a = [1] /\
    documented_position 1 (@None (Tensor Z)) (Some [[1; 2; 3]]) = 4 /\
    a_start_pos a <> documented_position 1 (@None (Tensor Z)) (Some [[1; 2; 3]]).
Proof.
  eexists. split; [reflexivity|]. repeat split. discriminate.
Qed.

Section Scenario.
Context {V F L : Type}.

(** C3, as amended.  Priming with an audio embedding of length 4, no left
    prompt and the text tokens [5, 6] assembles a prefix of six positions
    starting at 0.  On the next call, where the caller's counter stands at
    2, the position is advanced by 4, to 6 - the position just after the
    six cached ones - and not to 4; one token is processed. *)
Theorem audio_scenario_position (m : LLAMA V F L) (audio : Tensor V) (t : Z) :
  rect 1 4 audio ->
  (6 < length (tok_embeddings m))%nat ->
  0 <= t < Z.of_nat (length (tok_embeddings m)) ->
  (exists a0, assemble m [[5; 6]] 0 (Some audio) None = Ok a0 /\
     a_start_pos a0 = 0 /\ a_seqlen a0 = 6%nat) /\
  (exists a, assemble m [[5; 6; t]] 2 (Some audio) None = Ok a /\
     a_start_pos a = 2 + 4 /\ a_start_pos a = 6 /\ a_seqlen a = 1%nat).
Proof.
  intros [Hb Hrows] Hvocab Ht.
  destruct audio as [|row [|]]; try discriminate.
  apply Forall_cons in Hrows as [Hrow _].
  destruct (lookup_lt_is_Some_2 (tok_embeddings m) 5) as [v5 H5]; [lia|].
  destruct (lookup_lt_is_Some_2 (tok_embeddings m) 6) as [v6 H6]; [lia|].
  destruct (lookup_lt_is_Some_2 (tok_embeddings m) (Z.to_nat t)) as [vt Hvt]; [lia|].
  split.
  - unfold assemble, embedding, embed_id. cbn [Z.eqb rmap rbind Z.ltb Z.compare].
    change (Z.to_nat 5) with 5%nat. change (Z.to_nat 6) with 6%nat.
    rewrite H5, H6. cbn [rbind cat_dim1 length Nat.eqb zip_with fst snd shape1].
    eexists. split; [reflexivity|]. cbn [a_start_pos a_seqlen].
    split; [reflexivity|]. rewrite length_app, Hrow. reflexivity.
  - rewrite assemble_streaming by discriminate.
    assert (E : map (fun row : list Z => py_slice_from row (-1)) [[5; 6; t]] = [[t]])
      by reflexivity.
    rewrite E. unfold embedding. cbn [rmap]. unfold embed_id.
    destruct (Z.ltb_spec t 0) as [Hneg|_]; [lia|].
    rewrite Hvt. cbn [rbind]. eexists. split; [reflexivity|].
    cbn [a_start_pos a_seqlen advanced_position shape1 length]. rewrite Hrow.
    repeat split.
Qed.

End Scenario.

Lemma audio_scenario_position_witness :
  exists a, assemble (toy_model 1 16) [[5; 6; 7]] 2 (Some [[1; 2; 3; 4]]) None = Ok a /\
     a_start_pos a = 2 + 4 /\ a_start_pos a = 6 /\ a_seqlen a = 1%nat.
Proof.
  refine (proj2 (audio_scenario_position (toy_model 1 16) [[1; 2; 3; 4]] 7 _ _ _)).
  - split; [reflexivity | repeat constructor].
  - simpl. lia.
  - simpl. lia.
Defined.

(** In the scenario the next call does not use position 4. *)
Lemma audio_scenario_counterexample :
  exists a, assemble (toy_model 1 16) [[5; 6; 7]] 2 (Some [[1; 2; 3; 4]]) None = Ok a /\
     a_start_pos a <> 4.
Proof.
  eexists. split; [reflexivity|]. discriminate.
Qed.

Section Errors.
Context {V F L : Type}.
Implicit Types (m : LLAMA V F L) (blk : TransformerBlock V F).

Lemma shape1_map_map {X Y : Type} (f : X -> Y) (t : list (list X)) :
  shape1 (map (map f) t) = shape1 t.
Proof. destruct t; simpl; [reflexivity | apply length_map]. Qed.

Lemma assemble_fields m (tokens : Tokens) (start_pos : Z)
    (audio_out : option (Tensor V)) (left_prompts : option Tokens)
    (a : Assembled V F) :
  assemble m tokens start_pos audio_out left_prompts = Ok a ->
  a_seqlen a = shape1 (a_h a) /\
  a_freqs_cis a
  = py_slice (freqs_cis m) (a_start_pos a) (a_start_pos a + Z.of_nat (a_seqlen a)).
Proof.
  unfold assemble. intros H. apply rbind_Ok in H as (hs & _ & [= <-]).
  split; reflexivity.
Qed.

Lemma run_layers_None blk (ls : list (TransformerBlock V F)) (i : nat)
    (h : Tensor V) (sp : Z) (freqs : list F) (mask : option (list (list bool))) :
  run_layers (blk :: ls) i h sp freqs mask None = Err TypeError.
Proof. reflexivity. Qed.

(** A table slice with fewer rows than the chunk has positions trips the
    assertion of [reshape_for_broadcast]. *)
Lemma Attention_LoRA_forward_short_slice blk (x : Tensor V) (sp : Z)
    (freqs : list F) (mask : option (list (list bool)))
    (inc : option (LayerCache V)) :
  (length freqs < shape1 x)%nat ->
  Attention_LoRA_forward blk x sp freqs mask inc = Err AssertionError.
Proof.
  intros Hlen. unfold Attention_LoRA_forward, apply_rotary_emb.
  rewrite shape1_map_map.
  destruct (Nat.eqb_spec (length freqs) (shape1 x)) as [E|_]; [lia | reflexivity].
Qed.

Lemma TransformerBlock_forward_short_slice blk (x : Tensor V) (sp : Z)
    (freqs : list F) (mask : option (list (list bool))) (d : LayerCache V) :
  (length freqs < shape1 x)%nat ->
  is_Err (TransformerBlock_forward blk x sp freqs mask d) /\
  (kind blk = LoRA ->
   TransformerBlock_forward blk x sp freqs mask d = Err AssertionError).
Proof.
  intros Hlen. unfold TransformerBlock_forward.
  destruct (kind blk).
  - rewrite Attention_LoRA_forward_short_slice
      by (rewrite shape1_map_map; exact Hlen).
    split; [eexists; reflexivity | reflexivity].
  - split; [eexists; reflexivity | discriminate].
Qed.

(** C7, as amended.  Slicing the rotary table never fails by itself: a
    request that runs past the last precomputed position silently yields
    fewer rows than the chunk has positions.  In a model with at least one
    layer the call then fails all the same, before any logits are
    produced: the first layer's attention trips the shape assertion of
    [reshape_for_broadcast] (an [AssertionError]; a plain-attention first
    layer or a missing state fails even earlier). *)
Theorem rotary_slice_beyond_table m (tokens : Tokens) (start_pos : Z)
    (audio_out : option (Tensor V)) (left_prompts : option Tokens)
    (st : option (IncState V)) (a : Assembled V F) :
  layers m <> [] ->
  assemble m tokens start_pos audio_out left_prompts = Ok a ->
  0 <= a_start_pos a -> (1 <= a_seqlen a)%nat ->
  Z.of_nat (length (freqs_cis m)) < a_start_pos a + Z.of_nat (a_seqlen a) ->
  (length (a_freqs_cis a) < a_seqlen a)%nat /\
  is_Err (forward_generate m tokens start_pos audio_out left_prompts st) /\
  (forall blk ls s, layers m = blk :: ls -> kind blk = LoRA -> st = Some s ->
     forward_generate m tokens start_pos audio_out left_prompts st
     = Err AssertionError).
Proof.
  intros Hls Ha Hp Hn Hbeyond.
  destruct (assemble_fields _ _ _ _ _ _ Ha) as [Hseq Hfreqs].
  assert (Hshort : (length (a_freqs_cis a) < shape1 (a_h a))%nat).
  { rewrite <- Hseq, Hfreqs. apply py_slice_short; assumption. }
  split; [rewrite Hseq; exact Hshort|].
  unfold forward_generate. rewrite Ha. cbn [rbind].
  destruct (layers m) as [|blk ls]; [contradiction|].
  destruct st as [s|].
  - cbn [run_layers].
    destruct (TransformerBlock_forward_short_slice blk (a_h a) (a_start_pos a)
                (a_freqs_cis a) (a_mask a)
                (default ∅ (match s !! 0%nat with
                            | Some _ => s
                            | None => <[0%nat := ∅]> s
                            end !! 0%nat)) Hshort) as [[e He] Hlora].
    split.
    + rewrite He. eexists. reflexivity.
    + intros blk' ls' s' [= <- <-] Hk _. rewrite (Hlora Hk). reflexivity.
  - rewrite run_layers_None. split; [eexists; reflexivity|].
    intros blk' ls' s' _ _ [=].
Qed.

(** C10, as amended.  In a model with at least one layer, a call of
    [forward_generate] with [incremental_state = None] raises before any
    logits are produced, for every input: when the prefix can be
    assembled, the membership test of the first iteration of the layer
    loop raises a [TypeError]. *)
Theorem forward_generate_needs_state m (tokens : Tokens) (start_pos : Z)
    (audio_out : option (Tensor V)) (left_prompts : option Tokens) :
  layers m <> [] ->
  is_Err (forward_generate m tokens start_pos audio_out left_prompts None) /\
  (is_Ok (assemble m tokens start_pos audio_out left_prompts) ->
   forward_generate m tokens start_pos audio_out left_prompts None
   = Err TypeError).
Proof.
  intros Hls. unfold forward_generate.
  destruct (assemble m tokens start_pos audio_out left_prompts) as [a|e].
  - cbn [rbind]. destruct (layers m) as [|blk ls]; [contradiction|].
    rewrite run_layers_None. split; [eexists; reflexivity | reflexivity].
  - split; [eexists; reflexivity|]. intros [a [=]].
Qed.

(** C1.  The full-sequence entry point [LLaMADecoder.forward] calls the
    [LLAMA] module, which defines no [forward]: for every input the call
    raises [NotImplementedError] and yields no output that could be
    compared with the incremental path. *)
Theorem full_sequence_forward_raises m (tokens : Tokens)
    (audio_out : option (Tensor V)) (left_prompts : option Tokens) :
  LLaMADecoder_forward m tokens audio_out left_prompts = Err NotImplementedError.
Proof. reflexivity. Qed.

End Errors.

Lemma rotary_slice_beyond_table_witness :
  is_Err (forward_generate (toy_model 1 2) [[1; 2]] 5 None None (Some ∅)).
Proof.
  refine (proj1 (proj2
    (rotary_slice_beyond_table (toy_model 1 2) [[1; 2]] 5 None None (Some ∅)
       {| a_h := [[102]]; a_start_pos := 5; a_seqlen := 1;
          a_freqs_cis := []; a_mask := None |} _ _ _ _ _))).
  - discriminate.
  - reflexivity.
  - simpl. lia.
  - simpl. lia.
  - simpl. lia.
Defined.

(** With no layer nothing looks at the shortened slice: position 5 of a
    table of two rows is requested and logits come back. *)
Lemma rotary_slice_beyond_table_counterexample :
  exists a out,
    assemble (toy_model 0 2) [[1; 2]] 5 None None = Ok a /\
    Z.of_nat (length (freqs_cis (toy_model 0 2)))
      < a_start_pos a + Z.of_nat (a_seqlen a) /\
    a_freqs_cis a = [] /\
    forward_generate (toy_model 0 2) [[1; 2]] 5 None None (Some ∅) = Ok out /\
    fst out = [[102]].
Proof.
  eexists. eexists. split; [reflexivity|].
  split; [simpl; lia|]. split; [reflexivity|]. split; reflexivity.
Qed.

Lemma forward_generate_needs_state_witness :
  forward_generate (toy_model 2 8) [[1; 2; 3]] 0 None None None = Err TypeError.
Proof.
  refine (proj2 (forward_generate_needs_state (toy_model 2 8) [[1; 2; 3]] 0
                   None None _) _).
  - discriminate.
  - eexists. reflexivity.
Defined.

(** With no layer the loop body never runs and the missing state goes
    unnoticed. *)
Lemma forward_generate_needs_state_counterexample :
  forward_generate (toy_model 0 8) [[1; 2; 3]] 0 None None None
  = Ok ([[101; 102; 103]], None).
Proof. reflexivity. Qed.

(** *** Shapes *)

Section Shapes.
Context {X Y Z' : Type}.

Lemma length_concat_rect (b n : nat) (t : list (list X)) :
  rect b n t -> length (concat t) = (b * n)%nat.
Proof.
  intros [Hb Hrows]. subst b. induction Hrows as [|row t Hrow _ IH]; [reflexivity|].
  cbn [concat length]. rewrite length_app, IH, Hrow. lia.
Qed.

Lemma chunks_concat (b n : nat) (t : list (list X)) :
  rect b n t -> chunks b n (concat t) = t.
Proof.
  intros [Hb Hrows]. subst b. induction Hrows as [|row t Hrow _ IH]; [reflexivity|].
  cbn [concat length chunks].
  rewrite take_app_length', drop_app_length' by congruence.
  rewrite IH. reflexivity.
Qed.

(** Viewing a cache with the batch extent it already has changes
    nothing. *)
Lemma view_bsz_rect (b n : nat) (t : list (list X)) :
  (0 < b)%nat -> rect b n t -> view_bsz b t = Ok t.
Proof.
  intros Hb Hrect. unfold view_bsz.
  rewrite (length_concat_rect b n t Hrect).
  destruct (Nat.eqb_spec b 0) as [E|_]; [lia|].
  rewrite Nat.mul_comm, Nat.Div0.mod_mul, Nat.div_mul by lia.
  cbn [Nat.eqb]. rewrite chunks_concat by exact Hrect. reflexivity.
Qed.

(** With another batch extent the cached positions are regrouped, without
    any error, whenever the extent divides their number: this is why the
    statements about a session fix one batch extent. *)
Example view_bsz_regroups (x1 x2 x3 x4 x5 x6 : X) :
  view_bsz 3 [[x1; x2; x3]; [x4; x5; x6]] = Ok [[x1; x2]; [x3; x4]; [x5; x6]].
Proof. reflexivity. Qed.

Lemma rect_map (g : list X -> list Y) (b n n' : nat) (t : list (list X)) :
  (forall u, length u = n -> length (g u) = n') ->
  rect b n t -> rect b n' (map g t).
Proof.
  intros Hg [Hb Hrows]. split; [rewrite length_map; exact Hb|].
  apply Forall_map. eapply Forall_impl; [exact Hrows|]. exact Hg.
Qed.

Lemma rect_map_map (f : X -> Y) (b n : nat) (t : list (list X)) :
  rect b n t -> rect b n (map (map f) t).
Proof. apply rect_map. intros u Hu. rewrite length_map. exact Hu. Qed.

Lemma rect_zip_with {W : Type} (g : list X -> W -> list Y) (b n n' : nat)
    (t : list (list X)) (l : list W) :
  (forall u w, length u = n -> length (g u w) = n') ->
  rect b n t -> length l = b -> rect b n' (zip_with g t l).
Proof.
  intros Hg [Hb Hrows] Hl. split.
  - rewrite length_zip_with. lia.
  - clear Hb Hl. revert l. induction Hrows as [|row t Hrow _ IH]; intros [|w l];
      cbn [zip_with]; constructor; [apply Hg; exact Hrow | apply IH].
Qed.

Lemma rect_zip_with_app (b n s : nat) (p x : list (list X)) :
  rect b n p -> rect b s x -> rect b (n + s) (zip_with app p x).
Proof.
  intros [Hb Hp] [Hb' Hx]. split.
  - rewrite length_zip_with. lia.
  - clear Hb Hb'. revert x Hx. induction Hp as [|u p Hu _ IH]; intros x Hx;
      destruct Hx as [|v x Hv Hx]; cbn [zip_with]; constructor.
    + rewrite length_app. congruence.
    + apply IH. exact Hx.
Qed.

Lemma rect_zip_with_same (g : X -> Y -> Z') (b n : nat)
    (t : list (list X)) (u : list (list Y)) :
  rect b n t -> rect b n u -> rect b n (zip_with (zip_with g) t u).
Proof.
  intros [Hb Ht] [Hb' Hu]. split.
  - rewrite length_zip_with. lia.
  - clear Hb Hb'. revert u Hu. induction Ht as [|r t Hr _ IH]; intros u Hu;
      destruct Hu as [|r' u Hr' Hu]; cbn [zip_with]; constructor.
    + rewrite length_zip_with. lia.
    + apply IH. exact Hu.
Qed.

Lemma cat_dim1_pair (b n s : nat) (p x : list (list X)) :
  rect b n p -> rect b s x ->
  cat_dim1 [p; x] = Ok (zip_with app p x) /\ rect b (n + s) (zip_with app p x).
Proof.
  intros Hp Hx. split; [|apply rect_zip_with_app; assumption].
  cbn [cat_dim1 rbind]. destruct Hp as [-> _], Hx as [-> _].
  rewrite Nat.eqb_refl. reflexivity.
Qed.

Lemma cat_dim1_triple (b n1 n2 n3 : nat) (p q x : list (list X)) :
  rect b n1 p -> rect b n2 q -> rect b n3 x ->
  exists r, cat_dim1 [p; q; x] = Ok r /\ rect b (n1 + n2 + n3) r.
Proof.
  intros Hp Hq Hx.
  destruct (cat_dim1_pair b n2 n3 q x Hq Hx) as [E Hr].
  change (cat_dim1 [p; q; x])
    with (do r <~ cat_dim1 [q; x];
          if Nat.eqb (length p) (length r) then Ok (zip_with app p r)
          else Err RuntimeError).
  rewrite E. cbn [rbind].
  destruct Hp as [Hbp Hp]. destruct Hr as [Hbr Hr]. rewrite Hbp, Hbr, Nat.eqb_refl.
  eexists. split; [reflexivity|].
  replace (n1 + n2 + n3)%nat with (n1 + (n2 + n3))%nat by lia.
  apply rect_zip_with_app; split; assumption.
Qed.

End Shapes.

(** *** The cache *)

Section Cache.
Context {V F L : Type}.
Implicit Types (m : LLAMA V F L) (blk : TransformerBlock V F).
Implicit Types (d : LayerCache V) (st : IncState V).

Lemma row_prefix_zip_app (k x : Tensor V) :
  length k = length x -> row_prefix k (zip_with app k x).
Proof.
  revert x. induction k as [|row k IH]; intros [|xr x] Hlen; try discriminate;
    cbn [zip_with]; constructor.
  - apply prefix_app_r. reflexivity.
  - apply IH. simpl in Hlen. lia.
Qed.

Lemma row_prefix_trans (k1 k2 k3 : Tensor V) :
  row_prefix k1 k2 -> row_prefix k2 k3 -> row_prefix k1 k3.
Proof.
  unfold row_prefix. intros H12. revert k3.
  induction H12 as [|r1 r2 k1 k2 Hr _ IH]; intros k3 H23; inversion H23; subst;
    constructor.
  - etransitivity; eassumption.
  - apply IH. assumption.
Qed.

Lemma cache_extends_trans d1 d2 d3 :
  cache_extends d1 d2 -> cache_extends d2 d3 -> cache_extends d1 d3.
Proof.
  intros H12 H23 k v Hk Hv.
  destruct (H12 k v Hk Hv) as (k2 & v2 & Hk2 & Hv2 & Pk & Pv).
  destruct (H23 k2 v2 Hk2 Hv2) as (k3 & v3 & Hk3 & Hv3 & Pk' & Pv').
  exists k3, v3. repeat split; try assumption; eapply row_prefix_trans; eassumption.
Qed.

Lemma extend_cache_grows (b n s : nat) (xk xv : Tensor V) d :
  (0 < b)%nat -> rect b s xk -> rect b s xv -> layer_cached b n d ->
  exists keys vals d',
    extend_cache b xk xv (Some d) = Ok (keys, vals, Some d') /\
    rect b (n + s) keys /\ rect b (n + s) vals /\
    d' !! "prev_key" = Some (Some keys) /\ d' !! "prev_value" = Some (Some vals) /\
    cache_extends d d'.
Proof.
  intros Hb Hk Hv [[Hnone ->]|(k & v & Hdk & Hdv & Hrk & Hrv)].
  - exists xk, xv. eexists. unfold extend_cache. rewrite Hnone. cbn [rbind fst snd].
    rewrite !(view_bsz_rect b s) by assumption. cbn [rbind].
    split; [reflexivity|]. repeat split; try apply Hk; try apply Hv.
    + rewrite lookup_insert_ne by discriminate. apply lookup_insert_eq.
    + apply lookup_insert_eq.
    + intros k v Hk0 _. rewrite Hnone in Hk0. discriminate.
  - assert (Hext : forall d' : LayerCache V,
               d' !! "prev_key" = Some (Some (zip_with app k xk)) ->
               d' !! "prev_value" = Some (Some (zip_with app v xv)) ->
               cache_extends d d').
    { intros d' Hk' Hv' k0 v0 Hk0 Hv0.
      rewrite Hdk in Hk0. rewrite Hdv in Hv0.
      injection Hk0 as <-. injection Hv0 as <-.
      exists (zip_with app k xk), (zip_with app v xv).
      repeat split; try assumption; apply row_prefix_zip_app.
      - destruct Hrk as [-> _], Hk as [-> _]. reflexivity.
      - destruct Hrv as [-> _], Hv as [-> _]. reflexivity. }
    destruct (cat_dim1_pair b n s k xk Hrk Hk) as [Ek Hck].
    destruct (cat_dim1_pair b n s v xv Hrv Hv) as [Ev Hcv].
    exists (zip_with app k xk), (zip_with app v xv). eexists.
    unfold extend_cache, cached. rewrite Hdk, Hdv.
    rewrite !(view_bsz_rect b n) by assumption. cbn [rbind].
    rewrite Ek, Ev. cbn [rbind fst snd].
    rewrite !(view_bsz_rect b (n + s)) by assumption. cbn [rbind].
    split; [reflexivity|]. repeat split; try apply Hck; try apply Hcv.
    + rewrite lookup_insert_ne by discriminate. apply lookup_insert_eq.
    + apply lookup_insert_eq.
    + apply Hext.
      * rewrite lookup_insert_ne by discriminate. apply lookup_insert_eq.
      * apply lookup_insert_eq.
Qed.

Lemma rect_rotate blk (b s : nat) (freqs : list F) (x : Tensor V) :
  length freqs = s -> rect b s x ->
  rect b s (map (zip_with (rotate blk) freqs) x).
Proof.
  intros Hf. apply rect_map. intros u Hu. rewrite length_zip_with. lia.
Qed.

Lemma rect_attend blk (b s : nat) (mask : option (list (list bool)))
    (xq keys values : Tensor V) :
  rect b s xq -> length keys = b -> length values = b ->
  rect b s
    (zip_with
       (fun qs kv =>
          imap (fun i q =>
                  softmax_attend blk q (fst kv) (snd kv)
                    (match mask with Some mk => mk !! i | None => None end))
               qs)
       xq (zip keys values)).
Proof.
  intros Hq Hk Hv. apply (rect_zip_with _ b s s); [|exact Hq|].
  - intros u w Hu. rewrite length_imap. exact Hu.
  - rewrite length_zip. lia.
Qed.

(** [Attention_LoRA.forward] on a chunk of [s] positions with [n] cached
    ones: it succeeds exactly when the table slice has [s] rows and the
    mask fits, and then it leaves [n + s] positions in the cache. *)
Lemma Attention_LoRA_forward_grows blk (b n s : nat) (x : Tensor V) (sp : Z)
    (freqs : list F) (mask : option (list (list bool))) d :
  (0 < b)%nat -> rect b s x -> layer_cached b n d ->
  (length freqs = s -> mask_fits mask (n + s) = true ->
   is_Ok (Attention_LoRA_forward blk x sp freqs mask (Some d))) /\
  (forall out inc',
     Attention_LoRA_forward blk x sp freqs mask (Some d) = Ok (out, inc') ->
     rect b s out /\
     exists d', inc' = Some d' /\ cache_is b (n + s) d' /\ cache_extends d d').
Proof.
  intros Hb Hx Hd.
  pose proof (rect_shape1 b s x Hb Hx) as Hs.
  unfold Attention_LoRA_forward, apply_rotary_emb.
  rewrite shape1_map_map, Hs.
  destruct (Nat.eqb_spec (length freqs) s) as [Hf|Hf];
    [|split; [intros; contradiction | intros out inc' [=]]].
  cbn [rbind fst snd].
  destruct (extend_cache_grows b n s
              (map (zip_with (rotate blk) freqs) (map (map (wk blk)) x))
              (map (map (wv blk)) x) d Hb)
    as (keys & vals & d' & E & Hrk & Hrv & Hdk & Hdv & Hext);
    [apply rect_rotate; [exact Hf | apply rect_map_map; exact Hx]
    | apply rect_map_map; exact Hx | exact Hd |].
  pose proof (proj1 Hx) as Hxb.
  rewrite Hxb, E. cbn [rbind fst snd].
  unfold scaled_dot_product, mask_fits.
  rewrite (rect_shape1 b (n + s) keys Hb Hrk).
  assert (Hout : forall mk : option (list (list bool)), rect b s
            (map (map (wo blk))
               (zip_with
                  (fun qs kv =>
                     imap (fun i q =>
                             softmax_attend blk q (fst kv) (snd kv)
                               (match mk with Some mk => mk !! i | None => None end))
                          qs)
                  (map (zip_with (rotate blk) freqs) (map (map (wq blk)) x))
                  (zip keys vals)))).
  { intros mk. apply rect_map_map. apply rect_attend.
    - apply rect_rotate; [exact Hf|]. apply rect_map_map. exact Hx.
    - apply Hrk.
    - apply Hrv. }
  destruct mask as [mk|].
  - destruct (Nat.eqb_spec (n + s) (length mk)) as [Hm|Hm]; cbn [rbind].
    + split; [intros; eexists; reflexivity|].
      intros out inc' [= <- <-]. split; [apply (Hout (Some mk))|].
      exists d'. split; [reflexivity|]. split; [|exact Hext].
      exists keys, vals. repeat split; assumption || apply Hrk || apply Hrv.
    + split; [intros _ [=] | intros out inc' [=]].
  - cbn [rbind]. split; [intros; eexists; reflexivity|].
    intros out inc' [= <- <-]. split; [apply (Hout None)|].
    exists d'. split; [reflexivity|]. split; [|exact Hext].
    exists keys, vals. repeat split; assumption || apply Hrk || apply Hrv.
Qed.

(** [Attention.forward] has the same cache block: whichever score
    strategy is selected, a call that returns leaves [n + s] positions in
    the cache, the old ones first. *)
Lemma Attention_forward_grows blk (b n s : nat) (x : Tensor V) (sp : Z)
    (freqs : list F) (mask : option (list (list bool))) d :
  (0 < b)%nat -> rect b s x -> layer_cached b n d ->
  forall out inc',
    Attention_forward blk x sp freqs mask (Some d) = Ok (out, inc') ->
    exists d', inc' = Some d' /\ cache_is b (n + s) d' /\ cache_extends d d'.
Proof.
  intros Hb Hx Hd out inc'.
  pose proof (rect_shape1 b s x Hb Hx) as Hs.
  unfold Attention_forward, apply_rotary_emb.
  rewrite shape1_map_map, Hs.
  destruct (Nat.eqb_spec (length freqs) s) as [Hf|Hf]; [|intros [=]].
  cbn [rbind fst snd].
  destruct (extend_cache_grows b n s
              (map (zip_with (rotate blk) freqs) (map (map (wk blk)) x))
              (map (map (wv blk)) x) d Hb)
    as (keys & vals & d' & E & Hrk & Hrv & Hdk & Hdv & Hext);
    [apply rect_rotate; [exact Hf | apply rect_map_map; exact Hx]
    | apply rect_map_map; exact Hx | exact Hd |].
  rewrite (proj1 Hx), E. cbn [rbind fst snd].
  assert (Hc : cache_is b (n + s) d').
  { exists keys, vals. repeat split; assumption || apply Hrk || apply Hrv. }
  destruct (flash_attention blk).
  - destruct (memory_efficient_attention blk) as [fused|]; [|intros [=]].
    intros [= _ <-]. exists d'. repeat split; assumption.
  - intros Hout. apply rbind_Ok in Hout as (o & _ & [= _ <-]).
    exists d'. repeat split; assumption.
Qed.

Lemma TransformerBlock_forward_grows blk (b n s : nat) (x : Tensor V) (sp : Z)
    (freqs : list F) (mask : option (list (list bool))) d :
  (0 < b)%nat -> rect b s x -> layer_cached b n d ->
  (kind blk = LoRA -> length freqs = s -> mask_fits mask (n + s) = true ->
   is_Ok (TransformerBlock_forward blk x sp freqs mask d)) /\
  (forall out d',
     TransformerBlock_forward blk x sp freqs mask d = Ok (out, d') ->
     rect b s out /\ cache_is b (n + s) d' /\ cache_extends d d').
Proof.
  intros Hb Hx Hd. unfold TransformerBlock_forward.
  destruct (Attention_LoRA_forward_grows blk b n s
              (map (map (attention_norm blk)) x) sp freqs mask d Hb
              (rect_map_map _ b s x Hx) Hd) as [Hok Hpost].
  destruct (kind blk); [|split; [discriminate | intros out d' [=]]].
  destruct (Attention_LoRA_forward blk (map (map (attention_norm blk)) x)
              sp freqs mask (Some d)) as [[a inc']|e] eqn:E; cbn [rbind fst snd].
  - destruct (Hpost a inc' eq_refl) as (Ha & d1 & -> & Hc & Hext).
    split; [intros; eexists; reflexivity|].
    intros out d' [= <- <-]. split; [|split; [exact Hc | exact Hext]].
    apply rect_zip_with_same.
    + apply rect_zip_with_same; assumption.
    + apply rect_map_map. apply rect_zip_with_same; assumption.
  - split; [|intros out d' [=]].
    intros _ Hf Hm. destruct (Hok Hf Hm) as [r [=]].
Qed.

(** The layer loop: every layer it runs ends with [n + s] cached
    positions, and the layers before are left alone. *)
Lemma run_layers_grows (b n s : nat) (sp : Z) (freqs : list F)
    (mask : option (list (list bool))) (ls : list (TransformerBlock V F)) :
  (0 < b)%nat ->
  forall (i : nat) (h : Tensor V) st,
  rect b s h ->
  (forall j, (i <= j < i + length ls)%nat ->
             layer_cached b n (default ∅ (st !! j))) ->
  (Forall (fun blk => kind blk = LoRA) ls -> length freqs = s ->
   mask_fits mask (n + s) = true ->
   is_Ok (run_layers ls i h sp freqs mask (Some st))) /\
  (forall out ost,
     run_layers ls i h sp freqs mask (Some st) = Ok (out, ost) ->
     rect b s out /\
     exists s', ost = Some s' /\
       (forall j, (i <= j < i + length ls)%nat ->
                  exists d, s' !! j = Some d /\ cache_is b (n + s) d /\
                            cache_extends (default ∅ (st !! j)) d) /\
       (forall j, (j < i)%nat -> s' !! j = st !! j)).
Proof.
  intros Hb. induction ls as [|blk ls IH]; intros i h st Hh Hpre.
  - cbn [run_layers]. split; [intros; eexists; reflexivity|].
    intros out ost [= <- <-]. split; [exact Hh|].
    exists st. split; [reflexivity|]. split; [|reflexivity].
    intros j Hj. cbn [length] in Hj. lia.
  - cbn [run_layers].
    set (st1 := match st !! i with Some _ => st | None => <[i := ∅]> st end).
    assert (Hi : default ∅ (st1 !! i) = default ∅ (st !! i)).
    { unfold st1. destruct (st !! i) as [d0|] eqn:E.
      - rewrite E. reflexivity.
      - rewrite lookup_insert_eq. reflexivity. }
    assert (Hother : forall j, j <> i -> st1 !! j = st !! j).
    { intros j Hj. unfold st1. destruct (st !! i); [reflexivity|].
      apply lookup_insert_ne. congruence. }
    rewrite Hi.
    destruct (TransformerBlock_forward_grows blk b n s h sp freqs mask
                (default ∅ (st !! i)) Hb Hh) as [Hok Hpost].
    { apply Hpre. cbn [length]. lia. }
    destruct (TransformerBlock_forward blk h sp freqs mask (default ∅ (st !! i)))
      as [[h' d']|e] eqn:E; cbn [rbind fst snd].
    + destruct (Hpost h' d' eq_refl) as (Hh' & Hc & Hext).
      destruct (IH (S i) h' (<[i := d']> st1) Hh') as [IHok IHpost].
      { intros j Hj. rewrite lookup_insert_ne by lia.
        rewrite Hother by lia. apply Hpre. cbn [length]. lia. }
      split.
      * intros Hk Hf Hm. apply Forall_cons in Hk as [_ Hk]. apply IHok; assumption.
      * intros out ost Hrun. destruct (IHpost out ost Hrun) as (Hout & s' & -> & Hin & Hbefore).
        split; [exact Hout|]. exists s'. split; [reflexivity|]. split.
        -- intros j Hj. destruct (Nat.eq_dec j i) as [->|Hne].
           ++ rewrite Hbefore by lia. rewrite lookup_insert_eq. exists d'.
              split; [reflexivity|]. split; [exact Hc | exact Hext].
           ++ destruct (Hin j) as (dj & Hdj & Hcj & Hej); [cbn [length] in Hj; lia|].
              exists dj. split; [exact Hdj|]. split; [exact Hcj|].
              rewrite lookup_insert_ne in Hej by lia.
              rewrite Hother in Hej by lia. exact Hej.
        -- intros j Hj. rewrite Hbefore by lia.
           rewrite lookup_insert_ne by lia. apply Hother. lia.
    + split; [|intros out ost [=]].
      intros Hk Hf Hm. apply Forall_cons in Hk as [Hk _].
      destruct (Hok Hk Hf Hm) as [r [=]].
Qed.

Lemma all_cached_weaken m (b n : nat) st :
  all_cached m b n st -> all_cached_or_fresh m b n st.
Proof.
  intros H j Hj. destruct (H j Hj) as (d & -> & Hc). right. exact Hc.
Qed.

Lemma fresh_session m (b : nat) : all_cached_or_fresh m b 0 ∅.
Proof.
  intros j _. rewrite lookup_empty. left. split; [apply lookup_empty | reflexivity].
Qed.

Lemma forward_generate_grows m (b n : nat) (tokens : Tokens) (start_pos : Z)
    (audio_out : option (Tensor V)) (left_prompts : option Tokens) st
    (a : Assembled V F) :
  (0 < b)%nat ->
  assemble m tokens start_pos audio_out left_prompts = Ok a ->
  rect b (a_seqlen a) (a_h a) ->
  all_cached_or_fresh m b n st ->
  (Forall (fun blk => kind blk = LoRA) (layers m) ->
   length (a_freqs_cis a) = a_seqlen a ->
   mask_fits (a_mask a) (n + a_seqlen a) = true ->
   is_Ok (forward_generate m tokens start_pos audio_out left_prompts (Some st))) /\
  (forall out ost,
     forward_generate m tokens start_pos audio_out left_prompts (Some st)
     = Ok (out, ost) ->
     exists s', ost = Some s' /\ all_cached m b (n + a_seqlen a) s' /\
                state_extends m st s').
Proof.
  intros Hb Ha Hh Hpre. unfold forward_generate. rewrite Ha. cbn [rbind].
  destruct (run_layers_grows b n (a_seqlen a) (a_start_pos a) (a_freqs_cis a)
              (a_mask a) (layers m) Hb 0 (a_h a) st Hh) as [Hok Hpost].
  { intros j Hj. apply Hpre. lia. }
  destruct (run_layers (layers m) 0 (a_h a) (a_start_pos a) (a_freqs_cis a)
              (a_mask a) (Some st)) as [[h' st1]|e] eqn:E; cbn [rbind fst snd].
  - split; [intros; eexists; reflexivity|].
    intros out ost [= _ <-].
    destruct (Hpost h' st1 eq_refl) as (_ & s' & -> & Hin & _).
    exists s'. split; [reflexivity|].
    split; intros j Hj; (destruct (Hin j) as (d & Hd & Hc & He); [lia|]);
      exists d; split; assumption.
  - split; [|intros out ost [=]].
    intros Hk Hf Hm. destruct (Hok Hk Hf Hm) as [r [=]].
Qed.

Lemma assemble_priming_shape m (b : nat) (c : Call V) (a : Assembled V F) :
  (0 < b)%nat -> c_start_pos c = 0 -> priming_shaped b c ->
  assemble m (c_tokens c) (c_start_pos c) (c_audio_out c) (c_left_prompts c) = Ok a ->
  rect b (a_seqlen a) (a_h a) /\ a_seqlen a = prefix_length c /\ a_start_pos a = 0.
Proof.
  intros Hb Hsp ((nt & Ht) & Haud & Hleft) Ha.
  unfold assemble in Ha. rewrite Hsp in Ha. cbn [Z.eqb] in Ha.
  unfold prefix_length. rewrite (rect_shape1 b nt _ Hb Ht).
  destruct (c_audio_out c) as [e|].
  - destruct (Haud e eq_refl) as [na He]. rewrite (rect_shape1 b na _ Hb He).
    destruct (c_left_prompts c) as [lp|].
    + destruct (Hleft lp eq_refl) as [nl Hlp]. rewrite (rect_shape1 b nl _ Hb Hlp).
      destruct (embedding (tok_embeddings m) lp) as [lh|] eqn:Elh; [|discriminate].
      cbn [rbind] in Ha.
      destruct (embedding (tok_embeddings m) (c_tokens c)) as [h|] eqn:Eh; [|discriminate].
      cbn [rbind] in Ha.
      destruct (cat_dim1_triple b nl na nt lh e h) as (r & Er & Hr);
        [eapply embedding_rect; eassumption | exact He
         | eapply embedding_rect; eassumption |].
      rewrite Er in Ha. cbn [rbind fst snd] in Ha. injection Ha as <-.
      cbn [a_h a_seqlen a_start_pos]. rewrite (rect_shape1 b _ r Hb Hr).
      repeat split; apply Hr.
    + destruct (embedding (tok_embeddings m) (c_tokens c)) as [h|] eqn:Eh; [|discriminate].
      cbn [rbind] in Ha.
      destruct (cat_dim1_pair b na nt e h) as (Er & Hr);
        [exact He | eapply embedding_rect; eassumption |].
      rewrite Er in Ha. cbn [rbind fst snd] in Ha. injection Ha as <-.
      cbn [a_h a_seqlen a_start_pos]. rewrite (rect_shape1 b _ _ Hb Hr).
      repeat split; apply Hr.
  - destruct (embedding (tok_embeddings m) (c_tokens c)) as [h|] eqn:Eh; [|discriminate].
    cbn [rbind fst snd] in Ha. injection Ha as <-.
    cbn [a_h a_seqlen a_start_pos].
    pose proof (embedding_rect _ _ _ b nt Eh Ht) as Hr.
    rewrite (rect_shape1 b _ _ Hb Hr). repeat split; apply Hr.
Qed.

Lemma assemble_streaming_shape m (b : nat) (c : Call V) (a : Assembled V F) :
  (0 < b)%nat -> streaming_shaped b c ->
  assemble m (c_tokens c) (c_start_pos c) (c_audio_out c) (c_left_prompts c) = Ok a ->
  rect b (a_seqlen a) (a_h a) /\ a_seqlen a = 1%nat /\ a_mask a = None /\
  a_start_pos a = advanced_position (c_start_pos c) (c_audio_out c) (c_left_prompts c).
Proof.
  intros Hb (Hsp & n & Hn & Ht) Ha.
  rewrite assemble_streaming in Ha by exact Hsp.
  apply rbind_Ok in Ha as (h & Hh & [= <-]). cbn [a_h a_seqlen a_start_pos a_mask].
  pose proof (embedding_rect _ _ _ b 1 Hh (rect_last_tokens _ b n Hn Ht)) as Hr.
  rewrite (rect_shape1 b 1 h Hb Hr). repeat split; apply Hr.
Qed.

Lemma rfold_app {A S : Type} (body : A -> S -> Result S) (xs ys : list A) (s0 : S) :
  rfold body (xs ++ ys) s0 = (do s1 <~ rfold body xs s0; rfold body ys s1).
Proof.
  revert s0. induction xs as [|x xs IH]; intros s0; cbn [app rfold rbind]; [reflexivity|].
  destruct (body x s0) as [s1|e]; cbn [rbind]; [apply IH | reflexivity].
Qed.

Lemma state_extends_trans m st1 st2 st3 :
  state_extends m st1 st2 -> state_extends m st2 st3 -> state_extends m st1 st3.
Proof.
  intros H12 H23 j Hj.
  destruct (H12 j Hj) as (d2 & Hd2 & E12). destruct (H23 j Hj) as (d3 & Hd3 & E23).
  exists d3. split; [exact Hd3|]. rewrite Hd2 in E23. cbn [default] in E23.
  eapply cache_extends_trans; eassumption.
Qed.

Lemma state_extends_refl m (b n : nat) st :
  all_cached m b n st -> state_extends m st st.
Proof.
  intros H j Hj. destruct (H j Hj) as (d & Hd & k & v & Hk & Hv & _).
  exists d. split; [exact Hd|]. rewrite Hd. cbn [default].
  intros k0 v0 Hk0 Hv0. exists k0, v0. repeat split; try assumption;
    apply Forall2_same_length_lookup_2; try reflexivity; intros; simplify_eq; reflexivity.
Qed.

Lemma session_step_Ok m (c : Call V) (ost ost' : option (IncState V)) :
  session_step m c ost = Ok ost' ->
  exists a out,
    assemble m (c_tokens c) (c_start_pos c) (c_audio_out c) (c_left_prompts c) = Ok a /\
    forward_generate m (c_tokens c) (c_start_pos c) (c_audio_out c)
      (c_left_prompts c) ost = Ok (out, ost').
Proof.
  unfold session_step. intros H. apply rbind_Ok in H as ([out o] & Hfg & [= <-]).
  pose proof Hfg as Hfg'. unfold forward_generate in Hfg'.
  apply rbind_Ok in Hfg' as (a & Ha & _). exists a, out. split; assumption.
Qed.

(** Streaming calls on a primed state: one more cached position per call,
    nothing removed. *)
Lemma streaming_grows m (b : nat) (streams : list (Call V)) :
  (0 < b)%nat -> Forall (streaming_shaped b) streams ->
  forall (n : nat) st (ost : option (IncState V)),
    all_cached m b n st ->
    run_session m streams (Some st) = Ok ost ->
    exists s', ost = Some s' /\ all_cached m b (n + length streams) s' /\
               state_extends m st s'.
Proof.
  intros Hb Hs. induction Hs as [|c cs Hc _ IH]; intros n st ost Hinv Hrun.
  - cbn [run_session rfold] in Hrun. injection Hrun as <-. exists st.
    split; [reflexivity|]. cbn [length]. rewrite Nat.add_0_r.
    split; [exact Hinv | eapply state_extends_refl; exact Hinv].
  - unfold run_session in Hrun. cbn [rfold] in Hrun.
    apply rbind_Ok in Hrun as (o1 & Hstep & Hrest).
    apply session_step_Ok in Hstep as (a & out & Ha & Hfg).
    destruct (assemble_streaming_shape m b c a Hb Hc Ha) as (Hh & Hone & _).
    destruct (forward_generate_grows m b n _ _ _ _ st a Hb Ha Hh
                (all_cached_weaken m b n st Hinv)) as [_ Hpost].
    destruct (Hpost out o1 Hfg) as (s1 & -> & Hinv1 & Hext1).
    rewrite Hone in Hinv1.
    destruct (IH (n + 1)%nat s1 ost Hinv1 Hrest) as (s' & -> & Hinv' & Hext').
    exists s'. split; [reflexivity|]. cbn [length].
    replace (n + S (length cs))%nat with (n + 1 + length cs)%nat by lia.
    split; [exact Hinv' | eapply state_extends_trans; eassumption].
Qed.

(** C4.  In a session that starts from an empty state with one priming
    call and goes on with streaming calls, every call that returns leaves
    in each layer a key cache and a value cache of the batch extent and of
    sequence length the assembled prefix length P plus the number N of
    streaming calls made so far; and the caches only grow by appending:
    what was cached after any earlier call of the session is, row by row,
    an initial segment of what is cached at the end. *)
Theorem cache_length_exact m (b : nat) (prime : Call V) (streams : list (Call V))
    (ost : option (IncState V)) :
  (0 < b)%nat -> c_start_pos prime = 0 -> priming_shaped b prime ->
  Forall (streaming_shaped b) streams ->
  run_session m (prime :: streams) (Some ∅) = Ok ost ->
  exists st', ost = Some st' /\
    (forall i, (i < length (layers m))%nat ->
       exists d k v, st' !! i = Some d /\
         d !! "prev_key" = Some (Some k) /\ d !! "prev_value" = Some (Some v) /\
         rect b (prefix_length prime + length streams) k /\
         rect b (prefix_length prime + length streams) v) /\
    (forall earlier later, streams = earlier ++ later ->
       exists st1, run_session m (prime :: earlier) (Some ∅) = Ok (Some st1) /\
         all_cached m b (prefix_length prime + length earlier) st1 /\
         state_extends m st1 st').
Proof.
  intros Hb Hsp Hprime Hstreams Hrun.
  unfold run_session in Hrun. cbn [rfold] in Hrun.
  apply rbind_Ok in Hrun as (o1 & Hstep & Hrest).
  pose proof Hstep as Hstep0.
  apply session_step_Ok in Hstep as (a & out & Ha & Hfg).
  destruct (assemble_priming_shape m b prime a Hb Hsp Hprime Ha) as (Hh & HP & _).
  destruct (forward_generate_grows m b 0 _ _ _ _ ∅ a Hb Ha Hh (fresh_session m b))
    as [_ Hpost].
  destruct (Hpost out o1 Hfg) as (s1 & -> & Hinv1 & _).
  cbn [Init.Nat.add] in Hinv1. rewrite HP in Hinv1.
  destruct (streaming_grows m b streams Hb Hstreams _ s1 ost Hinv1 Hrest)
    as (st' & -> & Hinv' & _).
  exists st'. split; [reflexivity|]. split.
  - intros i Hi. destruct (Hinv' i Hi) as (d & Hd & k & v & Hk & Hv & Hrk & Hrv).
    exists d, k, v. repeat split; assumption || apply Hrk || apply Hrv.
  - intros earlier later ->.
    apply Forall_app in Hstreams as [Hearly Hlate].
    change (rfold (session_step m) (earlier ++ later) (Some s1))
      with (run_session m (earlier ++ later) (Some s1)) in Hrest.
    unfold run_session in Hrest. rewrite rfold_app in Hrest.
    apply rbind_Ok in Hrest as (o2 & Hearlier & Hlater).
    destruct (streaming_grows m b earlier Hb Hearly _ s1 o2 Hinv1 Hearlier)
      as (s2 & -> & Hinv2 & _).
    destruct (streaming_grows m b later Hb Hlate _ s2 (Some st') Hinv2 Hlater)
      as (s3 & [= <-] & _ & Hext).
    exists s2. split; [|split; [exact Hinv2 | exact Hext]].
    unfold run_session. cbn [rfold]. rewrite Hstep0. cbn [rbind]. exact Hearlier.
Qed.

(** *** Sessions that run to the end *)

Lemma rmap_is_Ok {A B : Type} (f : A -> Result B) (xs : list A) :
  Forall (fun x => is_Ok (f x)) xs -> is_Ok (rmap f xs).
Proof.
  induction 1 as [|x xs [y Hy] _ [ys IH]]; cbn [rmap].
  - eexists. reflexivity.
  - rewrite Hy. cbn [rbind]. rewrite IH. cbn [rbind]. eexists. reflexivity.
Qed.

Lemma embedding_valid m (tokens : Tokens) :
  tokens_valid m tokens -> is_Ok (embedding (tok_embeddings m) tokens).
Proof.
  intros H. unfold embedding. apply rmap_is_Ok.
  eapply Forall_impl; [exact H|]. intros row Hrow. apply rmap_is_Ok.
  eapply Forall_impl; [exact Hrow|]. intros id Hid. cbv beta in *.
  unfold embed_id. destruct (Z.ltb_spec id 0); [lia|].
  destruct (lookup_lt_is_Some_2 (tok_embeddings m) (Z.to_nat id)) as [v ->]; [lia|].
  eexists. reflexivity.
Qed.

Lemma tokens_valid_last m (tokens : Tokens) :
  tokens_valid m tokens ->
  tokens_valid m (map (fun row => py_slice_from row (-1)) tokens).
Proof.
  intros H. unfold tokens_valid. apply Forall_map.
  eapply Forall_impl; [exact H|]. intros row Hrow. cbv beta.
  unfold py_slice_from. apply Forall_drop. exact Hrow.
Qed.

Lemma py_slice_head {X : Type} (l : list X) (n : nat) :
  (n <= length l)%nat -> length (py_slice l 0 (0 + Z.of_nat n)) = n.
Proof.
  intros Hn. unfold py_slice, slice_bound.
  cbn [Z.ltb Z.compare]. destruct (Z.ltb_spec (0 + Z.of_nat n) 0); [lia|].
  rewrite length_take, length_drop. lia.
Qed.

Lemma length_triu_neg_inf (n : nat) (d : Z) : length (triu_neg_inf n d) = n.
Proof. unfold triu_neg_inf. rewrite length_map, length_seq. reflexivity. Qed.

Lemma priming_assembles m (b : nat) (c : Call V) :
  (0 < b)%nat -> priming_admissible m b c ->
  exists a,
    assemble m (c_tokens c) (c_start_pos c) (c_audio_out c) (c_left_prompts c) = Ok a /\
    length (a_freqs_cis a) = a_seqlen a /\
    mask_fits (a_mask a) (0 + a_seqlen a) = true.
Proof.
  intros Hb (Hsp & Hshape & Hvalid & Hleft & Hlen).
  assert (Hok : is_Ok (assemble m (c_tokens c) (c_start_pos c) (c_audio_out c)
                         (c_left_prompts c))).
  { destruct Hshape as ((nt & Ht) & Haud & Hlp).
    destruct (embedding_valid m _ Hvalid) as [h Hh].
    pose proof (embedding_rect _ _ _ b nt Hh Ht) as Hrh.
    unfold assemble. rewrite Hsp. cbn [Z.eqb]. rewrite Hh.
    destruct (c_audio_out c) as [e|].
    - destruct (Haud e eq_refl) as [na He].
      destruct (c_left_prompts c) as [lp|].
      + destruct (Hlp lp eq_refl) as [nl Hrlp].
        destruct (embedding_valid m lp (Hleft lp eq_refl)) as [lh Hlh].
        rewrite Hlh. cbn [rbind].
        destruct (cat_dim1_triple b nl na nt lh e h) as (r & -> & _);
          [eapply embedding_rect; eassumption | assumption | assumption |].
        cbn [rbind]. eexists. reflexivity.
      + cbn [rbind].
        destruct (cat_dim1_pair b na nt e h He Hrh) as [-> _].
        cbn [rbind]. eexists. reflexivity.
    - cbn [rbind]. eexists. reflexivity. }
  destruct Hok as [a Ha]. exists a. split; [exact Ha|].
  destruct (assemble_priming_shape m b c a Hb Hsp Hshape Ha) as (_ & HP & Hzero).
  destruct (assemble_fields m _ _ _ _ _ Ha) as [_ Hfreqs].
  split.
  - rewrite Hfreqs, Hzero. apply py_slice_head. rewrite HP. exact Hlen.
  - unfold assemble in Ha. apply rbind_Ok in Ha as (hs & _ & [= <-]).
    cbn [a_mask a_seqlen]. destruct (Nat.ltb 1 (shape1 (fst hs))); [|reflexivity].
    cbn [mask_fits]. rewrite length_triu_neg_inf. apply Nat.eqb_refl.
Qed.

Lemma streaming_assembles m (b : nat) (c : Call V) :
  (0 < b)%nat -> streaming_admissible m b c ->
  exists a,
    assemble m (c_tokens c) (c_start_pos c) (c_audio_out c) (c_left_prompts c) = Ok a /\
    length (a_freqs_cis a) = a_seqlen a /\
    forall n, mask_fits (a_mask a) (n + a_seqlen a) = true.
Proof.
  intros Hb (Hshape & Hvalid & Hpos).
  destruct (embedding_valid m _ (tokens_valid_last m _ Hvalid)) as [h Hh].
  pose proof (assemble_streaming m (c_tokens c) (c_start_pos c) (c_audio_out c)
                (c_left_prompts c) (proj1 Hshape)) as E.
  rewrite Hh in E. cbn [rbind] in E.
  eexists. split; [exact E|].
  destruct (assemble_streaming_shape m b c _ Hb Hshape E) as (_ & Hone & _).
  cbn [a_seqlen] in Hone. cbn [a_freqs_cis a_seqlen a_mask mask_fits].
  split; [|reflexivity]. rewrite Hone. change (Z.of_nat 1) with 1.
  destruct (py_slice_one (freqs_cis m) _ Hpos) as (f & _ & ->). reflexivity.
Qed.

Lemma streaming_runs m (b : nat) (streams : list (Call V)) :
  (0 < b)%nat -> Forall (fun blk => kind blk = LoRA) (layers m) ->
  Forall (streaming_admissible m b) streams ->
  forall (n : nat) st,
    all_cached m b n st -> is_Ok (run_session m streams (Some st)).
Proof.
  intros Hb Hk Hs. induction Hs as [|c cs Hc _ IH]; intros n st Hinv.
  - eexists. reflexivity.
  - destruct (streaming_assembles m b c Hb Hc) as (a & Ha & Hf & Hm).
    destruct (assemble_streaming_shape m b c a Hb (proj1 Hc) Ha) as (Hh & Hone & _).
    destruct (forward_generate_grows m b n _ _ _ _ st a Hb Ha Hh
                (all_cached_weaken m b n st Hinv)) as [Hok Hpost].
    destruct (Hok Hk Hf (Hm n)) as [[out o1] Hfg].
    destruct (Hpost out o1 Hfg) as (s1 & -> & Hinv1 & _).
    unfold run_session, session_step. cbn [rfold]. rewrite Hfg. cbn [rbind snd].
    apply (IH _ s1 Hinv1).
Qed.

(** A session of admissible calls on a LoRA model runs to the end. *)
Lemma session_runs m (b : nat) (prime : Call V) (streams : list (Call V)) :
  (0 < b)%nat -> Forall (fun blk => kind blk = LoRA) (layers m) ->
  priming_admissible m b prime ->
  Forall (streaming_admissible m b) streams ->
  is_Ok (run_session m (prime :: streams) (Some ∅)).
Proof.
  intros Hb Hk Hp Hs.
  destruct (priming_assembles m b prime Hb Hp) as (a & Ha & Hf & Hm).
  destruct Hp as (Hsp & Hshape & _).
  destruct (assemble_priming_shape m b prime a Hb Hsp Hshape Ha) as (Hh & _).
  destruct (forward_generate_grows m b 0 _ _ _ _ ∅ a Hb Ha Hh (fresh_session m b))
    as [Hok Hpost].
  destruct (Hok Hk Hf Hm) as [[out o1] Hfg].
  destruct (Hpost out o1 Hfg) as (s1 & -> & Hinv1 & _).
  unfold run_session, session_step. cbn [rfold]. rewrite Hfg. cbn [rbind snd].
  apply (streaming_runs m b streams Hb Hk Hs _ s1 Hinv1).
Qed.

End Cache.

Lemma cache_length_exact_witness :
  exists st',
    run_session (toy_model 2 16) (toy_prime :: toy_streams) (Some ∅) = Ok (Some st') /\
    forall i, (i < 2)%nat ->
      exists d k v, st' !! i = Some d /\
        d !! "prev_key" = Some (Some k) /\ d !! "prev_value" = Some (Some v) /\
        rect 1 8 k /\ rect 1 8 v.
Proof.
  assert (Hrun : is_Ok (run_session (toy_model 2 16) (toy_prime :: toy_streams)
                          (Some ∅)))
    by (vm_compute; eexists; reflexivity).
  destruct Hrun as [ost Hrun].
  destruct (cache_length_exact (toy_model 2 16) 1 toy_prime toy_streams ost)
    as (st' & -> & Hlen & _).
  - lia.
  - reflexivity.
  - split; [exists 2%nat; one_row|].
    split.
    + intros e [= <-]. exists 4%nat. one_row.
    + intros lp [=].
  - constructor; [|constructor; [|constructor]].
    + split; [discriminate|]. exists 3%nat. split; [lia | one_row].
    + split; [discriminate|]. exists 4%nat. split; [lia | one_row].
  - exact Hrun.
  - exists st'. split; [exact Hrun | exact Hlen].
Defined.

(** *** Reordering *)

Section TraverseFacts.
Context {K : Type} `{Countable K} {A : Type}.

Lemma update_all_Ok (g : A -> Result A) (d0 m : gmap K A) :
  map_Forall (fun _ v => is_Ok (g v)) m ->
  update_all g d0 m = Ok ((total g <$> m) ∪ d0).
Proof.
  unfold update_all.
  apply (map_fold_weak_ind
           (fun r m => map_Forall (fun _ v => is_Ok (g v)) m ->
                       r = Ok ((total g <$> m) ∪ d0))).
  - intros _. rewrite fmap_empty, (left_id_L ∅ (∪)). reflexivity.
  - intros i x m' r Hi IH Hall.
    apply map_Forall_insert in Hall as [[x' Hx] Hall]; [|exact Hi].
    rewrite (IH Hall). cbn [rbind]. rewrite Hx. cbn [rbind].
    rewrite fmap_insert, <- insert_union_l. unfold total. rewrite Hx. reflexivity.
Qed.

Lemma update_all_inv (g : A -> Result A) (d0 m r : gmap K A) :
  update_all g d0 m = Ok r -> map_Forall (fun _ v => is_Ok (g v)) m.
Proof.
  unfold update_all. revert r.
  apply (map_fold_weak_ind
           (fun res m => forall r, res = Ok r ->
                                   map_Forall (fun _ v => is_Ok (g v)) m)).
  - intros r _. apply map_Forall_empty.
  - intros i x m' res Hi IH r Hr.
    apply rbind_Ok in Hr as (d' & -> & Hr).
    apply rbind_Ok in Hr as (x' & Hx & _).
    apply map_Forall_insert; [exact Hi|]. split.
    + exists x'. exact Hx.
    + eapply IH. reflexivity.
Qed.

Lemma fmap_union_self (f : A -> A) (m : gmap K A) : (f <$> m) ∪ m = f <$> m.
Proof.
  apply map_eq. intros k. rewrite lookup_union, !lookup_fmap.
  destruct (m !! k); reflexivity.
Qed.

(** Updating a dictionary in place: the call returns exactly when every
    entry can be updated, and then every entry has been. *)
Lemma update_in_place (g : A -> Result A) (m r : gmap K A) :
  update_all g m m = Ok r <->
  map_Forall (fun _ v => is_Ok (g v)) m /\ r = total g <$> m.
Proof.
  split.
  - intros Hr. pose proof (update_all_inv g m m r Hr) as Hall.
    split; [exact Hall|].
    rewrite (update_all_Ok g m m Hall), fmap_union_self in Hr. congruence.
  - intros [Hall ->]. rewrite (update_all_Ok g m m Hall), fmap_union_self.
    reflexivity.
Qed.

End TraverseFacts.

Section Reorder.
Context {V : Type}.
Implicit Types (d : LayerCache V) (st : IncState V) (t : Tensor V).

Lemma reorder_layer_update (new_order : list Z) d :
  reorder_layer new_order d = update_all (reorder_entry new_order) d d.
Proof. reflexivity. Qed.

Lemma reorder_state_update (new_order : list Z) st :
  reorder_incremental_state_scripting st new_order
  = update_all (reorder_layer new_order) st st.
Proof. reflexivity. Qed.

Lemma index_select0_shift (pre t : Tensor V) (n : nat) :
  index_select0 (pre ++ t) (map Z.of_nat (seq (length pre) n))
  = index_select0 t (map Z.of_nat (seq 0 n)).
Proof.
  unfold index_select0. rewrite <- (Nat.add_0_r (length pre)) at 1.
  generalize 0%nat as k. induction n as [|n IH]; intros k; [reflexivity|].
  cbn [seq map rmap].
  destruct (Z.ltb_spec (Z.of_nat (length pre + k)) 0); [lia|].
  destruct (Z.ltb_spec (Z.of_nat k) 0); [lia|].
  rewrite !Nat2Z.id, lookup_app_r by lia.
  replace (length pre + k - length pre)%nat with k by lia.
  replace (S (length pre + k)) with (length pre + S k)%nat by lia.
  rewrite IH. reflexivity.
Qed.

(** Selecting the rows 0, 1, ..., b - 1 of a tensor of b rows gives the
    tensor back. *)
Lemma index_select0_identity t :
  index_select0 t (identity_order (length t)) = Ok t.
Proof.
  unfold identity_order. induction t as [|row t IH]; [reflexivity|].
  cbn [length seq map].
  change (index_select0 (row :: t) (Z.of_nat 0 :: map Z.of_nat (seq 1 (length t))))
    with (do y <~ Ok row;
          do ys <~ index_select0 ([row] ++ t)
                     (map Z.of_nat (seq (length [row]) (length t)));
          Ok (y :: ys)).
  cbn [rbind]. rewrite (index_select0_shift [row] t (length t)), IH.
  reflexivity.
Qed.

Lemma index_select0_in_range t (new_order : list Z) :
  Forall (fun i => 0 <= i < Z.of_nat (length t)) new_order ->
  is_Ok (index_select0 t new_order).
Proof.
  intros H. unfold index_select0. apply rmap_is_Ok.
  eapply Forall_impl; [exact H|]. intros i Hi. cbv beta in *.
  destruct (Z.ltb_spec i 0); [lia|].
  destruct (lookup_lt_is_Some_2 t (Z.to_nat i)) as [row ->]; [lia|].
  eexists. reflexivity.
Qed.

Lemma reorder_layer_in_range (b : nat) (new_order : list Z) d :
  (forall name t, d !! name = Some (Some t) -> length t = b) ->
  Forall (fun i => 0 <= i < Z.of_nat b) new_order ->
  reorder_layer new_order d = Ok (total (reorder_entry new_order) <$> d).
Proof.
  intros Hb Hr. rewrite reorder_layer_update. apply update_in_place.
  split; [|reflexivity]. intros name [t|] Hv.
  - unfold reorder_entry.
    destruct (index_select0_in_range t new_order) as [t' ->].
    + rewrite (Hb name t Hv). exact Hr.
    + eexists. reflexivity.
  - eexists. reflexivity.
Qed.

(** What a successful reordering leaves at one entry. *)
Lemma reorder_layer_lookup (new_order : list Z) d d' (name : string) :
  reorder_layer new_order d = Ok d' ->
  match d !! name with
  | None => d' !! name = None
  | Some None => d' !! name = Some None
  | Some (Some t) =>
      exists t', index_select0 t new_order = Ok t' /\ d' !! name = Some (Some t')
  end.
Proof.
  rewrite reorder_layer_update. intros Hd.
  apply update_in_place in Hd as [Hall ->]. rewrite lookup_fmap.
  destruct (d !! name) as [[t|]|] eqn:E; cbn; try reflexivity.
  destruct (Hall name (Some t) E) as [v Hv]. unfold total. rewrite Hv.
  unfold reorder_entry in Hv. apply rbind_Ok in Hv as (t' & Ht' & [= <-]).
  exists t'. split; [exact Ht' | reflexivity].
Qed.

Lemma reorder_state_lookup (new_order : list Z) st (ost : IncState V) (key : nat) :
  reorder_incremental_state_scripting st new_order = Ok ost ->
  match st !! key with
  | None => ost !! key = None
  | Some d => exists d', reorder_layer new_order d = Ok d' /\ ost !! key = Some d'
  end.
Proof.
  rewrite reorder_state_update. intros Hs.
  apply update_in_place in Hs as [Hall ->]. rewrite lookup_fmap.
  destruct (st !! key) as [d|] eqn:E; cbn; [|reflexivity].
  destruct (Hall key d E) as [d' Hd']. exists d'. split; [exact Hd'|].
  unfold total. rewrite Hd'. reflexivity.
Qed.

Lemma identity_order_in_range (b : nat) :
  Forall (fun i => 0 <= i < Z.of_nat b) (identity_order b).
Proof.
  unfold identity_order. apply Forall_forall. intros i Hi.
  apply list_elem_of_In, in_map_iff in Hi as (j & <- & Hj).
  apply in_seq in Hj. lia.
Qed.

Lemma reorder_layer_identity (b : nat) d :
  (forall name t, d !! name = Some (Some t) -> length t = b) ->
  reorder_layer (identity_order b) d = Ok d.
Proof.
  intros Hb.
  rewrite (reorder_layer_in_range b _ d Hb (identity_order_in_range b)).
  f_equal. apply map_eq. intros name. rewrite lookup_fmap.
  destruct (d !! name) as [[t|]|] eqn:E; cbn; try reflexivity.
  unfold total, reorder_entry.
  rewrite <- (Hb name t E), index_select0_identity. reflexivity.
Qed.

(** C8.  On a state whose cached tensors all have [b] batch rows,
    [reorder_incremental_state_scripting] with the identity order
    0, 1, ..., b - 1 returns and leaves the state, hence every cached key
    and value tensor, as it was.  With any order that names existing rows
    (every permutation of the batch does) the call returns; and whenever
    it returns, for any order at all, the layers and the entry names are
    those of before, an entry that is [None] is still [None], and a tensor
    entry holds the selected rows. *)
Theorem reorder_identity_and_absent (b : nat) st :
  batch_is b st ->
  reorder_incremental_state_scripting st (identity_order b) = Ok st /\
  (forall new_order, Forall (fun i => 0 <= i < Z.of_nat b) new_order ->
     is_Ok (reorder_incremental_state_scripting st new_order)) /\
  (forall new_order (ost : IncState V),
     reorder_incremental_state_scripting st new_order = Ok ost ->
     forall key,
       match st !! key with
       | None => ost !! key = None
       | Some d =>
           exists d', ost !! key = Some d' /\
             forall name : string,
               match d !! name with
               | None => d' !! name = None
               | Some None => d' !! name = Some None
               | Some (Some t) =>
                   exists t', index_select0 t new_order = Ok t' /\
                              d' !! name = Some (Some t')
               end
       end).
Proof.
  intros Hb. split; [|split].
  - rewrite reorder_state_update. apply update_in_place. split.
    + intros key d Hd. cbv beta. rewrite (reorder_layer_identity b d).
      * eexists. reflexivity.
      * intros name t. apply (Hb key d name t Hd).
    + apply map_eq. intros key. rewrite lookup_fmap.
      destruct (st !! key) as [d|] eqn:E; cbn; [|reflexivity].
      unfold total. rewrite (reorder_layer_identity b d); [reflexivity|].
      intros name t. apply (Hb key d name t E).
  - intros new_order Hr. rewrite reorder_state_update.
    eexists. apply update_in_place. split; [|reflexivity].
    intros key d Hd. cbv beta. rewrite (reorder_layer_in_range b new_order d).
    + eexists. reflexivity.
    + intros name t. apply (Hb key d name t Hd).
    + exact Hr.
  - intros new_order ost Hs key.
    pose proof (reorder_state_lookup new_order st ost key Hs) as Hk.
    destruct (st !! key) as [d|]; [|exact Hk].
    destruct Hk as (d' & Hd' & Hlook). exists d'. split; [exact Hlook|].
    intros name. apply reorder_layer_lookup. exact Hd'.
Qed.

End Reorder.

Lemma reorder_identity_and_absent_witness :
  reorder_incremental_state_scripting toy_state (identity_order 2) = Ok toy_state /\
  is_Ok (reorder_incremental_state_scripting toy_state [1; 0]).
Proof.
  assert (Hb : batch_is 2 toy_state).
  { intros key d name t Hd Ht. unfold toy_state in Hd.
    apply lookup_singleton_Some in Hd as [<- <-].
    apply lookup_insert_Some in Ht as [[<- [= <-]]|[_ Ht]]; [reflexivity|].
    apply lookup_singleton_Some in Ht as [_ [=]]. }
  destruct (reorder_identity_and_absent 2 toy_state Hb) as (Hid & Hok & _).
  split; [exact Hid|]. apply Hok.
  constructor; [lia | constructor; [lia | constructor]].
Defined.

End DecoderFacts.

(* ===================================================================== *)
(** * Part III: further properties of the code                            *)
(* ===================================================================== *)

(** ** Construction: rounding and arithmetic errors *)

Module ConfigEdge.
Import Config ConfigFacts.



Lemma rmap_first_Err {A B : Type} (f : A -> Result B) (x : A) (xs : list A)
    (e : Error) :
  f x = Err e -> rmap f (x :: xs) = Err e.
Proof. intros H. cbn [rmap]. rewrite H. reflexivity. Qed.

Lemma range_positive (n : Z) :
  0 < n -> exists xs, range n = 0 :: xs.
Proof.
  intros Hn. unfold range.
  destruct (Z.to_nat n) as [|k] eqn:E; [lia|].
  cbn [seq map]. eexists. reflexivity.
Qed.

(** X2.  A head count of 0 makes [LLAMA.__init__] raise
    [ZeroDivisionError], whatever the number of layers: from the first
    block when there is one, from the rotary table otherwise. *)
Theorem zero_heads_cannot_be_built (args : ModelArgs) :
  n_heads args = 0 -> 0 <= dim args -> 0 <= vocab_size args ->
  LLAMA_init args = Err ZeroDivisionError.
Proof.
  intros Hn Hd Hv. unfold LLAMA_init.
  rewrite alloc_nonneg by (repeat constructor; assumption). cbn [rbind].
  assert (Hblk : forall i, TransformerBlock_init i args = Err ZeroDivisionError).
  { intros i. unfold TransformerBlock_init, floordiv. rewrite Hn. reflexivity. }
  unfold range. destruct (Z.to_nat (n_layers args)) as [|k].
  - cbn [seq map rmap rbind]. unfold RMSNorm_init.
    rewrite alloc_nonneg by (repeat constructor; assumption). cbn [rbind].
    rewrite Linear_nonneg by assumption. cbn [rbind].
    unfold floordiv. rewrite Hn. reflexivity.
  - cbn [seq map].
    rewrite (rmap_first_Err (fun layer_id => TransformerBlock_init layer_id args)
               _ _ ZeroDivisionError (Hblk _)).
    reflexivity.
Qed.

(** The defaults with the head count set to 0. *)
Lemma zero_heads_cannot_be_built_witness :
  LLAMA_init {| dim := 4096; n_layers := 32; n_heads := 0; vocab_size := 32000;
                multiple_of := 256; norm_eps := 1 # 1000000; max_seq_len := 1024;
                gradient_checkpointing := false; use_lora := true; lora_r := 8;
                lora_alpha := 32; lora_dropout := 1 # 10; flash_attention := false;
                use_xformers := false; enable_fsdp := false |}
  = Err ZeroDivisionError.
Proof. apply zero_heads_cannot_be_built; simpl; lia. Defined.

(** X3.  With adapters switched on, a rank of 0 makes the construction of
    a model of at least one layer raise [ZeroDivisionError] (the gain
    [lora_alpha / lora_r]), although every tensor of the layer can be
    allocated. *)
Theorem zero_rank_cannot_be_built (args : ModelArgs) :
  use_lora args = true -> lora_r args = 0 -> 0 < n_layers args ->
  0 < n_heads args -> 0 <= dim args -> 0 <= vocab_size args ->
  LLAMA_init args = Err ZeroDivisionError.
Proof.
  intros Hl Hr Hn Hh Hd Hv. unfold LLAMA_init.
  rewrite alloc_nonneg by (repeat constructor; assumption). cbn [rbind].
  destruct (range_positive _ Hn) as [xs ->].
  rewrite (rmap_first_Err (fun layer_id => TransformerBlock_init layer_id args)
             _ _ ZeroDivisionError); [reflexivity|].
  assert (0 <= dim args / n_heads args) by (apply Z.div_pos; lia).
  assert (0 <= n_heads args * (dim args / n_heads args)) by nia.
  unfold TransformerBlock_init. rewrite floordiv_nonzero by lia. cbn [rbind].
  rewrite Hl. unfold Attention_LoRA_init.
  rewrite floordiv_nonzero by lia. cbn [rbind].
  rewrite !Linear_nonneg by assumption. cbn [rbind].
  rewrite !new_lora_nonneg by lia. cbn [rbind].
  rewrite Hr. reflexivity.
Qed.

Lemma zero_rank_cannot_be_built_witness :
  LLAMA_init {| dim := 4096; n_layers := 32; n_heads := 32; vocab_size := 32000;
                multiple_of := 256; norm_eps := 1 # 1000000; max_seq_len := 1024;
                gradient_checkpointing := false; use_lora := true; lora_r := 0;
                lora_alpha := 32; lora_dropout := 1 # 10; flash_attention := false;
                use_xformers := false; enable_fsdp := false |}
  = Err ZeroDivisionError.
Proof. apply zero_rank_cannot_be_built; simpl; (reflexivity || lia). Defined.

(** X4.  A rounding factor of 0 makes the construction of a model of at
    least one layer raise [ZeroDivisionError]: the attention of the first
    block is built, its feed-forward block divides by the factor. *)
Theorem zero_multiple_cannot_be_built (args : ModelArgs) :
  multiple_of args = 0 -> 0 < n_layers args ->
  0 < n_heads args -> 0 <= dim args -> 0 <= vocab_size args ->
  (use_lora args = true -> 0 < lora_r args /\ (lora_dropout args <= 1)%Q) ->
  LLAMA_init args = Err ZeroDivisionError.
Proof.
  intros Hm Hn Hh Hd Hv Hl. unfold LLAMA_init.
  rewrite alloc_nonneg by (repeat constructor; assumption). cbn [rbind].
  destruct (range_positive _ Hn) as [xs ->].
  rewrite (rmap_first_Err (fun layer_id => TransformerBlock_init layer_id args)
             _ _ ZeroDivisionError); [reflexivity|].
  assert (Hatt : exists att,
             (if use_lora args then Attention_LoRA_init args
              else Attention_init args) = Ok att).
  { destruct (use_lora args).
    - destruct Hl as [Hr Hp]; [reflexivity|].
      destruct (Attention_LoRA_init_floor args Hh Hd Hr Hp) as (att & -> & _).
      eexists. reflexivity.
    - destruct (Attention_init_floor args Hh Hd) as (att & -> & _).
      eexists. reflexivity. }
  destruct Hatt as [att Hatt].
  unfold TransformerBlock_init. rewrite floordiv_nonzero by lia. cbn [rbind].
  rewrite Hatt. cbn [rbind].
  unfold FeedForward_init, ffn_hidden_dim, int_truediv. cbn [Z.eqb rbind].
  unfold floordiv. rewrite Hm. reflexivity.
Qed.

Lemma zero_multiple_cannot_be_built_witness :
  LLAMA_init {| dim := 4096; n_layers := 32; n_heads := 32; vocab_size := 32000;
                multiple_of := 0; norm_eps := 1 # 1000000; max_seq_len := 1024;
                gradient_checkpointing := false; use_lora := true; lora_r := 8;
                lora_alpha := 32; lora_dropout := 1 # 10; flash_attention := false;
                use_xformers := false; enable_fsdp := false |}
  = Err ZeroDivisionError.
Proof.
  apply zero_multiple_cannot_be_built; simpl; try (reflexivity || lia).
  intros _. split; [lia|]. unfold Qle. simpl. lia.
Defined.

End ConfigEdge.

(** ** The adapted projections when the head count does not divide the width *)

Module LoRAEdge.
Import LoRA LoRAFacts.

Section Mismatch.
Context {R : Type} (rzero : R) (radd rmul : R -> R -> R).

Lemma zip_exact_lengths {A B C : Type} (g : A -> B -> C) (u : list A) (v : list B) :
  length u <> length v ->
  zip_exact (fun a b => Ok (g a b)) u v = Err RuntimeError.
Proof.
  revert v. induction u as [|a u IH]; intros [|b v] Hlen;
    cbn [zip_exact rbind length] in *; try reflexivity; try congruence.
  rewrite IH by congruence. reflexivity.
Qed.

(** X5.  A base weight of [k] output features with [k] different from the
    model width [d] (what the constructor builds when the head count does
    not divide the width) makes the adapted projection raise on every
    non-empty input of width [d]: the base output is [k] wide, the adapter
    term [d] wide, and their sum is refused.  (Widths other than 1, which
    would broadcast.) *)
Theorem adapter_sum_refused (att : Attention_LoRA R) (k d r : nat)
    (W A B : Matrix R) (row : list R) (X : Matrix R) (xs : Tensor3 R) :
  k <> d -> k <> 1%nat -> d <> 1%nat -> (0 < k)%nat -> (0 < d)%nat -> (0 < r)%nat ->
  is_matrix k d W -> is_matrix d r A -> is_matrix r d B ->
  has_width d ((row :: X) :: xs) ->
  same_shape (lora_dropout att ((row :: X) :: xs)) ((row :: X) :: xs) ->
  is_Ok (linear rzero radd rmul W ((row :: X) :: xs)) /\
  adapted rzero radd rmul att W A B ((row :: X) :: xs) = Err RuntimeError.
Proof.
  intros Hkd _ _ Hk Hd Hr HW HA HB Hx Hdrop.
  pose proof (is_matrix_shape1 k d W Hk HW) as HsW.
  pose proof (is_matrix_shape1 d r A Hd HA) as HsA.
  pose proof (is_matrix_shape1 r d B Hr HB) as HsB.
  assert (Hbase := linear_value rzero radd rmul W ((row :: X) :: xs)).
  rewrite HsW in Hbase. specialize (Hbase Hx).
  split; [rewrite Hbase; eexists; reflexivity|].
  unfold adapted. rewrite Hbase. cbn [rbind].
  rewrite matmul_value
    by (rewrite (proj1 HA); apply (has_width_same_shape d ((row :: X) :: xs));
        assumption).
  cbn [rbind].
  rewrite matmul_value
    by (rewrite (proj1 HB); apply has_width_map; intros u;
        rewrite length_map, length_seq; exact HsA).
  cbn [rbind]. rewrite HsB.
  inversion Hdrop as [|Y X0 ys xs0 HYX _]; subst.
  inversion HYX as [|u v Y' X' _ _]; subst.
  unfold add, scale. cbn [map zip_exact].
  rewrite zip_exact_lengths; [reflexivity|].
  rewrite !length_map, length_seq. rewrite (proj1 HW). exact Hkd.
Qed.

End Mismatch.

(** Width 3 with a base weight of 2 output features, as for a head count
    of 2. *)
Lemma adapter_sum_refused_witness :
  adapted 0 Z.add Z.mul att_Z [[1; 2; 3]; [4; 5; 6]] [[1]; [1]; [1]] [[7; 8; 9]]
          [[[1; 1; 1]]]
  = Err RuntimeError.
Proof.
  refine (proj2 (adapter_sum_refused 0 Z.add Z.mul att_Z 2 3 1
                   [[1; 2; 3]; [4; 5; 6]] [[1]; [1]; [1]] [[7; 8; 9]]
                   [1; 1; 1] [] [] _ _ _ _ _ _ _ _ _ _ _)); try lia.
  - split; [reflexivity | repeat constructor].
  - split; [reflexivity | repeat constructor].
  - split; [reflexivity | repeat constructor].
  - repeat constructor.
  - repeat constructor.
Defined.

Section ZeroGain.
Context {R : Type} (rzero : R) (radd rmul : R -> R -> R).

(** Two laws of exact arithmetic.  (They hold for floating-point numbers
    that are finite.) *)
Hypothesis radd_0_r : forall a, radd a rzero = a.
Hypothesis rmul_0_r : forall a, rmul a rzero = rzero.

Lemma adapted_zero_gain (att : Attention_LoRA R) (d r : nat) (W A B : Matrix R)
    (x : Tensor3 R) :
  (0 < d)%nat -> (0 < r)%nat ->
  is_matrix d d W -> is_matrix d r A -> is_matrix r d B ->
  scaling att = rzero ->
  has_width d x -> same_shape (lora_dropout att x) x ->
  adapted rzero radd rmul att W A B x = linear rzero radd rmul W x /\
  is_Ok (linear rzero radd rmul W x).
Proof.
  intros Hd Hr HW HA HB Hsc Hx Hdrop.
  pose proof (is_matrix_shape1 d d W Hd HW) as HsW.
  pose proof (is_matrix_shape1 d r A Hd HA) as HsA.
  pose proof (is_matrix_shape1 r d B Hr HB) as HsB.
  destruct HA as [HlA _]. destruct HB as [HlB HrB].
  assert (Hbase := linear_value rzero radd rmul W x).
  rewrite HsW in Hbase. specialize (Hbase Hx).
  split; [|rewrite Hbase; eexists; reflexivity].
  unfold adapted. rewrite Hbase. cbn [rbind].
  rewrite matmul_value
    by (rewrite HlA; apply (has_width_same_shape d x); assumption).
  cbn [rbind].
  rewrite matmul_value
    by (rewrite HlB; apply has_width_map; intros row;
        rewrite length_map, length_seq; exact HsA).
  cbn [rbind]. rewrite HsB, Hsc.
  apply (add_zeros rzero radd radd_0_r).
  unfold scale. rewrite !map_map.
  unfold same_shape in Hdrop. clear Hbase.
  assert (Hrow : forall (u : list R) (v : list R),
             length (map (dot rzero radd rmul u) W)
             = length (map (fun a => rmul a rzero)
                 (map (fun j => dot rzero radd rmul v (column rzero j B))
                      (seq 0 d))) /\
             Forall (fun a => a = rzero)
               (map (fun a => rmul a rzero)
                 (map (fun j => dot rzero radd rmul v (column rzero j B))
                      (seq 0 d)))).
  { intros u v. split.
    - rewrite !length_map, length_seq. destruct HW as [-> _]. reflexivity.
    - rewrite map_map. apply Forall_map. apply Forall_forall.
      intros j _. apply rmul_0_r. }
  unfold has_width in Hx.
  induction Hdrop as [|Y X y x' HYX _ IH]; [constructor|].
  apply Forall_cons in Hx as [HX Hx'].
  cbn [map]. constructor; [|apply IH; exact Hx'].
  clear -HYX Hrow.
  induction HYX as [|u v Y X _ _ IH]; [constructor|].
  cbn [map]. constructor; [apply Hrow | exact IH].
Qed.


End ZeroGain.


End LoRAEdge.

(** ** The rotary embedding: which shapes are accepted *)

Module RotaryFacts.
Import RotaryShape.

Lemma numel_4 (b s n w : nat) : numel [b; s; n; w] = (b * s * n * w)%nat.
Proof. unfold numel. cbn [foldr]. lia. Qed.

Lemma numel_3 (b s n : nat) : numel [b; s; n] = (b * s * n)%nat.
Proof. unfold numel. cbn [foldr]. lia. Qed.

Lemma complex_shape_4 (b s n hd : nat) :
  complex_shape [b; s; n; hd]
  = if Nat.eqb (b * s * n) 0 || negb (Nat.eqb (hd mod 2) 0)
    then Err RuntimeError
    else Ok [b; s; n; (hd / 2)%nat].
Proof.
  unfold complex_shape.
  change (all_but_last [b; s; n; hd]) with [b; s; n].
  rewrite numel_4, numel_3.
  set (P := (b * s * n)%nat).
  destruct (Nat.eqb_spec P 0) as [HP|HP].
  - rewrite HP. cbn [Nat.mul Nat.eqb orb]. reflexivity.
  - cbn [orb].
    assert (Hnew : Nat.eqb (P * 2) 0 = false) by (apply Nat.eqb_neq; lia).
    assert (Hpos : Nat.ltb 0 (P * 2) = true) by (apply Nat.ltb_lt; lia).
    rewrite Hnew, Hpos. cbn [andb].
    rewrite Nat.Div0.mul_mod_distr_l, Nat.Div0.div_mul_cancel_l by lia.
    destruct (Nat.eqb_spec (hd mod 2) 0) as [He|He].
    + rewrite He, Nat.mul_0_r. cbn [Nat.eqb negb].
      rewrite orb_true_r. reflexivity.
    + cbn [negb].
      assert (Hm : Nat.eqb (P * (hd mod 2)) 0 = false) by (apply Nat.eqb_neq; nia).
      rewrite Hm, orb_false_r.
      destruct (Nat.eqb_spec (P * hd) (P * 2)) as [E|_]; [|reflexivity].
      exfalso. assert (hd = 2%nat) by nia. subst hd. apply He. reflexivity.
Qed.

Lemma broadcast_dim_one (x : nat) :
  (if Nat.eqb x 1 then Ok x
   else if Nat.eqb x 1 then Ok 1%nat
   else if Nat.eqb 1 1 then Ok x else Err RuntimeError) = Ok x.
Proof. destruct (Nat.eqb x 1); reflexivity. Qed.

(** X7.  On queries and keys of one shape (b, s, n, hd),
    [apply_rotary_emb] raises a [RuntimeError] when the tensor is empty or
    the head width is odd (the pairing into complex numbers), an
    [AssertionError] when the table slice is not of shape (s, hd / 2), and
    otherwise returns two tensors of the shape of its inputs. *)
Theorem rotary_accepts (b s n hd : nat) (freqs_cis : list nat) :
  apply_rotary_emb [b; s; n; hd] [b; s; n; hd] freqs_cis
  = if Nat.eqb (b * s * n) 0 || negb (Nat.eqb (hd mod 2) 0)
    then Err RuntimeError
    else if bool_decide (freqs_cis = [s; (hd / 2)%nat])
         then Ok ([b; s; n; hd], [b; s; n; hd])
         else Err AssertionError.
Proof.
  unfold apply_rotary_emb. rewrite complex_shape_4.
  destruct (Nat.eqb (b * s * n) 0 || negb (Nat.eqb (hd mod 2) 0)) eqn:Hc;
    [reflexivity|].
  apply orb_false_elim in Hc as [_ Heven].
  apply negb_false_iff, Nat.eqb_eq in Heven.
  cbn [rbind]. unfold reshape_for_broadcast.
  change (length [b; s; n; (hd / 2)%nat]) with 4%nat.
  change (nth 1 [b; s; n; (hd / 2)%nat] 0%nat) with s.
  change (last_extent [b; s; n; (hd / 2)%nat]) with (hd / 2)%nat.
  cbn [Nat.ltb Nat.leb negb].
  destruct (bool_decide (freqs_cis = [s; (hd / 2)%nat])) eqn:Hf; [|reflexivity].
  apply bool_decide_eq_true_1 in Hf. subst freqs_cis.
  cbn [negb imap Nat.eqb Nat.sub orb compose].
  assert (Hnum : Nat.eqb (numel [s; (hd / 2)%nat])
                         (numel [1%nat; s; 1%nat; (hd / 2)%nat]) = true).
  { apply Nat.eqb_eq. unfold numel. cbn [foldr]. lia. }
  rewrite Hnum. cbn [rbind].
  unfold broadcast. cbn [rev app broadcast_rev].
  rewrite !Nat.eqb_refl. cbn [rbind].
  rewrite !broadcast_dim_one. cbn [rbind rev app].
  unfold real_flatten3. cbn [app length Nat.ltb Nat.leb take drop].
  assert (Hw : numel [(hd / 2)%nat; 2%nat] = hd).
  { unfold numel. cbn [foldr].
    pose proof (Nat.div_mod_eq hd 2). lia. }
  rewrite Hw. reflexivity.
Qed.

Lemma broadcast_rev_against_ones (a b : list nat) :
  Forall2 (fun x y => y = x \/ y = 1%nat) a b -> broadcast_rev a b = Ok a.
Proof.
  induction 1 as [|x y a b Hxy _ IH]; [reflexivity|].
  cbn [broadcast_rev]. rewrite IH.
  destruct Hxy as [->| ->].
  - rewrite Nat.eqb_refl. reflexivity.
  - rewrite broadcast_dim_one. reflexivity.
Qed.

Lemma Forall2_rev_rev {A B : Type} (P : A -> B -> Prop) (l : list A) (k : list B) :
  Forall2 P l k -> Forall2 P (rev l) (rev k).
Proof.
  induction 1 as [|x y l k Hxy _ IH]; [constructor|].
  cbn [rev]. apply Forall2_app; [exact IH | repeat constructor; exact Hxy].
Qed.

Lemma broadcast_against_ones (a b : list nat) :
  Forall2 (fun x y => y = x \/ y = 1%nat) a b -> broadcast a b = Ok a.
Proof.
  intros H. unfold broadcast.
  rewrite (broadcast_rev_against_ones _ _ (Forall2_rev_rev _ _ _ H)).
  cbn [rbind]. rewrite rev_involutive. reflexivity.
Qed.

Lemma numel_ones_last (mid : list nat) (z : nat) :
  numel (map (fun _ => 1%nat) mid ++ [z]) = z.
Proof.
  unfold numel. induction mid as [|d mid IH]; cbn [map app foldr] in *; lia.
Qed.

Lemma imap_all_ones (f : nat -> nat -> nat) (l : list nat) :
  (forall i d, l !! i = Some d -> f i d = 1%nat) ->
  imap f l = map (fun _ => 1%nat) l.
Proof.
  revert f. induction l as [|d l IH]; intros f Hf; [reflexivity|].
  rewrite imap_cons. cbn [map]. f_equal.
  - apply (Hf 0%nat d). reflexivity.
  - apply IH. intros i d' Hi. apply (Hf (S i) d'). exact Hi.
Qed.

(** The shape that [reshape_for_broadcast] builds for a tensor of rank
    three or more. *)
Lemma broadcast_shape_rank3 (a c z : nat) (mid : list nat) :
  imap (fun i d => if Nat.eqb i 1 || Nat.eqb i (length (a :: c :: mid ++ [z]) - 1)
                   then d else 1%nat)
       (a :: c :: mid ++ [z])
  = 1%nat :: c :: map (fun _ => 1%nat) mid ++ [z].
Proof.
  rewrite !imap_cons, imap_app. cbn [length].
  rewrite length_app. cbn [length].
  replace (S (S (length mid + 1)) - 1)%nat with (S (S (length mid))) by lia.
  cbn [Nat.eqb orb compose]. f_equal. f_equal. f_equal.
  - apply imap_all_ones. intros i d Hi. cbn [compose Nat.eqb orb].
    apply lookup_lt_Some in Hi.
    destruct (Nat.eqb_spec i (length mid)); [lia | reflexivity].
  - cbn [imap compose]. rewrite Nat.add_0_r. cbn [Nat.eqb orb].
    rewrite Nat.eqb_refl. reflexivity.
Qed.

(** X8.  [reshape_for_broadcast]: a tensor of fewer than two axes, or a
    table slice whose shape is not (x.shape[1], x.shape[-1]), is an
    [AssertionError].  For a tensor of three or more axes and a slice of
    that shape the call returns a shape of the rank of [x] with the number
    of elements of the slice, against which [x] broadcasts to its own
    shape.  For a tensor of exactly two axes the view is refused unless
    the extent is at most 1. *)
Theorem reshape_for_broadcast_cases (freqs_cis x : list nat) :
  ((length x < 2)%nat -> reshape_for_broadcast freqs_cis x = Err AssertionError) /\
  ((2 <= length x)%nat -> freqs_cis <> [nth 1 x 0%nat; last_extent x] ->
   reshape_for_broadcast freqs_cis x = Err AssertionError) /\
  ((3 <= length x)%nat -> freqs_cis = [nth 1 x 0%nat; last_extent x] ->
   exists shape, reshape_for_broadcast freqs_cis x = Ok shape /\
     length shape = length x /\ numel shape = numel freqs_cis /\
     broadcast x shape = Ok x) /\
  (forall a c : nat,
     reshape_for_broadcast [c; c] [a; c]
     = if Nat.leb c 1 then Ok [1%nat; c] else Err RuntimeError).
Proof.
  split; [|split; [|split]].
  - intros Hlen. unfold reshape_for_broadcast.
    destruct (Nat.ltb_spec 1 (length x)); [lia | reflexivity].
  - intros Hlen Hne. unfold reshape_for_broadcast.
    destruct (Nat.ltb_spec 1 (length x)); [|lia]. cbn [negb].
    rewrite bool_decide_eq_false_2 by exact Hne. reflexivity.
  - intros Hlen ->.
    destruct x as [|a [|c rest]]; cbn [length] in Hlen; try lia.
    destruct rest as [|r0 rest0] using rev_ind; [cbn [length] in Hlen; lia|].
    clear IHrest0. rename rest0 into mid. rename r0 into z.
    assert (Hlast : last_extent (a :: c :: mid ++ [z]) = z).
    { unfold last_extent. rewrite !app_comm_cons. apply last_last. }
    unfold reshape_for_broadcast. rewrite Hlast.
    change (nth 1 (a :: c :: mid ++ [z]) 0%nat) with c.
    destruct (Nat.ltb_spec 1 (length (a :: c :: mid ++ [z])));
      [|cbn [length] in *; lia].
    cbn [negb]. rewrite bool_decide_eq_true_2 by reflexivity. cbn [negb].
    rewrite broadcast_shape_rank3.
    assert (Hnum : numel (1%nat :: c :: map (fun _ => 1%nat) mid ++ [z])
                   = numel [c; z]).
    { change (numel (1%nat :: c :: map (fun _ => 1%nat) mid ++ [z]))
        with (1 * (c * numel (map (fun _ => 1%nat) mid ++ [z])))%nat.
      rewrite numel_ones_last. unfold numel. cbn [foldr]. lia. }
    rewrite Hnum, Nat.eqb_refl.
    eexists. split; [reflexivity|]. split; [|split].
    + cbn [length]. rewrite !length_app, length_map. reflexivity.
    + exact Hnum.
    + apply broadcast_against_ones.
      constructor; [right; reflexivity|]. constructor; [left; reflexivity|].
      apply Forall2_app; [|repeat constructor].
      clear. induction mid as [|d mid IH]; cbn [map]; constructor;
        [right; reflexivity | exact IH].
  - intros a c. unfold reshape_for_broadcast.
    cbn [length Nat.ltb Nat.leb negb nth].
    change (last_extent [a; c]) with c.
    rewrite bool_decide_eq_true_2 by reflexivity.
    cbn [negb imap Nat.eqb Nat.sub orb compose length].
    unfold numel. cbn [foldr].
    destruct c as [|[|c]]; cbn [Nat.leb]; try reflexivity.
    destruct (Nat.eqb_spec (S (S c) * (S (S c) * 1)) (1 * (S (S c) * 1)));
      [nia | reflexivity].
Qed.

(** The complex view of queries of shape (2, 3, 4, 8) and a slice of
    three rows. *)
Lemma reshape_for_broadcast_cases_witness :
  exists shape, reshape_for_broadcast [3; 4]%nat [2; 3; 4; 4]%nat = Ok shape /\
    length shape = 4%nat /\ numel shape = 12%nat /\
    broadcast [2; 3; 4; 4]%nat shape = Ok [2; 3; 4; 4]%nat.
Proof.
  destruct (reshape_for_broadcast_cases [3; 4]%nat [2; 3; 4; 4]%nat)
    as (_ & _ & H3 & _).
  apply H3; [cbn [length]; lia | reflexivity].
Defined.

End RotaryFacts.

(** ** What the constructor builds *)

Module ConfigShapes.
Import Config ConfigFacts.

Lemma Attention_LoRA_init_fields (args : ModelArgs) (att : AttentionP) :
  Attention_LoRA_init args = Ok att ->
  lora att <> None /\ attn_flash att = false /\
  (scaling att == inject_Z (lora_alpha args) / inject_Z (lora_r args))%Q /\
  dropout_p att = (if Qlt_le_dec 0 (lora_dropout args)
                   then Some (lora_dropout args) else None).
Proof.
  unfold Attention_LoRA_init. intros H.
  apply rbind_Ok in H as (hd & _ & H).
  apply rbind_Ok in H as (q & _ & H). apply rbind_Ok in H as (k & _ & H).
  apply rbind_Ok in H as (v & _ & H). apply rbind_Ok in H as (o & _ & H).
  apply rbind_Ok in H as (lq & _ & H). apply rbind_Ok in H as (lk & _ & H).
  apply rbind_Ok in H as (lv & _ & H). apply rbind_Ok in H as (lo & _ & H).
  apply rbind_Ok in H as (sc & Hsc & H).
  apply rbind_Ok in H as (dp & Hdp & [= <-]).
  cbn [lora attn_flash scaling dropout_p].
  split; [discriminate|]. split; [reflexivity|]. split.
  - destruct (lora_r args =? 0); [discriminate|].
    injection Hsc as <-. reflexivity.
  - destruct (Qlt_le_dec 0 (lora_dropout args)).
    + destruct (Qlt_le_dec 1 (lora_dropout args)); [discriminate|].
      injection Hdp as <-. reflexivity.
    + injection Hdp as <-. reflexivity.
Qed.

Lemma Attention_init_fields (args : ModelArgs) (att : AttentionP) :
  Attention_init args = Ok att ->
  lora att = None /\ attn_flash att = flash_attention args /\ dropout_p att = None.
Proof.
  unfold Attention_init. intros H.
  apply rbind_Ok in H as (hd & _ & H).
  apply rbind_Ok in H as (q & _ & H). apply rbind_Ok in H as (k & _ & H).
  apply rbind_Ok in H as (v & _ & H). apply rbind_Ok in H as (o & _ & [= <-]).
  repeat split.
Qed.

Lemma TransformerBlock_init_fields (layer_id : Z) (args : ModelArgs)
    (blk : TransformerBlockP) :
  TransformerBlock_init layer_id args = Ok blk ->
  blk_layer_id blk = layer_id /\
  (if use_lora args then Attention_LoRA_init args else Attention_init args)
  = Ok (attention blk).
Proof.
  unfold TransformerBlock_init. intros H.
  apply rbind_Ok in H as (hd & _ & H).
  apply rbind_Ok in H as (att & Hatt & H).
  apply rbind_Ok in H as (ff & _ & H).
  apply rbind_Ok in H as (an & _ & H).
  apply rbind_Ok in H as (fn & _ & [= <-]).
  split; [reflexivity | exact Hatt].
Qed.

Lemma layers_built (args : ModelArgs) (ids : list Z) :
  0 < n_heads args -> 0 <= dim args -> 0 < multiple_of args ->
  (use_lora args = true -> 0 < lora_r args /\ (lora_dropout args <= 1)%Q) ->
  is_Ok (rmap (fun layer_id => TransformerBlock_init layer_id args) ids).
Proof.
  intros Hn Hd Hm Hl. induction ids as [|x xs [ys IH]]; cbn [rmap].
  - eexists. reflexivity.
  - destruct (TransformerBlock_init_floor x args Hn Hd Hm Hl) as (b & -> & _).
    cbn [rbind]. rewrite IH. cbn [rbind]. eexists. reflexivity.
Qed.

Lemma LLAMA_init_built (args : ModelArgs) :
  0 < n_heads args -> 0 <= dim args -> 0 <= vocab_size args ->
  0 < multiple_of args -> 0 <= max_seq_len args ->
  (use_lora args = true -> 0 < lora_r args /\ (lora_dropout args <= 1)%Q) ->
  exists m, LLAMA_init args = Ok m /\
    freqs_cis m = [max_seq_len args * 2; dim args / n_heads args / 2] /\
    tok_embeddings m = [vocab_size args; dim args] /\
    output m = {| in_features := dim args; out_features := vocab_size args |} /\
    Forall2 (fun layer_id blk => TransformerBlock_init layer_id args = Ok blk)
            (range (n_layers args)) (layers m).
Proof.
  intros Hn Hd Hv Hm Hs Hl.
  assert (0 <= dim args / n_heads args) by (apply Z.div_pos; lia).
  unfold LLAMA_init.
  rewrite alloc_nonneg by (repeat constructor; assumption). cbn [rbind].
  destruct (layers_built args (range (n_layers args)) Hn Hd Hm Hl) as [ls Hls].
  rewrite Hls. cbn [rbind]. unfold RMSNorm_init.
  rewrite alloc_nonneg by (repeat constructor; assumption). cbn [rbind].
  rewrite Linear_nonneg by assumption. cbn [rbind].
  rewrite floordiv_nonzero by lia. cbn [rbind].
  unfold precompute_freqs_cis.
  rewrite !alloc_nonneg by (repeat constructor; lia). cbn [rbind].
  eexists. split; [reflexivity|].
  cbn [freqs_cis tok_embeddings output layers].
  split; [reflexivity|]. split; [reflexivity|]. split; [reflexivity|].
  apply rmap_Forall2. exact Hls.
Qed.

Lemma TransformerBlock_init_parts (layer_id : Z) (args : ModelArgs)
    (blk : TransformerBlockP) :
  TransformerBlock_init layer_id args = Ok blk ->
  floordiv (dim args) (n_heads args) = Ok (blk_head_dim blk) /\
  FeedForward_init (dim args) (4 * dim args) (multiple_of args)
  = Ok (feed_forward blk).
Proof.
  unfold TransformerBlock_init. intros H.
  apply rbind_Ok in H as (hd & Hhd & H).
  apply rbind_Ok in H as (att & _ & H).
  apply rbind_Ok in H as (ff & Hff & H).
  apply rbind_Ok in H as (an & _ & H).
  apply rbind_Ok in H as (fn & _ & [= <-]).
  split; [exact Hhd | exact Hff].
Qed.

(** X9.  What [LLAMA.__init__] builds from a configuration it accepts:
    a rotary table of [2 * max_seq_len] rows - twice the configured
    length - and [(dim // n_heads) // 2] columns, an embedding table of
    [vocab_size] rows, an output projection onto [vocab_size] logits, and
    blocks numbered 0, 1, ... in order, [n_layers] of them (none when
    [n_layers] is not positive).  The blocks carry adapters exactly when
    [use_lora] is set; with adapters, the dropout layer exists only for a
    positive rate and the fused kernel is never selected; without, the
    kernel follows [flash_attention]. *)
Theorem built_model_tables (args : ModelArgs) :
  0 < n_heads args -> 0 <= dim args -> 0 <= vocab_size args ->
  0 < multiple_of args -> 0 <= max_seq_len args ->
  (use_lora args = true -> 0 < lora_r args /\ (lora_dropout args <= 1)%Q) ->
  exists m, LLAMA_init args = Ok m /\
    freqs_cis m = [max_seq_len args * 2; dim args / n_heads args / 2] /\
    tok_embeddings m = [vocab_size args; dim args] /\
    output m = {| in_features := dim args; out_features := vocab_size args |} /\
    map blk_layer_id (layers m) = range (n_layers args) /\
    Forall (fun blk =>
              if use_lora args
              then lora (attention blk) <> None /\
                   attn_flash (attention blk) = false /\
                   dropout_p (attention blk)
                   = (if Qlt_le_dec 0 (lora_dropout args)
                      then Some (lora_dropout args) else None)
              else lora (attention blk) = None /\
                   attn_flash (attention blk) = flash_attention args)
           (layers m).
Proof.
  intros Hn Hd Hv Hm Hs Hl.
  destruct (LLAMA_init_built args Hn Hd Hv Hm Hs Hl)
    as (m & Hinit & Hf & He & Ho & Hls).
  exists m. split; [exact Hinit|]. split; [exact Hf|]. split; [exact He|].
  split; [exact Ho|].
  revert Hls. generalize (range (n_layers args)) (layers m).
  intros ids bs Hids. induction Hids as [|x b xs bs Hb _ [IHid IHall]].
  - split; [reflexivity | constructor].
  - apply TransformerBlock_init_fields in Hb as [Hid Hatt].
    split; [cbn [map]; rewrite Hid, IHid; reflexivity|].
    constructor; [|exact IHall].
    destruct (use_lora args).
    + apply Attention_LoRA_init_fields in Hatt as (H1 & H2 & _ & H4).
      split; [exact H1|]. split; [exact H2 | exact H4].
    + apply Attention_init_fields in Hatt as (H1 & H2 & _).
      split; [exact H1 | exact H2].
Qed.

Lemma built_model_tables_witness :
  exists m, LLAMA_init default_args = Ok m /\
    freqs_cis m = [2048; 64] /\ tok_embeddings m = [32000; 4096] /\
    length (layers m) = 32%nat.
Proof.
  destruct (built_model_tables default_args)
    as (m & Hm & Hf & He & _ & Hids & _).
  - cbn. lia.
  - cbn. lia.
  - cbn. lia.
  - cbn. lia.
  - cbn. lia.
  - intros _. split; [cbn; lia|]. cbn. discriminate.
  - exists m. split; [exact Hm|]. split; [exact Hf|]. split; [exact He|].
    rewrite <- (length_map blk_layer_id), Hids. reflexivity.
Defined.

(** X10.  With adapters switched on, a dropout rate above 1 makes the
    construction of a model of at least one layer raise [ValueError] (the
    dropout layer of the first block), after the gain has been computed. *)
Theorem dropout_above_one_cannot_be_built (args : ModelArgs) :
  use_lora args = true -> (1 < lora_dropout args)%Q -> 0 < lora_r args ->
  0 < n_layers args -> 0 < n_heads args -> 0 <= dim args ->
  0 <= vocab_size args ->
  LLAMA_init args = Err ValueError.
Proof.
  intros Hl Hp Hr Hn Hh Hd Hv. unfold LLAMA_init.
  rewrite alloc_nonneg by (repeat constructor; assumption). cbn [rbind].
  destruct (ConfigEdge.range_positive _ Hn) as [xs ->].
  rewrite (ConfigEdge.rmap_first_Err (fun layer_id => TransformerBlock_init layer_id args)
             _ _ ValueError); [reflexivity|].
  assert (0 <= dim args / n_heads args) by (apply Z.div_pos; lia).
  assert (0 <= n_heads args * (dim args / n_heads args)) by nia.
  unfold TransformerBlock_init. rewrite floordiv_nonzero by lia. cbn [rbind].
  rewrite Hl. unfold Attention_LoRA_init.
  rewrite floordiv_nonzero by lia. cbn [rbind].
  rewrite !Linear_nonneg by assumption. cbn [rbind].
  rewrite !new_lora_nonneg by lia. cbn [rbind].
  destruct (Z.eqb_spec (lora_r args) 0) as [E|_]; [lia|]. cbn [rbind].
  destruct (Qlt_le_dec 0 (lora_dropout args)) as [_|Hle].
  - destruct (Qlt_le_dec 1 (lora_dropout args)) as [_|Hle]; [reflexivity|].
    exfalso. apply (Qlt_not_le _ _ Hp). exact Hle.
  - exfalso. apply (Qlt_not_le 0 (lora_dropout args)); [|exact Hle].
    apply Qlt_trans with 1%Q; [reflexivity | exact Hp].
Qed.

Lemma dropout_above_one_cannot_be_built_witness :
  LLAMA_init {| dim := 4096; n_layers := 32; n_heads := 32; vocab_size := 32000;
                multiple_of := 256; norm_eps := 1 # 1000000; max_seq_len := 1024;
                gradient_checkpointing := false; use_lora := true; lora_r := 8;
                lora_alpha := 32; lora_dropout := 3 # 2; flash_attention := false;
                use_xformers := false; enable_fsdp := false |}
  = Err ValueError.
Proof.
  apply dropout_above_one_cannot_be_built; cbn; try lia; reflexivity.
Defined.

(** X11.  [LLaMADecoder.__init__] lets the caller choose the adapters and
    nothing else: whatever it is given, the model it builds has 32
    blocks of 32 heads of width 128, a feed-forward width of 11008, a
    vocabulary of 32000 and a rotary table of 2048 rows and 64 columns,
    and never selects the fused kernel; the blocks carry adapters exactly
    when [use_lora] is set.  With adapters the rank must be positive: a
    rank of 0 raises [ZeroDivisionError], a negative one [RuntimeError]. *)
Theorem decoder_builds_fixed_shape (use_lora : bool) (lora_r lora_alpha : Z)
    (enable_fsdp use_xformers : bool) :
  (use_lora = false \/ 0 < lora_r ->
   exists m,
     LLaMADecoder_init use_lora lora_r lora_alpha enable_fsdp use_xformers = Ok m /\
     length (layers m) = 32%nat /\
     freqs_cis m = [2048; 64] /\ tok_embeddings m = [32000; 4096] /\
     Forall (fun blk =>
               n_local_heads (attention blk) = 32 /\
               head_dim (attention blk) = 128 /\
               out_features (w1 (feed_forward blk)) = 11008 /\
               attn_flash (attention blk) = false /\
               (lora (attention blk) = None <-> use_lora = false))
            (layers m)) /\
  (use_lora = true -> lora_r = 0 ->
   LLaMADecoder_init use_lora lora_r lora_alpha enable_fsdp use_xformers
   = Err ZeroDivisionError) /\
  (use_lora = true -> lora_r < 0 ->
   LLaMADecoder_init use_lora lora_r lora_alpha enable_fsdp use_xformers
   = Err RuntimeError).
Proof.
  split; [|split].
  - intros Hr.
    set (args := LLaMADecoder_args use_lora lora_r lora_alpha enable_fsdp
                   use_xformers).
    assert (Hn : 0 < n_heads args) by (cbn; lia).
    assert (Hd : 0 <= dim args) by (cbn; lia).
    assert (Hv : 0 <= vocab_size args) by (cbn; lia).
    assert (Hm : 0 < multiple_of args) by (cbn; lia).
    assert (Hs : 0 <= max_seq_len args) by (cbn; lia).
    assert (Hl : Config.use_lora args = true ->
                 0 < Config.lora_r args /\ (lora_dropout args <= 1)%Q).
    { cbn. intros ->. destruct Hr as [Hr|Hr]; [discriminate|].
      split; [exact Hr | discriminate]. }
    destruct (LLAMA_init_built args Hn Hd Hv Hm Hs Hl)
      as (m & Hinit & Hf & He & _ & Hls).
    exists m. split; [exact Hinit|]. split.
    { rewrite <- (Forall2_length _ _ _ Hls). reflexivity. }
    split; [exact Hf|]. split; [exact He|].
    revert Hls. generalize (range (n_layers args)) (layers m).
    intros ids bs Hids. induction Hids as [|x b xs bs Hb _ IH]; constructor;
      [|exact IH].
    destruct (TransformerBlock_init_floor x args Hn Hd Hm Hl)
      as (b' & Hb' & _ & Hfl).
    rewrite Hb in Hb'. injection Hb' as <-.
    destruct Hfl as (Hnh & Hhd & _).
    destruct (TransformerBlock_init_parts x args b Hb) as [_ Hff].
    apply TransformerBlock_init_fields in Hb as [_ Hatt].
    split; [exact Hnh|]. split; [exact Hhd|]. split.
    { change (FeedForward_init 4096 (4 * 4096) 256 = Ok (feed_forward b)) in Hff.
      rewrite (FeedForward_init_value 4096 256) in Hff by lia.
      injection Hff as <-. reflexivity. }
    change (Config.use_lora args) with use_lora in Hatt.
    destruct use_lora.
    + apply Attention_LoRA_init_fields in Hatt as (H1 & H2 & _).
      split; [exact H2|]. split; [intros E; contradiction | discriminate].
    + apply Attention_init_fields in Hatt as (H1 & H2 & _).
      split; [exact H2|]. split; [reflexivity | intros _; exact H1].
  - intros -> ->. reflexivity.
  - intros -> Hr. destruct lora_r as [|p|p]; try lia. reflexivity.
Qed.

Lemma decoder_builds_fixed_shape_witness :
  (exists m, LLaMADecoder_init true 8 32 false false = Ok m /\
             length (layers m) = 32%nat /\ freqs_cis m = [2048; 64]) /\
  LLaMADecoder_init true 0 32 false false = Err ZeroDivisionError /\
  LLaMADecoder_init true (-1) 32 false false = Err RuntimeError.
Proof.
  destruct (decoder_builds_fixed_shape true 8 32 false false) as (Hok & _).
  destruct (decoder_builds_fixed_shape true 0 32 false false) as (_ & Hzero & _).
  destruct (decoder_builds_fixed_shape true (-1) 32 false false) as (_ & _ & Hneg).
  split; [|split].
  - destruct Hok as (m & Hm & Hlen & Hf & _); [right; lia|].
    exists m. split; [exact Hm|]. split; [exact Hlen | exact Hf].
  - apply Hzero; reflexivity.
  - apply Hneg; [reflexivity | lia].
Defined.

End ConfigShapes.

(** ** The decoder: what a call reads, and what it refuses *)

Module DecoderEdge.
Import Decoder DecoderFacts.

Section Reads.
Context {V F L : Type}.
Implicit Types (m : LLAMA V F L) (blk : TransformerBlock V F).

(** Without an audio embedding the left prompt is never read, at
    priming or later. *)
Lemma left_prompt_unread_without_audio m (tokens : Tokens) (start_pos : Z)
    (left_prompts left_prompts' : option Tokens)
    (incremental_state : option (IncState V)) :
  forward_generate m tokens start_pos None left_prompts incremental_state
  = forward_generate m tokens start_pos None left_prompts' incremental_state.
Proof. reflexivity. Qed.

(** X12.  A call with [start_pos] other than 0 reads its arguments only
    through the last token of each row of the history, through the length
    of the audio embedding and - when there is an audio embedding -
    through the length of the left prompt: two calls that agree on these
    return the same logits and leave the same state.  Without audio the
    left prompt is not read at all. *)
Theorem streaming_reads_last_token_and_lengths m (tokens tokens' : Tokens)
    (start_pos : Z) (audio_out audio_out' : option (Tensor V))
    (left_prompts left_prompts' : option Tokens)
    (incremental_state : option (IncState V)) :
  start_pos <> 0 ->
  map (fun row => py_slice_from row (-1)) tokens
  = map (fun row => py_slice_from row (-1)) tokens' ->
  option_map shape1 audio_out = option_map shape1 audio_out' ->
  audio_out = None \/
    option_map shape1 left_prompts = option_map shape1 left_prompts' ->
  forward_generate m tokens start_pos audio_out left_prompts incremental_state
  = forward_generate m tokens' start_pos audio_out' left_prompts' incremental_state.
Proof.
  intros Hsp Hlast Ha Hl. unfold forward_generate.
  rewrite !assemble_streaming by exact Hsp. rewrite Hlast.
  assert (Hp : advanced_position start_pos audio_out left_prompts
               = advanced_position start_pos audio_out' left_prompts').
  { unfold advanced_position.
    destruct audio_out, audio_out'; try discriminate; [|reflexivity].
    injection Ha as ->. destruct Hl as [[=]|Hl].
    destruct left_prompts, left_prompts'; try discriminate; [|reflexivity].
    injection Hl as ->. reflexivity. }
  rewrite Hp. reflexivity.
Qed.

Lemma rmap_Err_kind {A B : Type} (f : A -> Result B) (E : Error) (xs : list A) :
  (forall x e, f x = Err e -> e = E) ->
  forall e, rmap f xs = Err e -> e = E.
Proof.
  intros Hf. induction xs as [|x xs IH]; intros e; cbn [rmap]; [discriminate|].
  destruct (f x) as [y|e'] eqn:Hx; cbn [rbind].
  - destruct (rmap f xs) as [ys|e''] eqn:Hxs; cbn [rbind]; [discriminate|].
    intros [= <-]. apply IH. reflexivity.
  - intros [= <-]. eapply Hf. exact Hx.
Qed.

Lemma rmap_Exists_Err {A B : Type} (f : A -> Result B) (E : Error) (xs : list A) :
  (forall x e, f x = Err e -> e = E) ->
  Exists (fun x => f x = Err E) xs -> rmap f xs = Err E.
Proof.
  intros Hf Hex. induction Hex as [x xs Hx|x xs _ IH]; cbn [rmap].
  - rewrite Hx. reflexivity.
  - destruct (f x) as [y|e] eqn:Hx; cbn [rbind].
    + rewrite IH. reflexivity.
    + f_equal. eapply Hf. exact Hx.
Qed.

Lemma embed_id_Err_kind (table : list V) (id : Z) (e : Error) :
  embed_id table id = Err e -> e = IndexError.
Proof.
  unfold embed_id. destruct (id <? 0); [intros [= <-]; reflexivity|].
  destruct (table !! Z.to_nat id); [discriminate | intros [= <-]; reflexivity].
Qed.

Lemma embed_id_outside (table : list V) (id : Z) :
  ~ (0 <= id < Z.of_nat (length table)) -> embed_id table id = Err IndexError.
Proof.
  intros Hid. unfold embed_id. destruct (Z.ltb_spec id 0); [reflexivity|].
  rewrite lookup_ge_None_2 by lia. reflexivity.
Qed.

Lemma embedding_Err_kind (table : list V) (tokens : Tokens) (e : Error) :
  embedding table tokens = Err e -> e = IndexError.
Proof.
  unfold embedding. apply rmap_Err_kind. intros row e'.
  apply rmap_Err_kind. intros id e''. apply embed_id_Err_kind.
Qed.

Lemma embedding_outside (table : list V) (tokens : Tokens) :
  Exists (Exists (fun id => ~ (0 <= id < Z.of_nat (length table)))) tokens ->
  embedding table tokens = Err IndexError.
Proof.
  intros Hex. unfold embedding. apply rmap_Exists_Err.
  - intros row e. apply rmap_Err_kind. intros id e'. apply embed_id_Err_kind.
  - eapply Exists_impl; [exact Hex|]. intros row Hrow. cbv beta in *.
    apply rmap_Exists_Err; [intros id e; apply embed_id_Err_kind|].
    eapply Exists_impl; [exact Hrow|]. intros id Hid. apply embed_id_outside, Hid.
Qed.

(** X13.  An id outside the embedding table among the tokens a call
    consumes - all of them at position 0, the last one of each row
    otherwise - makes the call raise [IndexError], whatever the other
    arguments are. *)
Theorem token_outside_vocabulary_raises m (tokens : Tokens) (start_pos : Z)
    (audio_out : option (Tensor V)) (left_prompts : option Tokens)
    (incremental_state : option (IncState V)) :
  Exists (Exists (fun id => ~ (0 <= id < Z.of_nat (length (tok_embeddings m)))))
         (if start_pos =? 0 then tokens
          else map (fun row => py_slice_from row (-1)) tokens) ->
  forward_generate m tokens start_pos audio_out left_prompts incremental_state
  = Err IndexError.
Proof.
  intros Hex. unfold forward_generate.
  destruct (Z.eqb_spec start_pos 0) as [->|Hsp].
  - apply embedding_outside in Hex. unfold assemble. cbn [Z.eqb].
    destruct audio_out as [enc|]; [|rewrite Hex; reflexivity].
    destruct left_prompts as [lp|]; [|rewrite Hex; reflexivity].
    destruct (embedding (tok_embeddings m) lp) as [lh|e] eqn:Hlp; cbn [rbind].
    + rewrite Hex. reflexivity.
    + apply embedding_Err_kind in Hlp. subst e. reflexivity.
  - rewrite assemble_streaming by exact Hsp.
    rewrite (embedding_outside _ _ Hex). reflexivity.
Qed.

Lemma py_slice_from_end {X : Type} (l : list X) (p : Z) :
  - Z.of_nat (length l) <= p < -1 ->
  exists f, l !! Z.to_nat (Z.of_nat (length l) + p) = Some f /\
            py_slice l p (p + 1) = [f].
Proof.
  intros Hp. unfold py_slice, slice_bound.
  destruct (Z.ltb_spec p 0); [|lia]. destruct (Z.ltb_spec (p + 1) 0); [|lia].
  replace (Z.max 0 (Z.of_nat (length l) + p)) with (Z.of_nat (length l) + p) by lia.
  replace (Z.to_nat (Z.max 0 (Z.of_nat (length l) + (p + 1))
                     - (Z.of_nat (length l) + p))) with 1%nat by lia.
  destruct (lookup_lt_is_Some_2 l (Z.to_nat (Z.of_nat (length l) + p))) as [f Hf];
    [lia|].
  exists f. split; [exact Hf|].
  change (@skipn X) with (@drop X). rewrite (drop_S l f _ Hf). reflexivity.
Qed.

Lemma py_slice_minus_one {X : Type} (l : list X) : py_slice l (-1) (-1 + 1) = [].
Proof.
  unfold py_slice, slice_bound. change (-1 + 1) with 0.
  change (0 <? 0) with false. change (-1 <? 0) with true. cbv iota.
  replace (Z.to_nat (Z.min 0 (Z.of_nat (length l))
                     - Z.max 0 (Z.of_nat (length l) + -1))) with 0%nat by lia.
  reflexivity.
Qed.

(** X14.  A negative position is not refused when the table is sliced: for
    a streaming call whose advanced position [p] is negative the slice is
    the row counted from the end of the table, [len + p], when
    [-len <= p < -1], and is empty when [p = -1]. *)
Theorem negative_position_counts_from_end m (tokens : Tokens) (start_pos : Z)
    (audio_out : option (Tensor V)) (left_prompts : option Tokens)
    (b n : nat) (a : Assembled V F) :
  start_pos <> 0 -> (0 < b)%nat -> (0 < n)%nat -> rect b n tokens ->
  assemble m tokens start_pos audio_out left_prompts = Ok a ->
  let p := advanced_position start_pos audio_out left_prompts in
  let len := Z.of_nat (length (freqs_cis m)) in
  a_start_pos a = p /\
  (- len <= p < -1 ->
   exists f, freqs_cis m !! Z.to_nat (len + p) = Some f /\ a_freqs_cis a = [f]) /\
  (p = -1 -> a_freqs_cis a = []).
Proof.
  intros Hsp Hb Hn Ht Ha p len.
  rewrite assemble_streaming in Ha by exact Hsp.
  apply rbind_Ok in Ha as (h & Hh & [= <-]). cbn [a_start_pos a_freqs_cis].
  pose proof (embedding_rect _ _ _ b 1 Hh (rect_last_tokens tokens b n Hn Ht)) as Hr.
  rewrite (rect_shape1 b 1 h Hb Hr). change (Z.of_nat 1) with 1.
  split; [reflexivity|]. split.
  - intros Hp. apply py_slice_from_end. exact Hp.
  - fold p. intros ->. apply py_slice_minus_one.
Qed.

(** X15.  A model whose first layer uses the plain attention class cannot
    run [forward_generate]: once the prefix is assembled, the block's call
    of [Attention.forward] with [layer_id=] raises [TypeError], with or
    without a state. *)
Theorem plain_attention_cannot_run m blk (ls : list (TransformerBlock V F))
    (tokens : Tokens) (start_pos : Z) (audio_out : option (Tensor V))
    (left_prompts : option Tokens) (incremental_state : option (IncState V)) :
  layers m = blk :: ls -> kind blk = Plain ->
  is_Ok (assemble m tokens start_pos audio_out left_prompts) ->
  forward_generate m tokens start_pos audio_out left_prompts incremental_state
  = Err TypeError.
Proof.
  intros Hls Hk [a Ha]. unfold forward_generate. rewrite Ha, Hls. cbn [rbind].
  destruct incremental_state as [st|]; [|reflexivity].
  cbn [run_layers]. unfold TransformerBlock_forward. rewrite Hk. reflexivity.
Qed.

(** X16.  At position 0 an audio embedding whose batch extent differs
    from that of the tokens makes the call raise [RuntimeError] (the
    concatenation), with or without a left prompt. *)
Theorem priming_batch_mismatch_raises m (tokens : Tokens) (audio : Tensor V)
    (left_prompts : option Tokens) (incremental_state : option (IncState V)) :
  length audio <> length tokens ->
  tokens_valid m tokens ->
  (forall lp, left_prompts = Some lp -> tokens_valid m lp) ->
  forward_generate m tokens 0 (Some audio) left_prompts incremental_state
  = Err RuntimeError.
Proof.
  intros Hlen Hv Hl. unfold forward_generate, assemble. cbn [Z.eqb].
  destruct (embedding_valid m tokens Hv) as [h Hh].
  assert (Hcat : cat_dim1 [audio; h] = Err RuntimeError).
  { cbn [cat_dim1 rbind]. apply rmap_length in Hh.
    destruct (Nat.eqb_spec (length audio) (length h)); [congruence | reflexivity]. }
  destruct left_prompts as [lp|].
  - destruct (embedding_valid m lp (Hl lp eq_refl)) as [lh Hlh].
    rewrite Hlh. cbn [rbind]. rewrite Hh. cbn [rbind].
    change (cat_dim1 [lh; audio; h])
      with (do r <~ cat_dim1 [audio; h];
            if Nat.eqb (length lh) (length r) then Ok (zip_with app lh r)
            else Err RuntimeError).
    rewrite Hcat. reflexivity.
  - cbn [rbind]. rewrite Hh. cbn [rbind]. rewrite Hcat. reflexivity.
Qed.

End Reads.

Lemma streaming_reads_last_token_and_lengths_witness :
  forward_generate (toy_model 1 8) [[5; 6; 7]] 2 (Some [[1; 2; 3; 4]]) None (Some ∅)
  = forward_generate (toy_model 1 8) [[9; 9; 7]] 2 (Some [[0; 0; 0; 0]]) None (Some ∅).
Proof.
  apply streaming_reads_last_token_and_lengths;
    [lia | reflexivity | reflexivity | right; reflexivity].
Defined.

Lemma token_outside_vocabulary_raises_witness :
  forward_generate (toy_model 1 8) [[5; 12]] 0 None None (Some ∅) = Err IndexError.
Proof.
  apply token_outside_vocabulary_raises.
  apply Exists_cons_hd, Exists_cons_tl, Exists_cons_hd. cbn. lia.
Defined.

Lemma negative_position_counts_from_end_witness :
  exists a, assemble (toy_model 1 8) [[5; 6]] (-3) None None = Ok a /\
            a_start_pos a = -3 /\ a_freqs_cis a = [5].
Proof.
  eexists. split; [reflexivity|].
  destruct (negative_position_counts_from_end (toy_model 1 8) [[5; 6]] (-3)
              None None 1 2 _ ltac:(lia) ltac:(lia) ltac:(lia)
              ltac:(one_row) eq_refl) as (Hp & Hrow & _).
  split; [exact Hp|].
  destruct Hrow as (f & Hf & Hs); [cbn; lia|].
  rewrite Hs. vm_compute in Hf. injection Hf as <-. reflexivity.
Defined.

Lemma plain_attention_cannot_run_witness :
  forward_generate plain_model [[5; 6]] 0 None None (Some ∅) = Err TypeError.
Proof.
  apply (plain_attention_cannot_run plain_model plain_block []);
    [reflexivity | reflexivity | vm_compute; eexists; reflexivity].
Defined.

Lemma priming_batch_mismatch_raises_witness :
  forward_generate (toy_model 1 8) [[5; 6]] 0 (Some [[1; 2]; [3; 4]]) None (Some ∅)
  = Err RuntimeError.
Proof.
  apply priming_batch_mismatch_raises.
  - cbn. lia.
  - constructor; [|constructor].
    constructor; [cbn; lia|]. constructor; [cbn; lia | constructor].
  - intros lp [=].
Defined.

(** *** What a call returns *)

Section Calls.
Context {V F L : Type}.
Implicit Types (m : LLAMA V F L) (blk : TransformerBlock V F).
Implicit Types (d : LayerCache V) (st : IncState V).

Lemma forward_generate_logits m (b n : nat) (tokens : Tokens) (start_pos : Z)
    (audio_out : option (Tensor V)) (left_prompts : option Tokens) st
    (a : Assembled V F) (out : list (list L)) (ost : option (IncState V)) :
  (0 < b)%nat ->
  assemble m tokens start_pos audio_out left_prompts = Ok a ->
  rect b (a_seqlen a) (a_h a) ->
  all_cached_or_fresh m b n st ->
  forward_generate m tokens start_pos audio_out left_prompts (Some st)
  = Ok (out, ost) ->
  rect b (a_seqlen a) out.
Proof.
  intros Hb Ha Hh Hpre. unfold forward_generate. rewrite Ha. cbn [rbind].
  intros H. apply rbind_Ok in H as ([h' st1] & Hrun & [= <- _]).
  destruct (run_layers_grows b n (a_seqlen a) (a_start_pos a) (a_freqs_cis a)
              (a_mask a) (layers m) Hb 0 (a_h a) st Hh) as [_ Hpost].
  { intros j Hj. apply Hpre. lia. }
  destruct (Hpost h' st1 Hrun) as (Hout & _).
  apply rect_map_map. exact Hout.
Qed.



(** X19.  A session cannot be primed twice: on a state whose first layer
    already holds [n > 0] positions, a call at position 0 with a prefix
    of more than one position raises [RuntimeError] in the first layer,
    where the square mask of the prefix does not fit the scores over the
    cached and the new keys. *)
Theorem priming_a_primed_session_raises m blk (ls : list (TransformerBlock V F))
    (b n : nat) (c : Call V) st d :
  (0 < b)%nat -> (0 < n)%nat ->
  layers m = blk :: ls -> kind blk = LoRA ->
  priming_admissible m b c ->
  (1 < prefix_length c)%nat ->
  st !! 0%nat = Some d -> cache_is b n d ->
  forward_generate m (c_tokens c) (c_start_pos c) (c_audio_out c)
    (c_left_prompts c) (Some st) = Err RuntimeError.
Proof.
  intros Hb Hn Hls Hk Hadm Hlen Hd Hc.
  destruct (priming_assembles m b c Hb Hadm) as (a & Ha & Hf & _).
  destruct Hadm as (Hsp & Hshape & _).
  destruct (assemble_priming_shape m b c a Hb Hsp Hshape Ha) as (Hh & Hs & _).
  assert (Hmask : exists mk, a_mask a = Some mk /\ length mk = a_seqlen a).
  { pose proof Ha as Ha'. unfold assemble in Ha'.
    apply rbind_Ok in Ha' as (hs & _ & [= <-]). cbn [a_mask a_seqlen] in *.
    destruct (Nat.ltb_spec 1 (shape1 (fst hs))); [|lia].
    eexists. split; [reflexivity | apply length_triu_neg_inf]. }
  destruct Hmask as (mk & Hmk & Hmklen).
  unfold forward_generate. rewrite Ha, Hls. cbn [rbind run_layers].
  rewrite Hd. cbv iota. rewrite Hd. cbn [from_option id].
  unfold TransformerBlock_forward. rewrite Hk.
  unfold Attention_LoRA_forward, apply_rotary_emb.
  rewrite !shape1_map_map, (rect_shape1 b _ _ Hb Hh), Hf, Nat.eqb_refl.
  cbn [rbind fst snd].
  destruct (extend_cache_grows b n (a_seqlen a)
              (map (zip_with (rotate blk) (a_freqs_cis a))
                 (map (map (wk blk)) (map (map (attention_norm blk)) (a_h a))))
              (map (map (wv blk)) (map (map (attention_norm blk)) (a_h a))) d Hb)
    as (keys & vals & d' & Hext & Hkeys & _).
  { apply rect_rotate; [exact Hf|]. do 2 apply rect_map_map. exact Hh. }
  { do 2 apply rect_map_map. exact Hh. }
  { right. exact Hc. }
  rewrite !length_map.
  replace (length (a_h a)) with b by (symmetry; apply Hh).
  rewrite Hext. cbn [rbind fst snd].
  unfold scaled_dot_product. rewrite Hmk, (rect_shape1 b _ _ Hb Hkeys), Hmklen.
  destruct (Nat.eqb_spec (n + a_seqlen a) (a_seqlen a)); [lia | reflexivity].
Qed.

End Calls.

Ltac ids_valid :=
  repeat (first [ apply Forall_nil_2
                | apply Forall_cons_2; [first [cbn; lia | idtac] |] ]).



Lemma priming_a_primed_session_raises_witness :
  forward_generate (toy_model 1 16) [[5; 6]] 0 None None
    (Some {[ 0%nat := <["prev_key" := Some [[1; 2]]]>
                        {[ "prev_value" := Some [[3; 4]] ]} ]})
  = Err RuntimeError.
Proof.
  apply (priming_a_primed_session_raises (toy_model 1 16) toy_block [] 1 2
           {| c_tokens := [[5; 6]]; c_start_pos := 0;
              c_audio_out := None; c_left_prompts := None |} _
           (<["prev_key" := Some [[1; 2]]]> {[ "prev_value" := Some [[3; 4]] ]})).
  - lia.
  - lia.
  - reflexivity.
  - reflexivity.
  - split; [reflexivity|]. split.
    + split; [exists 2%nat; one_row|].
      split; [intros e [=] | intros lp [=]].
    + split; [ids_valid|]. split; [intros lp [=] | cbn; lia].
  - cbn. lia.
  - reflexivity.
  - exists [[1; 2]], [[3; 4]].
    split; [reflexivity|]. split; [reflexivity|]. split; one_row.
Defined.

(** *** What a call writes *)

Section Writes.
Context {V F L : Type}.
Implicit Types (m : LLAMA V F L) (blk : TransformerBlock V F).
Implicit Types (d : LayerCache V) (st : IncState V).

Lemma extend_cache_frame (bsz : nat) (xk xv keys vals : Tensor V) d
    (inc' : option (LayerCache V)) :
  extend_cache bsz xk xv (Some d) = Ok (keys, vals, inc') ->
  exists d', inc' = Some d' /\
    forall name : string, name <> "prev_key" -> name <> "prev_value" ->
      d' !! name = d !! name.
Proof.
  unfold extend_cache. intros H.
  apply rbind_Ok in H as (kv & _ & H).
  apply rbind_Ok in H as (k' & _ & H).
  apply rbind_Ok in H as (v' & _ & [= _ _ <-]).
  eexists. split; [reflexivity|]. intros name Hk Hv.
  rewrite !lookup_insert_ne by congruence. reflexivity.
Qed.

Lemma TransformerBlock_forward_frame blk (x out : Tensor V) (sp : Z)
    (freqs : list F) (mask : option (list (list bool))) d d' :
  TransformerBlock_forward blk x sp freqs mask d = Ok (out, d') ->
  forall name : string, name <> "prev_key" -> name <> "prev_value" ->
    d' !! name = d !! name.
Proof.
  unfold TransformerBlock_forward. destruct (kind blk); [|discriminate].
  intros H. apply rbind_Ok in H as ([o inc'] & Ha & [= _ <-]).
  unfold Attention_LoRA_forward in Ha.
  apply rbind_Ok in Ha as (qk & _ & Ha).
  apply rbind_Ok in Ha as ([[keys vals] inc] & Hext & Ha).
  apply rbind_Ok in Ha as (o' & _ & [= _ <-]).
  apply extend_cache_frame in Hext as (d1 & -> & Hframe). exact Hframe.
Qed.

Lemma run_layers_frame (sp : Z) (freqs : list F)
    (mask : option (list (list bool))) (ls : list (TransformerBlock V F)) :
  forall (i : nat) (h out : Tensor V) st (ost : option (IncState V)),
    run_layers ls i h sp freqs mask (Some st) = Ok (out, ost) ->
    exists s', ost = Some s' /\
      (forall j, (j < i \/ i + length ls <= j)%nat -> s' !! j = st !! j) /\
      (forall j, (i <= j < i + length ls)%nat ->
         exists d', s' !! j = Some d' /\
           forall name : string, name <> "prev_key" -> name <> "prev_value" ->
             d' !! name = default ∅ (st !! j) !! name).
Proof.
  induction ls as [|blk ls IH]; intros i h out st ost; cbn [run_layers].
  - intros [= _ <-]. exists st. split; [reflexivity|]. split; [reflexivity|].
    intros j Hj. cbn [length] in Hj. lia.
  - set (st1 := match st !! i with Some _ => st | None => <[i := ∅]> st end).
    assert (Hi : default ∅ (st1 !! i) = default ∅ (st !! i)).
    { unfold st1. destruct (st !! i) as [d0|] eqn:E.
      - rewrite E. reflexivity.
      - rewrite lookup_insert_eq. reflexivity. }
    assert (Hother : forall j, j <> i -> st1 !! j = st !! j).
    { intros j Hj. unfold st1. destruct (st !! i); [reflexivity|].
      apply lookup_insert_ne. congruence. }
    intros H. apply rbind_Ok in H as ([h' d'] & Hblk & Hrest).
    cbn [fst snd] in Hrest.
    destruct (IH _ _ _ _ _ Hrest) as (s' & -> & Hout & Hin).
    exists s'. split; [reflexivity|]. split.
    + intros j Hj. cbn [length] in Hj. rewrite Hout by lia.
      rewrite lookup_insert_ne by lia. apply Hother. lia.
    + intros j Hj. cbn [length] in Hj. destruct (Nat.eq_dec j i) as [->|Hne].
      * rewrite Hout by lia. rewrite lookup_insert_eq. exists d'.
        split; [reflexivity|]. rewrite <- Hi.
        exact (TransformerBlock_forward_frame _ _ _ _ _ _ _ _ Hblk).
      * destruct (Hin j) as (dj & Hdj & Hframe); [lia|].
        exists dj. split; [exact Hdj|].
        rewrite lookup_insert_ne in Hframe by lia.
        rewrite Hother in Hframe by lia. exact Hframe.
Qed.

(** X20.  A call that returns writes nothing but the ["prev_key"] and
    ["prev_value"] entries of the dictionaries of its own layers: entries
    of the state under keys from [n_layers] on are left as they were, and
    so is every other entry of a layer's dictionary (a layer without a
    dictionary gets one holding just the two tensors). *)
Theorem call_writes_only_its_caches m (tokens : Tokens) (start_pos : Z)
    (audio_out : option (Tensor V)) (left_prompts : option Tokens) st
    (out : list (list L)) (ost : option (IncState V)) :
  forward_generate m tokens start_pos audio_out left_prompts (Some st)
  = Ok (out, ost) ->
  exists st', ost = Some st' /\
    (forall j, (length (layers m) <= j)%nat -> st' !! j = st !! j) /\
    (forall j, (j < length (layers m))%nat ->
       exists d', st' !! j = Some d' /\
         forall name : string, name <> "prev_key" -> name <> "prev_value" ->
           d' !! name = default ∅ (st !! j) !! name).
Proof.
  unfold forward_generate. intros H.
  apply rbind_Ok in H as (a & _ & H).
  apply rbind_Ok in H as ([h' st1] & Hrun & [= _ <-]).
  apply run_layers_frame in Hrun as (s' & -> & Hout & Hin).
  exists s'. split; [reflexivity|]. split.
  - intros j Hj. apply Hout. lia.
  - intros j Hj. apply Hin. lia.
Qed.

Lemma extend_cache_fresh (b s : nat) (xk xv : Tensor V) d :
  (0 < b)%nat -> rect b s xk -> rect b s xv -> d !! "prev_key" = None ->
  extend_cache b xk xv (Some d)
  = Ok (xk, xv, Some (<["prev_value" := Some xv]> (<["prev_key" := Some xk]> d))).
Proof.
  intros Hb Hk Hv Hnone. unfold extend_cache. rewrite Hnone. cbn [rbind fst snd].
  rewrite !(view_bsz_rect b s) by assumption. reflexivity.
Qed.

Lemma extend_cache_cached (b n s : nat) (xk xv k v : Tensor V) d :
  (0 < b)%nat -> rect b s xk -> rect b s xv ->
  d !! "prev_key" = Some (Some k) -> d !! "prev_value" = Some (Some v) ->
  rect b n k -> rect b n v ->
  extend_cache b xk xv (Some d)
  = Ok (zip_with app k xk, zip_with app v xv,
        Some (<["prev_value" := Some (zip_with app v xv)]>
                (<["prev_key" := Some (zip_with app k xk)]> d))).
Proof.
  intros Hb Hk Hv Hdk Hdv Hrk Hrv.
  destruct (cat_dim1_pair b n s k xk Hrk Hk) as [Ek Hck].
  destruct (cat_dim1_pair b n s v xv Hrv Hv) as [Ev Hcv].
  unfold extend_cache, cached. rewrite Hdk, Hdv.
  rewrite !(view_bsz_rect b n) by assumption. cbn [rbind].
  rewrite Ek, Ev. cbn [rbind fst snd].
  rewrite !(view_bsz_rect b (n + s)) by assumption. reflexivity.
Qed.

(** X21.  What the first layer caches.  After a call that returns, its
    dictionary holds, behind whatever keys and values it held before, one
    new key and one new value per position of the chunk: the value is the
    value projection of the normalised input, not rotated; the key is the
    key projection of the normalised input rotated by the row of the
    rotary table for that position. *)
Theorem first_layer_cache_contents m blk (ls : list (TransformerBlock V F))
    (b n : nat) (tokens : Tokens) (start_pos : Z)
    (audio_out : option (Tensor V)) (left_prompts : option Tokens) st
    (a : Assembled V F) (out : list (list L)) (st' : IncState V) :
  (0 < b)%nat -> layers m = blk :: ls ->
  assemble m tokens start_pos audio_out left_prompts = Ok a ->
  rect b (a_seqlen a) (a_h a) ->
  layer_cached b n (default ∅ (st !! 0%nat)) ->
  forward_generate m tokens start_pos audio_out left_prompts (Some st)
  = Ok (out, Some st') ->
  let x := map (map (attention_norm blk)) (a_h a) in
  let new_keys :=
    map (zip_with (rotate blk) (a_freqs_cis a)) (map (map (wk blk)) x) in
  let new_values := map (map (wv blk)) x in
  exists d', st' !! 0%nat = Some d' /\
    (default ∅ (st !! 0%nat) !! "prev_key" = None ->
     d' !! "prev_key" = Some (Some new_keys) /\
     d' !! "prev_value" = Some (Some new_values)) /\
    (forall k v,
       default ∅ (st !! 0%nat) !! "prev_key" = Some (Some k) ->
       default ∅ (st !! 0%nat) !! "prev_value" = Some (Some v) ->
       d' !! "prev_key" = Some (Some (zip_with app k new_keys)) /\
       d' !! "prev_value" = Some (Some (zip_with app v new_values))).
Proof.
  intros Hb Hls Ha Hh Hc Hrun x new_keys new_values.
  unfold forward_generate in Hrun. rewrite Ha, Hls in Hrun.
  cbn [rbind run_layers] in Hrun.
  apply rbind_Ok in Hrun as ([h' ost] & Hrun & [= _ ->]).
  set (st1 := match st !! 0%nat with Some _ => st | None => <[0%nat := ∅]> st end)
    in Hrun.
  assert (Hi : default ∅ (st1 !! 0%nat) = default ∅ (st !! 0%nat)).
  { unfold st1. destruct (st !! 0%nat) as [d0|] eqn:E.
    - rewrite E. reflexivity.
    - rewrite lookup_insert_eq. reflexivity. }
  rewrite Hi in Hrun.
  apply rbind_Ok in Hrun as ([h1 d1] & Hblk & Hrest). cbn [fst snd] in Hrest.
  apply run_layers_frame in Hrest as (s' & [= <-] & Hout & _).
  exists d1. split; [rewrite Hout by lia; apply lookup_insert_eq|].
  unfold TransformerBlock_forward in Hblk.
  destruct (kind blk); [|discriminate].
  apply rbind_Ok in Hblk as ([o inc'] & Hatt & [= _ <-]).
  unfold Attention_LoRA_forward, apply_rotary_emb in Hatt.
  fold x in Hatt.
  destruct (Nat.eqb_spec (length (a_freqs_cis a)) (shape1 (map (map (wq blk)) x)))
    as [Hf|]; [|discriminate].
  unfold x in Hf. rewrite !shape1_map_map, (rect_shape1 b _ _ Hb Hh) in Hf.
  cbn [rbind fst snd] in Hatt. fold new_keys new_values in Hatt.
  assert (Hnk : rect b (a_seqlen a) new_keys).
  { apply rect_rotate; [exact Hf|]. do 2 apply rect_map_map. exact Hh. }
  assert (Hnv : rect b (a_seqlen a) new_values).
  { do 2 apply rect_map_map. exact Hh. }
  assert (Hbsz : length x = b).
  { unfold x. rewrite length_map. apply Hh. }
  rewrite Hbsz in Hatt.
  destruct Hc as [[Hnone ->]|(k & v & Hdk & Hdv & Hrk & Hrv)].
  - rewrite (extend_cache_fresh b _ _ _ _ Hb Hnk Hnv Hnone) in Hatt.
    cbn [rbind fst snd] in Hatt.
    apply rbind_Ok in Hatt as (o' & _ & [= _ <-]). cbn [default from_option id].
    split.
    + intros _. split.
      * rewrite lookup_insert_ne by discriminate. apply lookup_insert_eq.
      * apply lookup_insert_eq.
    + intros k v Hk. rewrite Hnone in Hk. discriminate.
  - rewrite (extend_cache_cached b n _ _ _ k v _ Hb Hnk Hnv Hdk Hdv Hrk Hrv) in Hatt.
    cbn [rbind fst snd] in Hatt.
    apply rbind_Ok in Hatt as (o' & _ & [= _ <-]). cbn [default from_option id].
    split.
    + intros Hnone. rewrite Hdk in Hnone. discriminate.
    + intros k0 v0 Hk0 Hv0. rewrite Hdk in Hk0. rewrite Hdv in Hv0.
      injection Hk0 as <-. injection Hv0 as <-. split.
      * rewrite lookup_insert_ne by discriminate. apply lookup_insert_eq.
      * apply lookup_insert_eq.
Qed.

End Writes.

Lemma call_writes_only_its_caches_witness :
  exists out st',
    forward_generate (toy_model 1 16) [[5]] 3 None None
      (Some (<[5%nat := {[ "prev_key" := Some [[9]] ]}]>
               {[ 0%nat := {[ "note" := None ]} ]}))
    = Ok (out, Some st') /\
    st' !! 5%nat = Some {[ "prev_key" := Some [[9]] ]} /\
    exists d', st' !! 0%nat = Some d' /\ d' !! "note" = Some None.
Proof.
  assert (Hrun : is_Ok (forward_generate (toy_model 1 16) [[5]] 3 None None
            (Some (<[5%nat := {[ "prev_key" := Some [[9]] ]}]>
                     {[ 0%nat := {[ "note" := None ]} ]}))))
    by (vm_compute; eexists; reflexivity).
  destruct Hrun as [[out ost] Hrun].
  destruct (call_writes_only_its_caches _ _ _ _ _ _ _ _ Hrun)
    as (st' & -> & Hrest & Hown).
  exists out, st'. split; [exact Hrun|]. split.
  - rewrite Hrest by (cbn; lia). reflexivity.
  - destruct (Hown 0%nat) as (d' & Hd' & Hframe); [cbn; lia|].
    exists d'. split; [exact Hd'|].
    rewrite Hframe by discriminate. reflexivity.
Defined.

Lemma first_layer_cache_contents_witness :
  exists out st' d',
    forward_generate (toy_model 1 16) [[5; 6]] 0 None None (Some ∅)
    = Ok (out, Some st') /\
    st' !! 0%nat = Some d' /\
    d' !! "prev_key" = Some (Some [[106; 108]]) /\
    d' !! "prev_value" = Some (Some [[107; 108]]).
Proof.
  assert (Hrun : exists out st',
             forward_generate (toy_model 1 16) [[5; 6]] 0 None None (Some ∅)
             = Ok (out, Some st'))
    by (vm_compute; do 2 eexists; reflexivity).
  destruct Hrun as (out & st' & Hrun).
  destruct (first_layer_cache_contents (toy_model 1 16) toy_block [] 1 0
              [[5; 6]] 0 None None ∅ _ out st'
              ltac:(lia) eq_refl eq_refl ltac:(one_row)
              ltac:(left; split; reflexivity) Hrun)
    as (d' & Hd' & Hfresh & _).
  destruct Hfresh as [Hk Hv]; [reflexivity|].
  exists out, st', d'. split; [exact Hrun|]. split; [exact Hd'|].
  split; [exact Hk | exact Hv].
Defined.

(** *** A call whose batch extent is not that of the cache *)

Section BatchChange.
Context {V F L : Type}.
Implicit Types (m : LLAMA V F L) (blk : TransformerBlock V F).
Implicit Types (d : LayerCache V) (st : IncState V).

Lemma rect_chunks {X : Type} (b k : nat) (flat : list X) :
  length flat = (b * k)%nat -> rect b k (chunks b k flat).
Proof.
  revert flat. induction b as [|b IH]; intros flat Hlen; cbn [chunks].
  - split; [reflexivity | constructor].
  - destruct (IH (skipn k flat)) as [Hl Hrows].
    { rewrite length_skipn. lia. }
    split; [cbn [length]; rewrite Hl; reflexivity|].
    constructor; [|exact Hrows]. rewrite length_firstn. lia.
Qed.

Lemma concat_chunks {X : Type} (b k : nat) (flat : list X) :
  length flat = (b * k)%nat -> concat (chunks b k flat) = flat.
Proof.
  revert flat. induction b as [|b IH]; intros flat Hlen; cbn [chunks concat].
  - destruct flat; [reflexivity | discriminate].
  - rewrite IH by (rewrite length_skipn; lia). apply firstn_skipn.
Qed.

Lemma view_bsz_concat {X : Type} (bsz : nat) (t t' : list (list X)) :
  concat t = concat t' -> view_bsz bsz t = view_bsz bsz t'.
Proof. intros Hc. unfold view_bsz. rewrite Hc. reflexivity. Qed.

Lemma view_bsz_mismatch {X : Type} (b n bsz : nat) (t : list (list X)) :
  rect b n t -> ((b * n) mod bsz)%nat <> 0%nat -> view_bsz bsz t = Err RuntimeError.
Proof.
  intros Ht Hmod. unfold view_bsz. rewrite (length_concat_rect b n t Ht).
  destruct (Nat.eqb bsz 0); [reflexivity|].
  destruct (Nat.eqb_spec ((b * n) mod bsz) 0); [contradiction | reflexivity].
Qed.

Lemma regroup_rect (b n bsz : nat) (t : Tensor V) :
  (0 < bsz)%nat -> rect b n t -> ((b * n) mod bsz)%nat = 0%nat ->
  rect bsz (b * n / bsz) (regroup bsz t) /\ concat (regroup bsz t) = concat t.
Proof.
  intros Hb Ht Hmod. unfold regroup. rewrite (length_concat_rect b n t Ht).
  assert (Hlen : length (concat t) = (bsz * (b * n / bsz))%nat).
  { rewrite (length_concat_rect b n t Ht).
    pose proof (Nat.div_mod_eq (b * n) bsz). lia. }
  split; [apply rect_chunks | apply concat_chunks]; exact Hlen.
Qed.

Lemma same_positions_refl (e : option (option (Tensor V))) : same_positions e e.
Proof. destruct e as [[t|]|]; cbn; auto. Qed.

Lemma extend_cache_same (bsz : nat) (xk xv : Tensor V) d d' :
  same_cache d d' ->
  extend_cache bsz xk xv (Some d) = extend_cache bsz xk xv (Some d').
Proof.
  intros (Hk & Hv & Hrest). unfold extend_cache, cached.
  assert (Hins : forall k' v' : Tensor V,
             <["prev_value" := Some v']> (<["prev_key" := Some k']> d)
             = <["prev_value" := Some v']> (<["prev_key" := Some k']> d')).
  { intros k' v'. apply map_eq. intros name.
    destruct (decide (name = "prev_value")) as [->|Hnv];
      [rewrite !lookup_insert_eq; reflexivity|].
    rewrite !(lookup_insert_ne _ "prev_value") by congruence.
    destruct (decide (name = "prev_key")) as [->|Hnk];
      [rewrite !lookup_insert_eq; reflexivity|].
    rewrite !(lookup_insert_ne _ "prev_key") by congruence.
    apply Hrest; assumption. }
  assert (Hkv :
    match d !! "prev_key" with
    | Some _ =>
        do prev_key <~ match d !! "prev_key" with
                       | None => Err KeyError
                       | Some None => Err AttributeError
                       | Some (Some t) => view_bsz bsz t
                       end;
        do prev_value <~ match d !! "prev_value" with
                         | None => Err KeyError
                         | Some None => Err AttributeError
                         | Some (Some t) => view_bsz bsz t
                         end;
        do k <~ cat_dim1 [prev_key; xk];
        do v <~ cat_dim1 [prev_value; xv];
        Ok (k, v)
    | None => Ok (xk, xv)
    end
    =
    match d' !! "prev_key" with
    | Some _ =>
        do prev_key <~ match d' !! "prev_key" with
                       | None => Err KeyError
                       | Some None => Err AttributeError
                       | Some (Some t) => view_bsz bsz t
                       end;
        do prev_value <~ match d' !! "prev_value" with
                         | None => Err KeyError
                         | Some None => Err AttributeError
                         | Some (Some t) => view_bsz bsz t
                         end;
        do k <~ cat_dim1 [prev_key; xk];
        do v <~ cat_dim1 [prev_value; xv];
        Ok (k, v)
    | None => Ok (xk, xv)
    end).
  { unfold same_positions in Hk, Hv.
    destruct (d !! "prev_key") as [[tk|]|], (d' !! "prev_key") as [[tk'|]|];
      try contradiction; try reflexivity.
    rewrite (view_bsz_concat bsz tk tk' Hk).
    destruct (d !! "prev_value") as [[tv|]|], (d' !! "prev_value") as [[tv'|]|];
      try contradiction; try reflexivity.
    rewrite (view_bsz_concat bsz tv tv' Hv). reflexivity. }
  rewrite Hkv.
  destruct (match d' !! "prev_key" with Some _ => _ | None => _ end)
    as [[k v]|e]; cbn [rbind fst snd]; [|reflexivity].
  destruct (view_bsz bsz k) as [k'|e]; cbn [rbind]; [|reflexivity].
  destruct (view_bsz bsz v) as [v'|e]; cbn [rbind]; [|reflexivity].
  rewrite Hins. reflexivity.
Qed.

Lemma TransformerBlock_forward_same blk (x : Tensor V) (sp : Z)
    (freqs : list F) (mask : option (list (list bool))) d d' :
  same_cache d d' ->
  TransformerBlock_forward blk x sp freqs mask d
  = TransformerBlock_forward blk x sp freqs mask d'.
Proof.
  intros Hsame. unfold TransformerBlock_forward.
  destruct (kind blk); [|reflexivity].
  unfold Attention_LoRA_forward.
  destruct (apply_rotary_emb _ _ _ _) as [qk|e]; cbn [rbind]; [|reflexivity].
  rewrite (extend_cache_same _ _ _ d d' Hsame).
  destruct (extend_cache _ _ _ (Some d')) as [[[keys vals] inc]|e] eqn:Hext;
    cbn [rbind fst snd]; [|reflexivity].
  apply extend_cache_frame in Hext as (d1 & -> & _).
  destruct (scaled_dot_product _ _ _ _ _) as [o|e]; cbn [rbind fst snd];
    reflexivity.
Qed.

Lemma run_layers_same (sp : Z) (freqs : list F)
    (mask : option (list (list bool))) (ls : list (TransformerBlock V F)) :
  forall (i : nat) (h : Tensor V) st st',
    (forall j, (i <= j < i + length ls)%nat ->
       same_cache (default ∅ (st !! j)) (default ∅ (st' !! j))) ->
    (forall j, (j < i \/ i + length ls <= j)%nat -> st !! j = st' !! j) ->
    run_layers ls i h sp freqs mask (Some st)
    = run_layers ls i h sp freqs mask (Some st').
Proof.
  induction ls as [|blk ls IH]; intros i h st st' Hin Hout; cbn [run_layers].
  - f_equal. f_equal. f_equal. apply map_eq. intros j. apply Hout.
    cbn [length]. lia.
  - set (st1 := match st !! i with Some _ => st | None => <[i := ∅]> st end).
    set (st1' := match st' !! i with Some _ => st' | None => <[i := ∅]> st' end).
    assert (Hi : default ∅ (st1 !! i) = default ∅ (st !! i)).
    { unfold st1. destruct (st !! i) as [d0|] eqn:E.
      - rewrite E. reflexivity.
      - rewrite lookup_insert_eq. reflexivity. }
    assert (Hi' : default ∅ (st1' !! i) = default ∅ (st' !! i)).
    { unfold st1'. destruct (st' !! i) as [d0|] eqn:E.
      - rewrite E. reflexivity.
      - rewrite lookup_insert_eq. reflexivity. }
    assert (Hother : forall j, j <> i -> st1 !! j = st !! j).
    { intros j Hj. unfold st1. destruct (st !! i); [reflexivity|].
      apply lookup_insert_ne. congruence. }
    assert (Hother' : forall j, j <> i -> st1' !! j = st' !! j).
    { intros j Hj. unfold st1'. destruct (st' !! i); [reflexivity|].
      apply lookup_insert_ne. congruence. }
    rewrite Hi, Hi'.
    rewrite (TransformerBlock_forward_same blk h sp freqs mask
               (default ∅ (st !! i)) (default ∅ (st' !! i)))
      by (apply Hin; cbn [length]; lia).
    destruct (TransformerBlock_forward blk h sp freqs mask (default ∅ (st' !! i)))
      as [[h' d']|e]; cbn [rbind fst snd]; [|reflexivity].
    apply IH.
    + intros j Hj. rewrite !lookup_insert_ne by lia.
      rewrite Hother, Hother' by lia. apply Hin. cbn [length]. lia.
    + intros j Hj. destruct (Nat.eq_dec j i) as [->|Hne].
      * rewrite !lookup_insert_eq. reflexivity.
      * rewrite !lookup_insert_ne by lia. rewrite Hother, Hother' by lia.
        apply Hout. cbn [length]. lia.
Qed.

Lemma regroup_layer_same (b n bsz : nat) d :
  (0 < bsz)%nat -> ((b * n) mod bsz)%nat = 0%nat -> cache_is b n d ->
  same_cache d (regroup_layer bsz d) /\
  cache_is bsz (b * n / bsz) (regroup_layer bsz d).
Proof.
  intros Hb Hmod (k & v & Hdk & Hdv & Hrk & Hrv).
  destruct (regroup_rect b n bsz k Hb Hrk Hmod) as [Hrk' Hck].
  destruct (regroup_rect b n bsz v Hb Hrv Hmod) as [Hrv' Hcv].
  assert (Hk' : regroup_layer bsz d !! "prev_key" = Some (Some (regroup bsz k))).
  { unfold regroup_layer. rewrite lookup_alter_ne by discriminate.
    rewrite lookup_alter_eq, Hdk. reflexivity. }
  assert (Hv' : regroup_layer bsz d !! "prev_value" = Some (Some (regroup bsz v))).
  { unfold regroup_layer. rewrite lookup_alter_eq.
    rewrite lookup_alter_ne by discriminate. rewrite Hdv. reflexivity. }
  split.
  - split; [|split].
    + rewrite Hdk, Hk'. cbn. symmetry. exact Hck.
    + rewrite Hdv, Hv'. cbn. symmetry. exact Hcv.
    + intros name Hnk Hnv. unfold regroup_layer.
      rewrite !lookup_alter_ne by congruence. reflexivity.
  - exists (regroup bsz k), (regroup bsz v). repeat split; try assumption;
      try apply Hrk'; try apply Hrv'.
Qed.

Lemma regroup_state_lookup (n_layers bsz : nat) st (j : nat) :
  regroup_state n_layers bsz st !! j
  = (fun d => if Nat.ltb j n_layers then regroup_layer bsz d else d) <$> st !! j.
Proof.
  unfold regroup_state. rewrite map_lookup_imap.
  destruct (st !! j); reflexivity.
Qed.

(** X22.  The batch extent of a call is never compared with that of the
    cache.  When the number of rows [b'] of a streaming call does not
    divide the number [b * n] of positions the first layer caches, the
    call raises [RuntimeError] in that layer's [view]. *)
Theorem batch_not_dividing_cache_raises m blk (ls : list (TransformerBlock V F))
    (b n b' : nat) (c : Call V) st d :
  (0 < b')%nat ->
  layers m = blk :: ls -> kind blk = LoRA ->
  streaming_admissible m b' c ->
  st !! 0%nat = Some d -> cache_is b n d ->
  ((b * n) mod b')%nat <> 0%nat ->
  forward_generate m (c_tokens c) (c_start_pos c) (c_audio_out c)
    (c_left_prompts c) (Some st) = Err RuntimeError.
Proof.
  intros Hb Hls Hk Hadm Hd (k & v & Hdk & Hdv & Hrk & Hrv) Hmod.
  destruct (streaming_assembles m b' c Hb Hadm) as (a & Ha & Hf & _).
  destruct Hadm as (Hshape & _).
  destruct (assemble_streaming_shape m b' c a Hb Hshape Ha) as (Hh & _).
  unfold forward_generate. rewrite Ha, Hls. cbn [rbind run_layers].
  rewrite Hd. cbv iota. rewrite Hd. cbn [from_option id].
  unfold TransformerBlock_forward. rewrite Hk.
  unfold Attention_LoRA_forward, apply_rotary_emb.
  rewrite !shape1_map_map, (rect_shape1 b' _ _ Hb Hh), Hf, Nat.eqb_refl.
  cbn [rbind fst snd]. unfold extend_cache, cached. rewrite Hdk.
  rewrite !length_map.
  rewrite (view_bsz_mismatch b n _ k Hrk) by (destruct Hh as [-> _]; exact Hmod).
  reflexivity.
Qed.


End BatchChange.

Lemma batch_not_dividing_cache_raises_witness :
  forward_generate (toy_model 1 16) [[5]; [6]] 3 None None
    (Some {[ 0%nat := <["prev_key" := Some [[1; 2; 3]]]>
                        {[ "prev_value" := Some [[4; 5; 6]] ]} ]})
  = Err RuntimeError.
Proof.
  apply (batch_not_dividing_cache_raises (toy_model 1 16) toy_block [] 1 3 2
           {| c_tokens := [[5]; [6]]; c_start_pos := 3;
              c_audio_out := None; c_left_prompts := None |} _
           (<["prev_key" := Some [[1; 2; 3]]]> {[ "prev_value" := Some [[4; 5; 6]] ]})).
  - lia.
  - reflexivity.
  - reflexivity.
  - split.
    + split; [cbn; lia|]. exists 1%nat. split; [lia|].
      split; [reflexivity|].
      constructor; [reflexivity | constructor; [reflexivity | constructor]].
    + split; [ids_valid | cbn; lia].
  - reflexivity.
  - exists [[1; 2; 3]], [[4; 5; 6]].
    split; [reflexivity|]. split; [reflexivity|]. split; one_row.
  - cbn. lia.
Defined.


(** *** Reordering the batch *)

Section Traversals.
Context {K : Type} `{Countable K} {A : Type}.

Lemma update_all_Err_kind (g : A -> Result A) (E : Error) (d0 m : gmap K A) :
  (forall v e, g v = Err e -> e = E) ->
  forall e, update_all g d0 m = Err e -> e = E.
Proof.
  intros Hg. unfold update_all.
  apply (map_fold_weak_ind (fun res m => forall e, res = Err e -> e = E)).
  - intros e [=].
  - intros i x m' res Hi IH e. destruct res as [d'|e']; cbn [rbind].
    + destruct (g x) as [x'|e''] eqn:Hx; cbn [rbind]; [discriminate|].
      intros [= <-]. eapply Hg. exact Hx.
    + intros [= <-]. apply IH. reflexivity.
Qed.

Lemma update_in_place_compose (g1 g2 g12 : A -> Result A) (m r1 : gmap K A) :
  update_all g1 m m = Ok r1 ->
  (forall v v1, g1 v = Ok v1 -> is_Ok (g2 v1) /\ g12 v = g2 v1) ->
  exists r2, update_all g2 r1 r1 = Ok r2 /\ update_all g12 m m = Ok r2.
Proof.
  intros H1 Hg. apply update_in_place in H1 as [Hall ->].
  assert (Htot : forall k v, m !! k = Some v ->
             g1 v = Ok (total g1 v) /\ is_Ok (g2 (total g1 v)) /\
             g12 v = g2 (total g1 v)).
  { intros k v Hv. destruct (Hall k v Hv) as [v1 Hv1]. unfold total.
    rewrite Hv1. split; [reflexivity|]. apply Hg. exact Hv1. }
  exists (total g2 <$> (total g1 <$> m)). split.
  - apply update_in_place. split; [|reflexivity].
    apply map_Forall_fmap. intros k v Hv. cbv beta.
    apply (Htot k v Hv).
  - apply update_in_place. split.
    + intros k v Hv. cbv beta. destruct (Htot k v Hv) as (_ & Hok & ->). exact Hok.
    + rewrite <- map_fmap_compose. apply map_fmap_ext. intros k v Hv.
      cbn. destruct (Htot k v Hv) as (_ & [v2 Hv2] & H12). unfold total at 1 3.
      rewrite H12, Hv2. reflexivity.
Qed.

End Traversals.

Section ReorderEdge.
Context {V F L : Type}.
Implicit Types (m : LLAMA V F L).
Implicit Types (d : LayerCache V) (st : IncState V) (t : Tensor V).

Lemma index_select0_Err_kind t (new_order : list Z) (e : Error) :
  index_select0 t new_order = Err e -> e = IndexError.
Proof.
  unfold index_select0. apply rmap_Err_kind. intros i e'.
  destruct (i <? 0); [intros [= <-]; reflexivity|].
  destruct (t !! Z.to_nat i); [discriminate | intros [= <-]; reflexivity].
Qed.

Lemma index_select0_outside t (new_order : list Z) :
  Exists (fun i => ~ (0 <= i < Z.of_nat (length t))) new_order ->
  index_select0 t new_order = Err IndexError.
Proof.
  intros Hex. unfold index_select0. apply rmap_Exists_Err.
  - intros i e. destruct (i <? 0); [intros [= <-]; reflexivity|].
    destruct (t !! Z.to_nat i); [discriminate | intros [= <-]; reflexivity].
  - eapply Exists_impl; [exact Hex|]. intros i Hi. cbv beta in *.
    destruct (Z.ltb_spec i 0); [reflexivity|].
    rewrite lookup_ge_None_2 by lia. reflexivity.
Qed.

Lemma reorder_entry_Err_kind (new_order : list Z) (v : option (Tensor V))
    (e : Error) :
  reorder_entry new_order v = Err e -> e = IndexError.
Proof.
  unfold reorder_entry. destruct v as [t|]; [|discriminate].
  destruct (index_select0 t new_order) as [t'|e'] eqn:Ht; cbn [rbind];
    [discriminate|].
  intros [= <-]. apply (index_select0_Err_kind t new_order). exact Ht.
Qed.

Lemma reorder_layer_Err_kind (new_order : list Z) d (e : Error) :
  reorder_layer new_order d = Err e -> e = IndexError.
Proof.
  unfold reorder_layer. apply update_all_Err_kind.
  intros v e'. apply reorder_entry_Err_kind.
Qed.

(** X24.  An index of [new_order] that names no row of some tensor held
    by the state - negative, or beyond its batch extent - makes the
    reordering raise [IndexError]. *)
Theorem reorder_outside_batch_raises st (new_order : list Z) (key : nat) d
    (name : string) t :
  st !! key = Some d -> d !! name = Some (Some t) ->
  Exists (fun i => ~ (0 <= i < Z.of_nat (length t))) new_order ->
  reorder_incremental_state_scripting st new_order = Err IndexError.
Proof.
  intros Hd Ht Hex.
  destruct (reorder_incremental_state_scripting st new_order) as [ost|e] eqn:Hr.
  - exfalso.
    pose proof (reorder_state_lookup new_order st ost key Hr) as Hk.
    rewrite Hd in Hk. destruct Hk as (d' & Hd' & _).
    pose proof (reorder_layer_lookup new_order d d' name Hd') as Hn.
    rewrite Ht in Hn. destruct Hn as (t' & Ht' & _).
    rewrite (index_select0_outside t new_order Hex) in Ht'. discriminate.
  - f_equal. unfold reorder_incremental_state_scripting in Hr.
    revert Hr. apply update_all_Err_kind.
    intros d0 e'. apply reorder_layer_Err_kind.
Qed.

Lemma index_select0_rect (n : nat) t (new_order : list Z) (t' : Tensor V) :
  Forall (fun row => length row = n) t ->
  index_select0 t new_order = Ok t' ->
  rect (length new_order) n t'.
Proof.
  intros Hrows Hsel. split; [exact (rmap_length _ _ _ Hsel)|].
  apply rmap_Forall2 in Hsel.
  induction Hsel as [|i row order rows Hi _ IH]; constructor; [|exact IH].
  destruct (i <? 0); [discriminate|].
  destruct (t !! Z.to_nat i) as [row'|] eqn:E; [|discriminate].
  injection Hi as <-.
  exact (Forall_lookup_1 _ _ _ _ Hrows E).
Qed.

Lemma reorder_in_range_Ok (b : nat) st (new_order : list Z) :
  batch_is b st ->
  Forall (fun i => 0 <= i < Z.of_nat b) new_order ->
  is_Ok (reorder_incremental_state_scripting st new_order).
Proof.
  intros Hb Hr. rewrite reorder_state_update.
  eexists. apply update_in_place. split; [|reflexivity].
  intros key d Hd. cbv beta. rewrite (reorder_layer_in_range b new_order d).
  - eexists. reflexivity.
  - intros name t. apply (Hb key d name t Hd).
  - exact Hr.
Qed.

Lemma reorder_all_cached m (b n : nat) st st' (new_order : list Z) :
  all_cached m b n st ->
  reorder_incremental_state_scripting st new_order = Ok st' ->
  all_cached m (length new_order) n st'.
Proof.
  intros Hc Hst' j Hj.
  destruct (Hc j Hj) as (d & Hd & k & v & Hdk & Hdv & Hrk & Hrv).
  pose proof (reorder_state_lookup new_order st st' j Hst') as Hk.
  rewrite Hd in Hk. destruct Hk as (d' & Hd' & Hlook).
  exists d'. split; [exact Hlook|].
  pose proof (reorder_layer_lookup new_order d d' "prev_key" Hd') as Hk'.
  pose proof (reorder_layer_lookup new_order d d' "prev_value" Hd') as Hv'.
  rewrite Hdk in Hk'. rewrite Hdv in Hv'.
  destruct Hk' as (k' & Hselk & Hk'). destruct Hv' as (v' & Hselv & Hv').
  exists k', v'. split; [exact Hk'|]. split; [exact Hv'|]. split.
  - apply (index_select0_rect n k); [apply Hrk | exact Hselk].
  - apply (index_select0_rect n v); [apply Hrv | exact Hselv].
Qed.

Lemma reorder_batch_is st st' (new_order : list Z) :
  reorder_incremental_state_scripting st new_order = Ok st' ->
  batch_is (length new_order) st'.
Proof.
  intros Hst' key d' name t' Hd' Ht'.
  pose proof (reorder_state_lookup new_order st st' key Hst') as Hk.
  destruct (st !! key) as [d|]; [|rewrite Hk in Hd'; discriminate].
  destruct Hk as (d1 & Hd1 & Hlook). rewrite Hlook in Hd'.
  injection Hd' as <-.
  pose proof (reorder_layer_lookup new_order d d1 name Hd1) as Hn.
  destruct (d !! name) as [[t|]|]; [|rewrite Hn in Ht'; discriminate..].
  destruct Hn as (t1 & Hsel & Hn). rewrite Hn in Ht'. injection Ht' as <-.
  exact (rmap_length _ _ _ Hsel).
Qed.

(** X25.  Reordering a state whose tensors all have [b] rows with indices
    inside the batch keeps what a session relies on: every layer still
    holds keys and values of the same [n] positions, now with one row
    per index of [new_order], and every tensor of the state has that
    many rows. *)
Theorem reorder_keeps_cache_lengths m (b n : nat) st (new_order : list Z) :
  batch_is b st -> all_cached m b n st ->
  Forall (fun i => 0 <= i < Z.of_nat b) new_order ->
  exists st',
    reorder_incremental_state_scripting st new_order = Ok st' /\
    all_cached m (length new_order) n st' /\
    batch_is (length new_order) st'.
Proof.
  intros Hb Hc Hr.
  destruct (reorder_in_range_Ok b st new_order Hb Hr) as [st' Hst'].
  exists st'. split; [exact Hst'|]. split.
  - exact (reorder_all_cached m b n st st' new_order Hc Hst').
  - exact (reorder_batch_is st st' new_order Hst').
Qed.


Lemma index_select0_compose t (first second : list Z) (t1 : Tensor V) :
  index_select0 t first = Ok t1 ->
  Forall (fun i => 0 <= i < Z.of_nat (length first)) second ->
  index_select0 t1 second = index_select0 t (compose_order first second).
Proof.
  intros Hsel Hsecond. pose proof (rmap_Forall2 _ _ _ Hsel) as Hrows.
  unfold index_select0, compose_order.
  induction Hsecond as [|i second Hi _ IH]; [reflexivity|].
  cbn [map rmap]. rewrite IH. clear IH.
  destruct (Z.ltb_spec i 0); [lia|].
  destruct (lookup_lt_is_Some_2 first (Z.to_nat i)) as [i1 Hi1]; [lia|].
  destruct (Forall2_lookup_l _ _ _ _ _ Hrows Hi1) as (row & Hrow & Hi1row).
  rewrite Hrow. rewrite (nth_lookup_Some _ _ 0 _ Hi1).
  cbv beta in Hi1row. rewrite Hi1row. reflexivity.
Qed.

Lemma reorder_entry_compose (first second : list Z) (v v1 : option (Tensor V)) :
  Forall (fun i => 0 <= i < Z.of_nat (length first)) second ->
  reorder_entry first v = Ok v1 ->
  is_Ok (reorder_entry second v1) /\
  reorder_entry (compose_order first second) v = reorder_entry second v1.
Proof.
  intros Hsecond. unfold reorder_entry. destruct v as [t|].
  - intros Hv. apply rbind_Ok in Hv as (t1 & Ht1 & [= <-]).
    rewrite <- (index_select0_compose t first second t1 Ht1 Hsecond).
    split; [|reflexivity].
    destruct (index_select0_in_range t1 second) as [t2 ->].
    + rewrite (rmap_length _ _ _ Ht1). exact Hsecond.
    + eexists. reflexivity.
  - intros [= <-]. split; [eexists|]; reflexivity.
Qed.

Lemma reorder_layer_compose (first second : list Z) d d1 :
  Forall (fun i => 0 <= i < Z.of_nat (length first)) second ->
  reorder_layer first d = Ok d1 ->
  is_Ok (reorder_layer second d1) /\
  reorder_layer (compose_order first second) d = reorder_layer second d1.
Proof.
  intros Hsecond Hd. unfold reorder_layer in *.
  destruct (update_in_place_compose (reorder_entry first) (reorder_entry second)
              (reorder_entry (compose_order first second)) d d1 Hd)
    as (d2 & H2 & H12).
  { intros v v1. apply reorder_entry_compose. exact Hsecond. }
  rewrite H2, H12. split; [eexists|]; reflexivity.
Qed.

(** X27.  Reordering twice is reordering once: after a reordering by
    [first] that returns, a reordering by [second], whose indices name
    rows of the reordered batch, returns, and the state it leaves is the
    one a single reordering of the original state by the composed order
    [first[second]] leaves. *)
Theorem reorder_twice_is_reorder_composed st st1 (first second : list Z) :
  reorder_incremental_state_scripting st first = Ok st1 ->
  Forall (fun i => 0 <= i < Z.of_nat (length first)) second ->
  exists st2,
    reorder_incremental_state_scripting st1 second = Ok st2 /\
    reorder_incremental_state_scripting st (compose_order first second) = Ok st2.
Proof.
  intros H1 Hsecond. unfold reorder_incremental_state_scripting in *.
  apply (update_in_place_compose (reorder_layer first) (reorder_layer second)
           (reorder_layer (compose_order first second)) st st1 H1).
  intros d d1. apply reorder_layer_compose. exact Hsecond.
Qed.

End ReorderEdge.

(** *** The mask *)

Section Mask.
Context {V F L : Type}.
Implicit Types (m : LLAMA V F L).

Lemma lookup_map {A B : Type} (f : A -> B) (l : list A) (i : nat) :
  map f l !! i = option_map f (l !! i).
Proof.
  revert i. induction l as [|x l IH]; intros [|i]; cbn; try reflexivity. apply IH.
Qed.

Lemma triu_neg_inf_lookup (n i j : nat) (d : Z) :
  (i < n)%nat -> (j < n)%nat ->
  exists row, triu_neg_inf n d !! i = Some row /\
              row !! j = Some (d <=? Z.of_nat j - Z.of_nat i).
Proof.
  intros Hi Hj. unfold triu_neg_inf. eexists. split.
  - rewrite lookup_map, (lookup_seq_lt 0 n i Hi). reflexivity.
  - rewrite lookup_map, (lookup_seq_lt 0 n j Hj). reflexivity.
Qed.

(** X28.  The mask of the first call.  A prefix of more than one position
    is attended causally - audio and left prompt included: the mask row
    of position [i] hides exactly the positions after [i].  A prefix of
    one position gets no mask. *)
Theorem priming_mask_is_causal m (b : nat) (c : Call V) (a : Assembled V F) :
  (0 < b)%nat -> c_start_pos c = 0 -> priming_shaped b c ->
  assemble m (c_tokens c) (c_start_pos c) (c_audio_out c) (c_left_prompts c) = Ok a ->
  ((prefix_length c <= 1)%nat -> a_mask a = None) /\
  ((1 < prefix_length c)%nat ->
   exists mk, a_mask a = Some mk /\ length mk = prefix_length c /\
     forall i j, (i < prefix_length c)%nat -> (j < prefix_length c)%nat ->
       exists row, mk !! i = Some row /\
                   (row !! j = Some true <-> (i < j)%nat)).
Proof.
  intros Hb Hsp Hshape Ha.
  destruct (assemble_priming_shape m b c a Hb Hsp Hshape Ha) as (_ & Hs & Hp).
  assert (Hmask : a_mask a
                  = if Nat.ltb 1 (a_seqlen a)
                    then Some (triu_neg_inf (a_seqlen a) (a_start_pos a + 1))
                    else None).
  { unfold assemble in Ha. apply rbind_Ok in Ha as (hs & _ & [= <-]).
    reflexivity. }
  rewrite Hs, Hp in Hmask. split.
  - intros Hle. rewrite Hmask.
    destruct (Nat.ltb_spec 1 (prefix_length c)); [lia | reflexivity].
  - intros Hlt. rewrite Hmask.
    destruct (Nat.ltb_spec 1 (prefix_length c)); [|lia].
    eexists. split; [reflexivity|]. split; [apply length_triu_neg_inf|].
    intros i j Hi Hj.
    destruct (triu_neg_inf_lookup (prefix_length c) i j (0 + 1) Hi Hj)
      as (row & Hrow & Hentry).
    exists row. split; [exact Hrow|]. rewrite Hentry. split.
    + intros [= E]. apply Z.leb_le in E. lia.
    + intros Hij. f_equal. apply Z.leb_le. lia.
Qed.

End Mask.

Lemma reorder_outside_batch_raises_witness :
  reorder_incremental_state_scripting toy_state [0; 2] = Err IndexError /\
  reorder_incremental_state_scripting toy_state [-1] = Err IndexError.
Proof.
  split.
  - apply (reorder_outside_batch_raises toy_state [0; 2] 0
             (<["prev_key" := Some [[10; 11]; [20; 21]]]> {[ "prev_value" := None ]})
             "prev_key" [[10; 11]; [20; 21]]); [reflexivity | reflexivity |].
    apply Exists_cons_tl, Exists_cons_hd. cbn. lia.
  - apply (reorder_outside_batch_raises toy_state [-1] 0
             (<["prev_key" := Some [[10; 11]; [20; 21]]]> {[ "prev_value" := None ]})
             "prev_key" [[10; 11]; [20; 21]]); [reflexivity | reflexivity |].
    apply Exists_cons_hd. cbn. lia.
Defined.

Lemma reorder_keeps_cache_lengths_witness :
  exists st',
    reorder_incremental_state_scripting
      ({[ 0%nat := <["prev_key" := Some [[1; 2]; [3; 4]]]>
                     {[ "prev_value" := Some [[5; 6]; [7; 8]] ]} ]} : IncState Z)
      [1; 1; 0] = Ok st' /\
    all_cached (toy_model 1 16) 3 2 st' /\ batch_is 3 st'.
Proof.
  apply (reorder_keeps_cache_lengths (toy_model 1 16) 2 2).
  - intros key d name t Hd Ht.
    apply lookup_singleton_Some in Hd as [<- <-].
    apply lookup_insert_Some in Ht as [[<- [= <-]]|[_ Ht]]; [reflexivity|].
    apply lookup_singleton_Some in Ht as [<- [= <-]]. reflexivity.
  - intros j Hj. assert (j = 0%nat) as -> by (cbn in Hj; lia).
    eexists. split; [reflexivity|].
    exists [[1; 2]; [3; 4]], [[5; 6]; [7; 8]].
    split; [reflexivity|]. split; [reflexivity|].
    split; (split; [reflexivity|]);
      (constructor; [reflexivity | constructor; [reflexivity | constructor]]).
  - constructor; [cbn; lia|]. constructor; [cbn; lia|].
    constructor; [cbn; lia | constructor].
Defined.


Lemma priming_mask_is_causal_witness :
  exists a mk,
    assemble (toy_model 1 16) [[5; 6]] 0 (Some [[1; 2; 3; 4]]) None = Ok a /\
    a_mask a = Some mk /\ length mk = 6%nat /\
    exists row, mk !! 2%nat = Some row /\
                (row !! 3%nat = Some true <-> (2 < 3)%nat).
Proof.
  eexists.
  destruct (priming_mask_is_causal (toy_model 1 16) 1 toy_prime _
              ltac:(lia) eq_refl
              ltac:(split; [exists 2%nat; one_row|];
                    split; [intros e [= <-]; exists 4%nat; one_row | intros lp [=]])
              eq_refl) as (_ & Hmask).
  destruct Hmask as (mk & Hmk & Hlen & Hrows); [cbn; lia|].
  exists mk. split; [reflexivity|]. split; [exact Hmk|]. split; [exact Hlen|].
  apply Hrows; cbn; lia.
Defined.

Lemma reorder_twice_is_reorder_composed_witness :
  exists st1 st2,
    reorder_incremental_state_scripting toy_state [1; 0; 1] = Ok st1 /\
    reorder_incremental_state_scripting st1 [2; 0] = Ok st2 /\
    reorder_incremental_state_scripting toy_state [1; 1] = Ok st2.
Proof.
  assert (H1 : is_Ok (reorder_incremental_state_scripting toy_state [1; 0; 1]))
    by (vm_compute; eexists; reflexivity).
  destruct H1 as [st1 H1].
  destruct (reorder_twice_is_reorder_composed toy_state st1 [1; 0; 1] [2; 0] H1)
    as (st2 & H2 & H12).
  { constructor; [cbn; lia|]. constructor; [cbn; lia | constructor]. }
  exists st1, st2. split; [exact H1|]. split; [exact H2 | exact H12].
Defined.

End DecoderEdge.
